(** * Carter navigation task: perception and action core

    A shallow embedding of
    [omni/isaac/lab_tasks/direct/carter/carter_env.py]: the LIDAR
    preprocessing and temporal pooling, the goal projection, the
    differential-drive solver, the observation assembly, the reset, the
    rewards and the terminations; of the single-robot copies of the
    preprocessing, the frame transform and the solver in the tutorial
    script [create_scene_carter.py]; and of the buffers of the IMU sensor
    [omni/isaac/lab/sensors/imu/imu.py].

    Numbers.  The source computes in [torch] float32.  Tensor elements are
    modelled as real numbers ([R]): every operation is the exact one
    (no rounding, no NaN or infinity, no signed zero).  Python integers are
    [Z], loop indices are [nat].

    Tensors.  The source passes values whose rank changes at run time
    (an empty 1-D tensor stands for "no data"), so a tensor is a value of
    the inductive type [tensor], which records its rank.  An operation that
    raises in Python returns [None]. *)

From Stdlib Require Import Reals Lra Lia ZArith Zfloor.
From stdpp Require Import ssreflect base option list strings.

Open Scope R_scope.

(** Comparisons of reals are decided by the library's excluded-middle
    deciders. *)
#[global] Instance Rle_decision (a b : R) : Decision (a <= b) := Rle_dec a b.
#[global] Instance Rlt_decision (a b : R) : Decision (a < b) := Rlt_dec a b.
#[global] Instance Rgt_decision (a b : R) : Decision (a > b) := Rgt_dec a b.

(** ** Tensors of rank 0 to 3 *)

Inductive tensor : Type :=
| T0 (x : R)
| T1 (v : list R)
| T2 (m : list (list R))
| T3 (c : list (list (list R))).

(** [t.dim()] *)
Definition dim (t : tensor) : nat :=
  match t with T0 _ => 0 | T1 _ => 1 | T2 _ => 2 | T3 _ => 3 end%nat.

(** [t.size(0)]; a 0-d tensor has no dimension 0 and raises. *)
Definition size0 (t : tensor) : option nat :=
  match t with
  | T0 _ => None
  | T1 v => Some (length v)
  | T2 m => Some (length m)
  | T3 c => Some (length c)
  end.

(** [t.size(1)]; the width of a tensor is read off its first row. *)
Definition size1 (t : tensor) : option nat :=
  match t with
  | T0 _ | T1 _ => None
  | T2 m => Some (from_option length 0%nat (head m))
  | T3 c => Some (from_option length 0%nat (head c))
  end.

(** [t[i]] for a Python [int] index within [range(...)]. *)
Definition index0 (t : tensor) (i : nat) : option tensor :=
  match t with
  | T0 _ => None
  | T1 v => T0 <$> v !! i
  | T2 m => T1 <$> m !! i
  | T3 c => T2 <$> c !! i
  end.

(** All elements in row-major order. *)
Definition flat (t : tensor) : list R :=
  match t with
  | T0 x => [x]
  | T1 v => v
  | T2 m => concat m
  | T3 c => concat (concat c)
  end.

(** [t.reshape(1, 720)] *)
Definition reshape_1_720 (t : tensor) : option (list (list R)) :=
  if decide (length (flat t) = 720%nat) then Some [flat t] else None.

(** [torch.cat((a, b), dim=0)] for a 2-D [b] of width 720.  A 1-D empty
    tensor is skipped by [torch.cat]; a 2-D [a] must have the width of [b]
    (a 2-D tensor without rows is encoded [T2 []] whatever its width, and is
    taken to agree); any other [a] raises. *)
Definition cat0 (a : tensor) (b : list (list R)) : option (list (list R)) :=
  match a with
  | T1 [] => Some b
  | T2 m => if decide (Forall (λ r, length r = 720%nat) m) then Some (m ++ b) else None
  | _ => None
  end.

(** [torch.stack(l)] of 1-D pieces: raises on an empty list and on pieces
    of different lengths. *)
Definition stack {A} (l : list (list A)) : option (list (list A)) :=
  match l with
  | [] => None
  | x :: _ => if decide (Forall (λ y, length y = length x) l) then Some l else None
  end.

(** [torch.stack(l)] of 2-D pieces: raises on an empty list and on pieces
    of different shapes, that is, when two pieces differ in the number of
    rows or in the width of a row. *)
Definition stack2 {A} (l : list (list (list A))) : option (list (list (list A))) :=
  match l with
  | [] => None
  | x :: _ =>
      if decide (Forall (λ y : list (list A), length <$> y = length <$> x) l)
      then Some l else None
  end.

(** Python slice [l[a:b]] for [0 <= a <= b]. *)
Definition slice {A} (a b : nat) (l : list A) : list A :=
  take (b - a) (drop a l).

(** [torch.min(l)]: raises on an empty tensor. *)
Definition torch_min (l : list R) : option R :=
  match l with
  | [] => None
  | x :: l' => Some (foldl Rmin x l')
  end.

(** [torch.sum(l)] *)
Definition Rsum (l : list R) : R := foldr Rplus 0 l.

(** [torch.mean(l)] *)
Definition torch_mean (l : list R) : R := Rsum l / INR (length l).

(** A [for] loop over a list of indices that threads a value and may raise. *)
Fixpoint for_each {S} (body : S → nat → option S) (s : S) (l : list nat) : option S :=
  match l with
  | [] => Some s
  | i :: l' => s' ← body s i; for_each body s' l'
  end.

(** [g[r, c] = v] on a 2-D tensor; out of range raises. *)
Definition grid_set (r c : nat) (v : R) (g : list (list R)) : option (list (list R)) :=
  row ← g !! r;
  _ ← row !! c;
  Some (<[r := <[c := v]> row]> g).

(** ** Module constants *)

Definition NUM_TP : Z := 10.
Definition motor_scale : R := 0.5.
Definition joint_base : R := 42.
Definition base_width : R := 0.4132.
Definition system_gain : R := 1.25.

(** ** [lidar_pooling] *)

(** The body of [for n in range(NUM_TP)] with its inner
    [for i in range(80)], for the flattened history [row] of one instance. *)
Definition pool_frame (row : list R) (lidar_avg : list (list R)) (n : nat)
  : option (list (list R)) :=
  let lidar_tmp := slice (n * 720) ((n + 1) * 720) row in
  for_each (λ g i,
    mn ← torch_min (slice (i * 9) ((i + 1) * 9) lidar_tmp);
    g ← grid_set (2 * n) i mn g;
    grid_set (2 * n + 1) i (torch_mean (slice (i * 9) ((i + 1) * 9) lidar_tmp)) g)
  lidar_avg (seq 0 80).

(** The body of [for j in range(_scan_tmp.size(0))]: the 20 x 80 grid of one
    instance. *)
Definition pool_instance (row : list R) : option (list (list R)) :=
  for_each (pool_frame row) (replicate 20 (replicate 80 0)) (seq 0 (Z.to_nat NUM_TP)).

Definition s_min : R := 0.
Definition s_max : R := 30.

(** The body of [for lidar_avg in lidar_avg_all]: flatten, repeat four
    times, normalise. *)
Definition normalize_map (lidar_avg : list (list R)) : list R :=
  let lidar_avg := concat lidar_avg in
  let lidar_avg_map := concat (replicate 4 lidar_avg) in
  (λ x, 2 * (x - s_min) / (s_max - s_min) + (-1)) <$> lidar_avg_map.

(** The result is the tuple [(lidar_data_final, pooling_flag,
    _lidar_history_data, _pooling_tns)]. *)
Definition lidar_pooling (_lidar_history_data _scan_tmp : tensor) (_pooling_tns : Z)
  : option (tensor * bool * tensor * Z) :=
  if decide (dim _scan_tmp ≤ 1)%nat then Some (T1 [], false, T1 [], 0%Z)
  else
    n ← size0 _scan_tmp;
    cnn_lidar_tmp ← mapM (λ i,
        hsize ← size0 _lidar_history_data;
        if decide (hsize = 0%nat) then
          scan_i ← index0 _scan_tmp i; reshape_1_720 scan_i
        else
          h_i ← index0 _lidar_history_data i;
          scan_i ← index0 _scan_tmp i;
          frame ← reshape_1_720 scan_i;
          cat0 h_i frame)
      (seq 0 n);
    let _pooling_tns := (_pooling_tns + 1)%Z in
    cnn_lidar_tmp ← stack2 cnn_lidar_tmp;
    if decide (_pooling_tns = NUM_TP) then
      let cnn_lidar : list (list R) := (λ fr, concat fr) <$> cnn_lidar_tmp in
      let _pooling_tns := (NUM_TP - 1)%Z in
      let _lidar_history_data := slice 1 (Z.to_nat NUM_TP) <$> cnn_lidar_tmp in
      lidar_avg_all ← mapM (λ j, row ← cnn_lidar !! j; pool_instance row) (seq 0 n);
      let lidar_data_final := normalize_map <$> lidar_avg_all in
      Some (T2 lidar_data_final, true, T3 _lidar_history_data, _pooling_tns)
    else Some (T3 cnn_lidar_tmp, false, T3 cnn_lidar_tmp, _pooling_tns).

(** ** [raw_lidar_process] *)

(** One entry of [lidar.data]: the point cloud [data] (n x 3) and the
    ranges [distance] (n) of one sensor. *)
Record lidar_frame : Type := LidarFrame {
  data : list (list R);
  distance : list R
}.

(** [lidar.data]: a dictionary from sensor path to frame, in insertion
    order. *)
Definition lidar_data_t : Type := list (string * lidar_frame).

(** [l[mask]] with a boolean mask: the mask must have the length of [l]. *)
Definition masked {A} (l : list A) (mask : list bool) : option (list A) :=
  if decide (length l = length mask)
  then Some ((filter (λ p, p.2 = true) (zip l mask)).*1)
  else None.

(** [torch.linspace(0, last, steps).long()]: the values
    [i * last / (steps - 1)] truncated towards zero.  With [steps = 720],
    [719] is prime and [last < 970], so a value is an integer only where
    float32 computes it exactly, and the float32 result is the one of exact
    arithmetic. *)
Definition linspace_long (last : Z) (steps : nat) : list Z :=
  (λ i, Z.quot (Z.of_nat i * last) (Z.of_nat steps - 1)) <$> seq 0 steps.

(** [l[k]] for one entry [k] of an index tensor: a negative index counts
    from the end, an index out of range raises. *)
Definition index_long {A} (l : list A) (k : Z) : option A :=
  if decide (0 ≤ k)%Z then l !! Z.to_nat k
  else if decide (- Z.of_nat (length l) ≤ k)%Z then l !! Z.to_nat (Z.of_nat (length l) + k)
  else None.

Definition z_min : R := -0.02.
Definition z_max : R := 0.02.
Definition num_samples : nat := 720.

(** The body of [for key in lidar.data]. *)
Definition process_key (fr : lidar_frame) : option (list (list R) * list R) :=
  let lidar_data := data fr in
  let lidar_ranges := distance fr in
  z_data ← mapM (λ p : list R, p !! 2%nat) lidar_data;
  let mask := (λ z, bool_decide (z_min <= z) && bool_decide (z <= z_max)) <$> z_data in
  filtered_lidar_data ← slice 0 970 <$> masked lidar_data mask;
  filtered_lidar_ranges ← slice 0 970 <$> masked lidar_ranges mask;
  let indices := linspace_long (Z.of_nat (length filtered_lidar_data) - 1) num_samples in
  filtered_lidar_data ← mapM (index_long filtered_lidar_data) indices;
  filtered_lidar_ranges ← mapM (index_long filtered_lidar_ranges) indices;
  Some (filtered_lidar_data, filtered_lidar_ranges).

(** The emptiness test looks at the points of the first sensor only. *)
Definition raw_lidar_process (_lidar : lidar_data_t) : option (tensor * tensor) :=
  first ← head _lidar;
  if decide (length (data first.2) ≠ 0%nat) then
    per_key ← mapM (λ kv : string * lidar_frame, process_key kv.2) _lidar;
    final_lidar_data ← stack2 per_key.*1;
    final_lidar_ranges ← stack per_key.*2;
    Some (T3 final_lidar_data, T2 final_lidar_ranges)
  else Some (T1 [], T1 []).

(** ** Frame transforms (marker visualisation) *)

(** [torch.norm(v)] *)
Definition norm (v : list R) : R := sqrt (Rsum ((λ x, x * x) <$> v)).

(** The rotation matrix of each quaternion of a batch, after
    normalisation.  For a quaternion of norm zero the source divides by
    zero and fills the matrix with NaN, which a matrix of real numbers
    cannot hold: what this function returns there says nothing about the
    source, and every statement about the entries of the matrix carries the
    hypothesis that the quaternion has a non-zero entry. *)
Definition quat_to_rot_matrix (quat : list (list R)) : option (list (list (list R))) :=
  rot_matrix ← mapM (λ quat_tmp : list R,
      let q := (λ x, x / norm quat_tmp) <$> quat_tmp in
      match q with
      | [w; x; y; z] =>
          Some [ [1 - 2*y*y - 2*z*z; 2*x*y - 2*w*z; 2*x*z + 2*w*y];
                 [2*x*y + 2*w*z; 1 - 2*x*x - 2*z*z; 2*y*z - 2*w*x];
                 [2*x*z - 2*w*y; 2*y*z + 2*w*x; 1 - 2*x*x - 2*y*y] ]
      | _ => None
      end) quat;
  stack2 rot_matrix.

(** The dot product of two rows. *)
Definition dot (u v : list R) : R := Rsum (zip_with Rmult u v).

(** [torch.mm(d, r.t())] for a 3 x 3 matrix [r]: entry (p, k) is the dot
    product of row p of [d] and row k of [r]. *)
Definition mm_t (d r : list (list R)) : option (list (list R)) :=
  if decide (Forall (λ p, length p = 3%nat) d)
  then Some ((λ p, (λ rk, dot p rk) <$> r) <$> d)
  else None.

(** Broadcasting of two 1-D tensors under an elementwise operation. *)
Definition bcast1 (f : R → R → R) (u v : list R) : option (list R) :=
  if decide (length u = length v) then Some (zip_with f u v)
  else match u, v with
       | [a], _ => Some (f a <$> v)
       | _, [b] => Some ((λ x, f x b) <$> u)
       | _, _ => None
       end.

(** Broadcasting of two 2-D tensors under an elementwise operation. *)
Definition bcast2 (f : R → R → R) (a b : list (list R)) : option (list (list R)) :=
  if decide (length a = length b) then mapM (λ uv, bcast1 f uv.1 uv.2) (zip a b)
  else match a, b with
       | [u], _ => mapM (bcast1 f u) b
       | _, [v] => mapM (λ u, bcast1 f u v) a
       | _, _ => None
       end.

(** Each point cloud of the batch rotated by its matrix and moved by its
    translation. *)
Definition transform_to_robot (data : list (list (list R)))
    (rot_matrix : list (list (list R))) (translation : list (list R))
  : option (list (list (list R))) :=
  data_transformed ← mapM (λ i,
      data_tmp ← data !! i;
      rot_matrix_tmp ← rot_matrix !! i;
      translation_tmp ← translation !! i;
      data_rotated ← mm_t data_tmp rot_matrix_tmp;
      mapM (λ p, bcast1 Rplus p translation_tmp) data_rotated)
    (seq 0 (length data));
  stack2 data_transformed.

(** ** Goal projection *)

(** [torch.atan2], a function of the tensor library: the two-argument
    arctangent, with values in (-PI, PI]. *)
Definition atan2 (y x : R) : R :=
  if decide (0 < x) then atan (y / x)
  else if decide (x < 0) then
         (if decide (0 <= y) then atan (y / x) + PI else atan (y / x) - PI)
  else if decide (0 < y) then PI / 2
  else if decide (y < 0) then - (PI / 2)
  else 0.

(** Python's [a % b] on floats: the remainder has the sign of [b]. *)
Definition py_mod (a b : R) : R := a - b * IZR (Zfloor (a / b)).

(** The angle of each quaternion (w, x, y, z) of a batch, wrapped by
    [(angles + pi) % (2 * pi) - pi]. *)
Definition quaternion_to_angle (quat : list (list R)) : option (list R) :=
  mapM (λ q : list R,
      w ← q !! 0%nat; x ← q !! 1%nat; y ← q !! 2%nat; z ← q !! 3%nat;
      let r11 := 1 - 2 * (y ^ 2 + z ^ 2) in
      let r21 := 2 * (x * y - w * z) in
      let angles := atan2 r21 r11 in
      Some (py_mod (angles + PI) (2 * PI) - PI)) quat.

(** The two assignments write into the row after both new values have
    been computed. *)
Definition goal_rotate (angle : R) (relative_goal : list R) : option (list R) :=
  g0 ← relative_goal !! 0%nat;
  g1 ← relative_goal !! 1%nat;
  let x_new := g0 * cos angle - g1 * sin angle in
  let y_new := g0 * sin angle + g1 * cos angle in
  Some (<[1%nat := y_new]> (<[0%nat := x_new]> relative_goal)).

Definition g_min : R := -2.
Definition g_max : R := 2.

(** The body of [for i in range(_goal.size(0))] in [subgoal_get]. *)
Definition subgoal_get_body (_lookahead : R) (row : list R) : option (list R) :=
  g0 ← row !! 0%nat;
  g1 ← row !! 1%nat;
  let goal_in_robot_tmp := [g0; g1] in
  let subgoal_in_robot_tmp :=
    if decide (sqrt (g0 * g0 + g1 * g1) > _lookahead) then
      let scale_factor := _lookahead / sqrt (g0 * g0 + g1 * g1) in
      [g0 * scale_factor; g1 * scale_factor]
    else goal_in_robot_tmp in
  Some ((λ x, 2 * (x - g_min) / (g_max - g_min) + (-1)) <$> subgoal_in_robot_tmp).

Definition subgoal_get (_goal : list (list R)) (_lookahead : R) : option (list (list R)) :=
  subgoal_in_robot ← mapM (subgoal_get_body _lookahead) _goal;
  stack subgoal_in_robot.

(** ** [differential_drive_solver] *)

(** The body of [for i in range(actions.size(0))]. *)
Definition differential_drive_body (row : list R) : option (list R) :=
  vx ← row !! 0%nat;
  wf ← row !! 1%nat;
  let action := replicate 7 0 in
  let vx_base := motor_scale in
  let pl_pr_base := joint_base in
  let gain := system_gain in
  let v_left := vx - (wf * base_width / 2.0) in
  let v_right := vx + (wf * base_width / 2.0) in
  let pl := gain * (v_left / vx_base) * pl_pr_base in
  let pr := gain * (v_right / vx_base) * pl_pr_base in
  let action := <[1%nat := pl]> action in
  let action := <[2%nat := pr]> action in
  Some action.

Definition differential_drive_solver (actions : list (list R)) : option (list (list R)) :=
  action_list ← mapM differential_drive_body actions;
  stack action_list.

(** ** The environment [CarterEnv] *)

(** The module-level [goal] tensor. *)
Definition goal : list (list R) := [[-5; -2]; [-10; -2]].

(** The attributes of [CarterEnv] that the methods below read or write. *)
Record CarterEnv : Type := MkCarterEnv {
  num_envs : nat;
  action_scale : R;
  actions : list (list R);
  _left_dof_idx : list nat;
  _right_dof_idx : list nat;
  joint_pos : list (list R);
  joint_vel : list (list R);
  lidar_history_data : tensor;
  pooling_tns : Z
}.

(** [CarterEnv.__init__], given what the base class and the articulation
    provide. *)
Definition __init__ (n : nat) (left right : list nat) (jp jv : list (list R)) : CarterEnv :=
  {| num_envs := n; action_scale := motor_scale; actions := [];
     _left_dof_idx := left; _right_dof_idx := right;
     joint_pos := jp; joint_vel := jv;
     lidar_history_data := T2 [[]]; pooling_tns := 0 |}.

Definition set_actions (self : CarterEnv) (a : list (list R)) : CarterEnv :=
  {| num_envs := num_envs self; action_scale := action_scale self; actions := a;
     _left_dof_idx := _left_dof_idx self; _right_dof_idx := _right_dof_idx self;
     joint_pos := joint_pos self; joint_vel := joint_vel self;
     lidar_history_data := lidar_history_data self; pooling_tns := pooling_tns self |}.

Definition set_joints (self : CarterEnv) (jp jv : list (list R)) : CarterEnv :=
  {| num_envs := num_envs self; action_scale := action_scale self; actions := actions self;
     _left_dof_idx := _left_dof_idx self; _right_dof_idx := _right_dof_idx self;
     joint_pos := jp; joint_vel := jv;
     lidar_history_data := lidar_history_data self; pooling_tns := pooling_tns self |}.

Definition set_pooling (self : CarterEnv) (h : tensor) (tns : Z) : CarterEnv :=
  {| num_envs := num_envs self; action_scale := action_scale self; actions := actions self;
     _left_dof_idx := _left_dof_idx self; _right_dof_idx := _right_dof_idx self;
     joint_pos := joint_pos self; joint_vel := joint_vel self;
     lidar_history_data := h; pooling_tns := tns |}.

Definition _pre_physics_step (self : CarterEnv) (acts : list (list R)) : CarterEnv :=
  set_actions self ((λ row : list R, (λ a, action_scale self * a) <$> row) <$> acts).

(** [_apply_action]: the effort targets handed to
    [carter.set_joint_effort_target]. *)
Definition _apply_action (self : CarterEnv) : option (list (list R)) :=
  differential_drive_solver (actions self).

(** The first two statements of the LIDAR part of [_get_observations]
    after preprocessing: the call of [lidar_pooling] and the assignment of
    its last two results to [self]. *)
Definition pooling_step (self : CarterEnv) (lidar_ranges : tensor)
  : option (tensor * bool * CarterEnv) :=
  '(lidar_data_final, pooling_flag, h, tns) ←
    lidar_pooling (lidar_history_data self) lidar_ranges (pooling_tns self);
  Some (lidar_data_final, pooling_flag, set_pooling self h tns).

(** [l.reshape(n, w)] of a flat list. *)
Fixpoint chunks {A} (n w : nat) (l : list A) : list (list A) :=
  match n with
  | O => []
  | S k => take w l :: chunks k w (drop w l)
  end.

Definition reshape2 {A} (n w : nat) (l : list A) : option (list (list A)) :=
  if decide (length l = (n * w)%nat) then Some (chunks n w l) else None.

(** [torch.cat((a, b, c), dim=1)] of 2-D tensors. *)
Definition cat1 (a b c : list (list R)) : option (list (list R)) :=
  if decide (length a = length b ∧ length b = length c)
  then Some (zip_with app a (zip_with app b c))
  else None.

(** The subgoal part of [_get_observations]: the goal relative to the
    robot, rotated by the angle of the root quaternion, clamped and
    normalised. *)
Definition relative_subgoal (goal root_quat_w root_pos_w : list (list R))
  : option (list (list R)) :=
  let robot_to_world_pos := take 2 <$> root_pos_w in
  relative_goal ← bcast2 Rminus goal robot_to_world_pos;
  angle_x_axis ← quaternion_to_angle root_quat_w;
  relative_goal ← mapM (λ i,
      angle ← (angle_x_axis : list R) !! i;
      row ← (relative_goal : list (list R)) !! i;
      goal_rotate angle row) (seq 0 (length relative_goal));
  let lookahead := 2.0 in
  subgoal_get relative_goal lookahead.

(** What one call hands to the host: the policy observation and the
    marker translations. *)
Record observation : Type := MkObservation {
  policy : list (list R);
  lidar_markers : option (list (list R));
  goal_markers : list (list R)
}.

Definition lidar_to_robot_quat : list (list R) := [[1; 0; 0; 0]; [1; 0; 0; 0]].
Definition lidar_to_robot_pos : list (list R) := [[0.026; 0; 0.418]; [0.026; 0; 0.418]].

(** The marker part of [_get_observations]: the LIDAR points in the world
    frame, when there are any. *)
Definition visualize_lidar (lidar_data : tensor) (root_quat_w root_pos_w : list (list R))
  : option (option (list (list R))) :=
  if decide (1 < dim lidar_data)%nat then
    w ← size1 lidar_data;
    if decide (300 ≤ w)%nat then
      match lidar_data with
      | T3 pts =>
          rot_matrix ← quat_to_rot_matrix lidar_to_robot_quat;
          lidar_robot_data ← transform_to_robot pts rot_matrix lidar_to_robot_pos;
          let robot_to_world_quat := root_quat_w in
          let robot_to_world_pos := root_pos_w in
          robot_rot_matrix ← quat_to_rot_matrix robot_to_world_quat;
          lidar_data_world ← transform_to_robot lidar_robot_data robot_rot_matrix
                               robot_to_world_pos;
          Some (Some (concat lidar_data_world))
      | _ => None
      end
    else Some None
  else Some None.

(** The last statement of [_get_observations]: the policy observation. *)
Definition concat_observation (n : nat) (pooling_flag : bool) (lidar_data_final : tensor)
    (ped_pos subgoal : list (list R)) : option (list (list R)) :=
  if pooling_flag then
    match lidar_data_final with
    | T2 m => cat1 ped_pos m subgoal
    | _ => None
    end
  else Some (replicate n (replicate (Z.to_nat 19202) 0)).

(** [_get_observations]: [lidar] is [self.lidar.data], [root_quat_w] and
    [root_pos_w] are read from [self.carter.data]. *)
Definition _get_observations (self : CarterEnv) (lidar : lidar_data_t)
    (root_quat_w root_pos_w : list (list R)) : option (observation * CarterEnv) :=
  (* process lidar_data *)
  lidar_pair ← raw_lidar_process lidar;
  let lidar_data := lidar_pair.1 in
  let lidar_ranges := lidar_pair.2 in
  pooled ← pooling_step self lidar_ranges;
  let lidar_data_final := pooled.1.1 in
  let pooling_flag := pooled.1.2 in
  let self := pooled.2 in
  (* visualise lidar data *)
  lidar_marker ← visualize_lidar lidar_data root_quat_w root_pos_w;
  (* process peds data *)
  let ped_pos := replicate (num_envs self) (replicate (Z.to_nat 12800) 0) in
  (* process subgoal data *)
  subgoal ← relative_subgoal goal root_quat_w root_pos_w;
  let goal_with_z := (λ g : list R, g ++ [0]) <$> goal in
  goal_marker ← reshape2 (num_envs self) 3 (concat goal_with_z);
  (* concat observation *)
  obs ← concat_observation (num_envs self) pooling_flag lidar_data_final ped_pos subgoal;
  Some ({| policy := obs; lidar_markers := lidar_marker; goal_markers := goal_marker |}, self).

(** ** [_reset_idx] *)

(** [row[idx] += nz] for a list [idx] of columns. *)
Fixpoint add_at (idx : list nat) (nz : list R) (row : list R) : option (list R) :=
  match idx, nz with
  | j :: idx', e :: nz' =>
      x ← row !! j;
      add_at idx' nz' (<[j := x + e]> row)
  | _, _ => Some row
  end.

(** [t[env_ids] = rows] *)
Fixpoint index_put {A} (env_ids : list nat) (rows : list A) (t : list A) : option (list A) :=
  match env_ids, rows with
  | i :: ids', r :: rows' =>
      _ ← t !! i;
      index_put ids' rows' (<[i := r]> t)
  | _, _ => Some t
  end.

(** The articulation data and scene data that [_reset_idx] reads. *)
Record carter_defaults : Type := MkDefaults {
  _ALL_INDICES : list nat;
  default_joint_pos : list (list R);
  default_joint_vel : list (list R);
  default_root_state : list (list R);
  env_origins : list (list R)
}.

Section Reset.

(** The simulation host.  [DirectRLEnv._reset_idx] and the articulation's
    [write_*_to_sim] methods are not part of the task module; they act on
    the host state [Sim] and are taken as given.  The attributes
    [lidar_history_data] and [pooling_tns] are created by
    [CarterEnv.__init__] and unknown to them. *)
Context {Sim : Type}.
Variable super_reset_idx : list nat → Sim → Sim.
Variable write_root_pose_to_sim : list (list R) → list nat → Sim → Sim.
Variable write_root_velocity_to_sim : list (list R) → list nat → Sim → Sim.
Variable write_joint_state_to_sim : list (list R) → list (list R) → list nat → Sim → Sim.

(** [_reset_idx]; [noise] is the tensor returned by [sample_uniform]. *)
Definition _reset_idx (self : CarterEnv) (sim : Sim) (cd : carter_defaults)
    (env_ids : option (list nat)) (noise : list (list R)) : option (CarterEnv * Sim) :=
  let env_ids := default (_ALL_INDICES cd) env_ids in
  let sim := super_reset_idx env_ids sim in
  jpos ← mapM (λ i, default_joint_pos cd !! i) env_ids;
  jpos ← mapM (λ rn : list R * list R, add_at (_left_dof_idx self) rn.2 rn.1)
              (zip jpos noise);
  jvel ← mapM (λ i, default_joint_vel cd !! i) env_ids;
  root_state ← mapM (λ i, default_root_state cd !! i) env_ids;
  origins ← mapM (λ i, env_origins cd !! i) env_ids;
  root_state ← mapM (λ so : list R * list R,
      xyz ← bcast1 Rplus (take 3 so.1) so.2;
      Some (xyz ++ drop 3 so.1)) (zip root_state origins);
  jp ← index_put env_ids jpos (joint_pos self);
  jv ← index_put env_ids jvel (joint_vel self);
  let self := set_joints self jp jv in
  let sim := write_root_pose_to_sim (take 7 <$> root_state) env_ids sim in
  let sim := write_root_velocity_to_sim (drop 7 <$> root_state) env_ids sim in
  let sim := write_joint_state_to_sim jpos jvel env_ids sim in
  Some (self, sim).

End Reset.

(** * Specification-side definitions *)

(** ** Pooling *)

(** Bin [i] of frame [n] in the flattened history of one instance. *)
Definition bin (row : list R) (n i : nat) : list R :=
  slice (i * 9) ((i + 1) * 9) (slice (n * 720) ((n + 1) * 720) row).

(** The value that the loops leave in row [r], column [c] of the grid. *)
Definition cell (row : list R) (r c : nat) : R :=
  if Nat.even r then default 0 (torch_min (bin row (r / 2) c))
  else torch_mean (bin row (r / 2) c).

(** The 20 x 80 grid as a table of its cells. *)
Definition pooled_grid (row : list R) : list (list R) :=
  (λ r, (λ c, cell row r c) <$> seq 0 80) <$> seq 0 20.

(** [g[r, c]] *)
Definition get (g : list (list R)) (r c : nat) : option R := g !! r ≫= (.!! c).

(** A tensor of shape (20, 80). *)
Definition is_grid (g : list (list R)) : Prop :=
  length g = 20%nat ∧ Forall (λ r, length r = 80%nat) g.

(** Every bin of the ten frames has a sample. *)
Definition full_row (row : list R) : Prop :=
  ∀ n i, (n < 10)%nat → (i < 80)%nat → bin row n i ≠ [].

(** The normalisation of the pooled features, as the specification writes
    it. *)
Definition affine (x : R) : R := 2 * (x - 0) / (30 - 0) - 1.

(** Bin [i] of one frame: the samples [f[9i], ..., f[9i+8]]. *)
Definition frame_bin (f : list R) (i : nat) : list R := slice (i * 9) ((i + 1) * 9) f.

(** [m] is the least element of [l]. *)
Definition is_min (m : R) (l : list R) : Prop := m ∈ l ∧ ∀ x, x ∈ l → m <= x.

(** The frames that a history tensor stores for instance [i]. *)
Definition frames_of (h : tensor) (i : nat) : list (list R) :=
  match h with T3 c => default [] (c !! i) | _ => [] end.

(** A valid range input: one vector of 720 ranges for each of [N]
    instances. *)
Definition scan_ok (N : nat) (scan : list (list R)) : Prop :=
  length scan = N ∧ Forall (λ r, length r = 720%nat) scan.

(** The history is in step with the counter [c]: no frames and counter 0,
    or [c] frames of 720 ranges for each instance, with [c <= 9]. *)
Definition wf_history (N : nat) (h : tensor) (c : Z) : Prop :=
  (0 ≤ c ≤ 9)%Z ∧
  match h with
  | T0 _ => False
  | T1 v => v = [] ∧ c = 0%Z
  | T2 m => (N ≤ length m)%nat ∧ Forall (λ r, r = []) m ∧ c = 0%Z
  | T3 rows =>
      (N ≤ length rows)%nat ∧
      Forall (λ fr, length fr = Z.to_nat c ∧ Forall (λ f, length f = 720%nat) fr) rows
  end.

(** [cnn_lidar_tmp]: the stored frames of each instance followed by its
    incoming vector. *)
Definition stacked (N : nat) (h : tensor) (scan : list (list R)) : list (list (list R)) :=
  (λ i, frames_of h i ++ [default [] (scan !! i)]) <$> seq 0 N.

(** The caller's loop: one [pooling_step] per tick, the flags collected. *)
Fixpoint pool_run (self : CarterEnv) (scans : list tensor) : option (list bool * CarterEnv) :=
  match scans with
  | [] => Some ([], self)
  | s :: rest =>
      '(_, flag, self) ← pooling_step self s;
      '(flags, self) ← pool_run self rest;
      Some (flag :: flags, self)
  end.

(** The range vectors of instance [i] in a sequence of scans, oldest first. *)
Definition col (i : nat) (scans : list (list (list R))) : list (list R) :=
  (λ s : list (list R), default [] (s !! i)) <$> scans.

(** The last [k] elements of a list. *)
Definition lastn {A} (k : nat) (l : list A) : list A := drop (length l - k) l.

(** A history without frames: the empty tensor that [lidar_pooling] tests
    for, or a 2-D tensor with an empty row for each instance (as
    [__init__] creates for one instance). *)
Definition empty_history (N : nat) (h : tensor) : Prop :=
  h = T1 [] ∨ ∃ m, h = T2 m ∧ (N ≤ length m)%nat ∧ Forall (λ r, r = []) m.

(** The state after the scans [fed] have been processed. *)
Definition pool_inv (N : nat) (fed : list (list (list R))) (self : CarterEnv) : Prop :=
  wf_history N (lidar_history_data self) (pooling_tns self) ∧
  pooling_tns self = (Z.of_nat (length fed) `min` 9)%Z ∧
  ∀ i, (i < N)%nat → frames_of (lidar_history_data self) i = lastn 9 (col i fed).

(** The angle [a] wrapped as the source does it. *)
Definition wrap_angle (a : R) : R := py_mod (a + PI) (2 * PI) - PI.

(** The standard rotation of the plane by the angle [t]. *)
Definition rot2 (t x y : R) : R * R := (x * cos t - y * sin t, x * sin t + y * cos t).

(** The affine map of [subgoal_get] from [-2, 2] to [-1, 1]. *)
Definition goal_affine (x : R) : R := 2 * (x - (-2)) / (2 - (-2)) - 1.

(** ** Preprocessing *)

(** The test of the z band on one point. *)
Definition keep (p : list R) : bool :=
  match p !! 2%nat with
  | Some z => bool_decide (z_min <= z) && bool_decide (z <= z_max)
  | None => false
  end.

(** The points of a frame inside the band, cut to the first 970. *)
Definition survivors (fr : lidar_frame) : list (list R) :=
  take 970 (filter (λ p, keep p = true) (data fr)).

(** The ranges of the surviving points. *)
Definition surviving_ranges (fr : lidar_frame) : list R :=
  take 970 (filter (λ pr : list R * R, keep pr.1 = true) (zip (data fr) (distance fr))).*2.

(** The index that output position [k] reads, for [n] survivors. *)
Definition pick (n k : nat) : nat := (k * (n - 1) / 719)%nat.

(** A frame the preprocessing accepts: points with three coordinates, one
    range per point, at least one point inside the band. *)
Definition frame_ok (fr : lidar_frame) : Prop :=
  Forall (λ p : list R, length p = 3%nat) (data fr) ∧
  length (distance fr) = length (data fr) ∧
  Exists (λ p, keep p = true) (data fr).

(** ** Reset *)

(** Indices and shapes under which [_reset_idx] does not raise. *)
Definition reset_ok (self : CarterEnv) (cd : carter_defaults) (ids : list nat) : Prop :=
  Forall (λ i, (i < length (joint_pos self))%nat ∧ (i < length (joint_vel self))%nat ∧
               (i < length (default_joint_pos cd))%nat ∧
               (i < length (default_joint_vel cd))%nat ∧
               (i < length (default_root_state cd))%nat ∧
               (i < length (env_origins cd))%nat) ids ∧
  Forall (λ row : list R, Forall (λ j, (j < length row)%nat) (_left_dof_idx self))
         (default_joint_pos cd) ∧
  Forall (λ s : list R, (3 ≤ length s)%nat) (default_root_state cd) ∧
  Forall (λ o : list R, length o = 3%nat) (env_origins cd).

(** A state in the middle of the warm-up: two instances, one stored frame
    each, counter 1. *)
Definition warm_env : CarterEnv :=
  {| num_envs := 2; action_scale := motor_scale; actions := [];
     _left_dof_idx := [1%nat]; _right_dof_idx := [2%nat];
     joint_pos := [replicate 7 0; replicate 7 0];
     joint_vel := [replicate 7 0; replicate 7 0];
     lidar_history_data := T3 [[replicate 720 1]; [replicate 720 1]];
     pooling_tns := 1 |}.

(** Articulation defaults for two instances. *)
Definition zero_defaults : carter_defaults :=
  {| _ALL_INDICES := [0%nat; 1%nat];
     default_joint_pos := [replicate 7 0; replicate 7 0];
     default_joint_vel := [replicate 7 0; replicate 7 0];
     default_root_state := [replicate 13 0; replicate 13 0];
     env_origins := [[0; 0; 0]; [5; 0; 0]] |}.

(** ** Observation assembly *)

(** A point cloud of 720 points with three coordinates. *)
Definition cloud_ok (d : list (list R)) : Prop :=
  length d = 720%nat ∧ Forall (λ p : list R, length p = 3%nat) d.

(** A control tick that [_get_observations] can process: two instances
    (the module-level [goal] has two rows), one pose per instance, and a
    LIDAR reading that is either empty or has, for each of the two sensors,
    a point in the band, with the stored history in step with its counter. *)
Definition tick_ok (self : CarterEnv) (lidar : lidar_data_t)
    (root_quat_w root_pos_w : list (list R)) : Prop :=
  num_envs self = 2%nat ∧
  length root_quat_w = 2%nat ∧ length root_pos_w = 2%nat ∧
  Forall (λ q : list R, length q = 4%nat) root_quat_w ∧
  Forall (λ p : list R, length p = 3%nat) root_pos_w ∧
  ((∃ key fr rest, lidar = (key, fr) :: rest ∧ data fr = []) ∨
   (length lidar = 2%nat ∧ Forall (λ kv, frame_ok kv.2) lidar ∧
    wf_history 2 (lidar_history_data self) (pooling_tns self))).

(** ** Sample inputs *)

(** A frame of 720 ranges, all 45 (beyond the saturation bound 30). *)
Definition far_frame : list R := replicate 720 45.

(** The state right after a tick without data. *)
Definition fresh_env : CarterEnv := set_pooling (__init__ 2 [1%nat] [2%nat] [] []) (T1 []) 0.

(** A reading of two sensors with one point each, inside the band. *)
Definition small_reading : lidar_data_t :=
  [("lidar_0"%string, LidarFrame [[1; 0; 0]] [1]);
   ("lidar_1"%string, LidarFrame [[2; 0; 0.01]] [2])].

(** * The tutorial script [create_scene_carter.py]

    The script carries its own copies of the preprocessing, the frame
    transform and the drive solver, for a single robot. *)

Module create_scene_carter.

(** [lidar_process]: the preprocessing of the first sensor alone, cut to
    950 points; there is no test for an empty reading. *)
Definition lidar_process (scene_lidar : lidar_data_t) : option (list (list R) * list R) :=
  first ← head scene_lidar;
  let lidar_data := data first.2 in
  let lidar_ranges := distance first.2 in
  z_data ← mapM (λ p : list R, p !! 2%nat) lidar_data;
  let mask := (λ z, bool_decide (z_min <= z) && bool_decide (z <= z_max)) <$> z_data in
  filtered_lidar_data ← slice 0 950 <$> masked lidar_data mask;
  filtered_lidar_ranges ← slice 0 950 <$> masked lidar_ranges mask;
  let indices := linspace_long (Z.of_nat (length filtered_lidar_data) - 1) num_samples in
  filtered_lidar_data ← mapM (index_long filtered_lidar_data) indices;
  filtered_lidar_ranges ← mapM (index_long filtered_lidar_ranges) indices;
  Some (filtered_lidar_data, filtered_lidar_ranges).

(** [quat_to_rot_matrix] for one quaternion (of norm other than zero,
    as for the batched function). *)
Definition quat_to_rot_matrix (quat : list R) : option (list (list R)) :=
  let q := (λ x, x / norm quat) <$> quat in
  match q with
  | [w; x; y; z] =>
      Some [ [1 - 2*y*y - 2*z*z; 2*x*y - 2*w*z; 2*x*z + 2*w*y];
             [2*x*y + 2*w*z; 1 - 2*x*x - 2*z*z; 2*y*z - 2*w*x];
             [2*x*z - 2*w*y; 2*y*z + 2*w*x; 1 - 2*x*x - 2*y*y] ]
  | _ => None
  end.

(** [transform_to_robot] for one point cloud. *)
Definition transform_to_robot (data rot_matrix : list (list R)) (translation : list R)
  : option (list (list R)) :=
  data_rotated ← mm_t data rot_matrix;
  mapM (λ p, bcast1 Rplus p translation) data_rotated.

(** [differential_drive_solver] for one command: the pair [(pl, pr)]. *)
Definition differential_drive_solver (vx wf : R) : R * R :=
  let vx_base := motor_scale in
  let pl_pr_base := joint_base in
  let gain := system_gain in
  let v_left := vx - (wf * base_width / 2.0) in
  let v_right := vx + (wf * base_width / 2.0) in
  let pl := gain * (v_left / vx_base) * pl_pr_base in
  let pr := gain * (v_right / vx_base) * pl_pr_base in
  (pl, pr).

(** The effort tensor that [run_simulator] builds from the pair. *)
Definition efforts (vx wf : R) : list (list R) :=
  let '(pl, pr) := differential_drive_solver vx wf in
  [[0; pl; pr; 0; 0; 0; 0]].

End create_scene_carter.

(** ** Further sample inputs *)

(** A frame with a single point, inside the band. *)
Definition small_frame : lidar_frame := LidarFrame [[1; 0; 0]] [1].

(** A frame of 720 copies of one in-band point. *)
Definition ring_frame : lidar_frame := LidarFrame (replicate 720 [1; 0; 0]) (replicate 720 1).

(** ** Actions *)

(** Every entry of a 2-D tensor multiplied by [s]. *)
Definition scaled (s : R) (m : list (list R)) : list (list R) :=
  (λ row : list R, (λ a, s * a) <$> row) <$> m.

(** ** Geometry *)

(** The distance of two points. *)
Definition dist (p q : list R) : R := norm (zip_with Rminus p q).

(** The matrix that [quat_to_rot_matrix] builds from the normalised
    components. *)
Definition rot_of (w x y z : R) : list (list R) :=
  [ [1 - 2*y*y - 2*z*z; 2*x*y - 2*w*z; 2*x*z + 2*w*y];
    [2*x*y + 2*w*z; 1 - 2*x*x - 2*z*z; 2*y*z - 2*w*x];
    [2*x*z - 2*w*y; 2*y*z + 2*w*x; 1 - 2*x*x - 2*y*y] ].

(** A cloud of 720 copies of one point, and one with a second point in
    its first place. *)
Definition flat_cloud : list (list R) := replicate 720 [1; 0; 0].
Definition two_point_cloud : list (list R) := [3; 4; 0] :: replicate 719 [1; 0; 0].

(** ** More sample inputs *)

(** A frame of 720 ranges, all 15 (inside the interval [0, 30]). *)
Definition near_frame : list R := replicate 720 15.

(** * Rewards and terminations of [CarterEnv]

    [compute_rewards], [_get_rewards] and [_get_dones] of [carter_env.py]. *)

(** The reward scales and the position bound of [CarterEnvCfg]. *)
Module cfg.
Definition rew_scale_alive : R := 1.0.
Definition rew_scale_terminated : R := -2.0.
Definition rew_scale_pole_pos : R := -1.0.
Definition rew_scale_cart_vel : R := -0.01.
Definition rew_scale_pole_vel : R := -0.005.
Definition max_cart_pos : R := 40.0.
End cfg.

(** [t.float()] of a boolean tensor. *)
Definition float (t : list bool) : list R := (λ b : bool, if b then 1 else 0) <$> t.

(** [compute_rewards]: the sums run over the singleton dimension that
    [unsqueeze] adds; [cart_pos] is not used. *)
Definition compute_rewards
    (rew_scale_alive rew_scale_terminated rew_scale_pole_pos rew_scale_cart_vel
       rew_scale_pole_vel : R)
    (pole_pos pole_vel cart_pos cart_vel : list R) (reset_terminated : list bool)
  : option (list R) :=
  let rew_alive := (λ t, rew_scale_alive * (1.0 - t)) <$> float reset_terminated in
  let rew_termination := (λ t, rew_scale_terminated * t) <$> float reset_terminated in
  let rew_pole_pos := (λ x, rew_scale_pole_pos * Rsum [x * x]) <$> pole_pos in
  let rew_cart_vel := (λ x, rew_scale_cart_vel * Rsum [Rabs x]) <$> cart_vel in
  let rew_pole_vel := (λ x, rew_scale_pole_vel * Rsum [Rabs x]) <$> pole_vel in
  total ← bcast1 Rplus rew_alive rew_termination;
  total ← bcast1 Rplus total rew_pole_pos;
  total ← bcast1 Rplus total rew_cart_vel;
  bcast1 Rplus total rew_pole_vel.

(** [t[:, j]] for a Python [int] column. *)
Definition column (t : list (list R)) (j : nat) : option (list R) :=
  mapM (λ row : list R, row !! j) t.

(** [_get_rewards]; [reset_terminated] is an attribute that the base
    class maintains. *)
Definition _get_rewards (self : CarterEnv) (reset_terminated : list bool) : option (list R) :=
  left ← head (_left_dof_idx self);
  pole_pos ← column (joint_pos self) left;
  pole_vel ← column (joint_vel self) left;
  right ← head (_right_dof_idx self);
  cart_pos ← column (joint_pos self) right;
  cart_vel ← column (joint_vel self) right;
  compute_rewards cfg.rew_scale_alive cfg.rew_scale_terminated cfg.rew_scale_pole_pos
    cfg.rew_scale_cart_vel cfg.rew_scale_pole_vel
    pole_pos pole_vel cart_pos cart_vel reset_terminated.

(** [_get_dones]: the joint state is read again from the articulation
    ([carter_joint_pos], [carter_joint_vel]); [episode_length_buf] and
    [max_episode_length] belong to the base class.  The result is the pair
    [(out_of_bounds, time_out)]. *)
Definition _get_dones (self : CarterEnv) (carter_joint_pos carter_joint_vel : list (list R))
    (episode_length_buf : list Z) (max_episode_length : Z)
  : option (list bool * list bool * CarterEnv) :=
  let self := set_joints self carter_joint_pos carter_joint_vel in
  let time_out := (λ e, bool_decide (max_episode_length - 1 ≤ e)%Z) <$> episode_length_buf in
  cols ← mapM (λ row : list R, mapM (λ j, row !! j) (_left_dof_idx self)) (joint_pos self);
  let out_of_bounds :=
    (λ row : list R, existsb (λ x, bool_decide (Rabs x > cfg.max_cart_pos)) row) <$> cols in
  Some (out_of_bounds, time_out, self).

(** ** Reward samples *)

(** An environment of two instances with seven joints each, the left
    wheel of the first one at position 50. *)
Definition runaway_env : CarterEnv :=
  {| num_envs := 2; action_scale := motor_scale; actions := [];
     _left_dof_idx := [1%nat]; _right_dof_idx := [2%nat];
     joint_pos := [[0; 50; 0; 0; 0; 0; 0]; replicate 7 0];
     joint_vel := [replicate 7 0; replicate 7 0];
     lidar_history_data := T1 []; pooling_tns := 0 |}.

(** ** Reset: indices in range *)

(** The index [i] is a row of every tensor that [_reset_idx] reads or
    writes. *)
Definition id_in_range (self : CarterEnv) (cd : carter_defaults) (i : nat) : Prop :=
  (i < length (joint_pos self))%nat ∧ (i < length (joint_vel self))%nat ∧
  (i < length (default_joint_pos cd))%nat ∧ (i < length (default_joint_vel cd))%nat ∧
  (i < length (default_root_state cd))%nat ∧ (i < length (env_origins cd))%nat.

(** * The IMU sensor [sensors/imu/imu.py] *)

(** [ImuData]: the buffers that the sensor fills, one row per sensor. *)
Record ImuData : Type := MkImuData {
  pos_w : list (list R);
  quat_w : list (list R);
  lin_acc_b : list (list R);
  ang_vel_b : list (list R)
}.

(** The attributes of [Imu] that [_initialize_buffers_impl] creates. *)
Record Imu : Type := MkImu {
  _data : ImuData;
  _last_lin_vel_w : list (list R);
  _offset_pos_b : list (list R);
  _offset_quat_b : list (list R)
}.

(** [_initialize_buffers_impl]; [count] is [self._view.count], the
    offsets come from the configuration. *)
Definition _initialize_buffers_impl (count : nat) (offset_pos offset_rot : list R) : Imu :=
  {| _data :=
       {| pos_w := replicate count (replicate 3 0);
          quat_w := (λ row : list R, <[0%nat := 1]> row) <$> replicate count (replicate 4 0);
          lin_acc_b := replicate count (replicate 3 0);
          ang_vel_b := replicate count (replicate 3 0) |};
     _last_lin_vel_w := replicate count (replicate 3 0);
     _offset_pos_b := replicate count offset_pos;
     _offset_quat_b := replicate count offset_rot |}.

(** [t[ids] = 0.0] for a list of row indices; an index out of range
    raises. *)
Fixpoint zero_rows (ids : list nat) (t : list (list R)) : option (list (list R)) :=
  match ids with
  | [] => Some t
  | i :: ids' =>
      row ← t !! i;
      zero_rows ids' (<[i := (λ _, 0) <$> row]> t)
  end.

(** [t[env_ids] = 0.0], where [None] has been resolved to [slice(None)],
    all rows. *)
Definition fill_zero (env_ids : option (list nat)) (t : list (list R))
  : option (list (list R)) :=
  match env_ids with
  | None => Some ((λ row : list R, (λ _, 0) <$> row) <$> t)
  | Some ids => zero_rows ids t
  end.

Section ImuSensor.

(** [SensorBase.reset] resets the time stamps of the base class; it acts
    on the state [Base] of the base class and is taken as given. *)
Context {Base : Type}.
Variable super_reset : option (list nat) → Base → Base.

(** [Imu.reset] *)
Definition reset (self : Imu) (base : Base) (env_ids : option (list nat))
  : option (Imu * Base) :=
  let base := super_reset env_ids base in
  q ← fill_zero env_ids (quat_w (_data self));
  a ← fill_zero env_ids (ang_vel_b (_data self));
  l ← fill_zero env_ids (lin_acc_b (_data self));
  Some ({| _data := {| pos_w := pos_w (_data self); quat_w := q;
                       lin_acc_b := l; ang_vel_b := a |};
           _last_lin_vel_w := _last_lin_vel_w self;
           _offset_pos_b := _offset_pos_b self;
           _offset_quat_b := _offset_quat_b self |}, base).

End ImuSensor.

(** ** Ticks *)

(** A state with nine stored frames for each of two instances. *)
Definition full_env : CarterEnv :=
  {| num_envs := 2; action_scale := motor_scale; actions := [];
     _left_dof_idx := [1%nat]; _right_dof_idx := [2%nat];
     joint_pos := [replicate 7 0; replicate 7 0];
     joint_vel := [replicate 7 0; replicate 7 0];
     lidar_history_data := T3 [replicate 9 far_frame; replicate 9 far_frame];
     pooling_tns := 9 |}.

(** A reading of two sensors whose only point lies above the band. *)
Definition out_of_band_reading : lidar_data_t :=
  [("lidar_0"%string, LidarFrame [[0; 0; 1]] [1]);
   ("lidar_1"%string, LidarFrame [[0; 0; 1]] [1])].

(** * Lemmas and theorems *)

(** ** Stacking 2-D pieces *)

Lemma shape_uniform {A} (y : list (list A)) n m :
  length y = n → Forall (λ r, length r = m) y → length <$> y = replicate n m.
Proof.
  intros <- Hall. induction Hall as [|r y Hr _ IH]; [done|].
  cbn [fmap list_fmap length replicate]. by rw Hr IH.
Qed.

Lemma stack2_Some {A} (l : list (list (list A))) n m :
  l ≠ [] → Forall (λ y, length y = n ∧ Forall (λ r, length r = m) y) l → stack2 l = Some l.
Proof.
  intros Hne Hall. unfold stack2. destruct l as [|x l']; [done|].
  destruct (decide (Forall (λ y : list (list A), length <$> y = length <$> x) (x :: l')))
    as [|Hn]; [done|].
  exfalso. apply Hn. inversion Hall as [|?? [Hx1 Hx2] _]; subst.
  eapply Forall_impl; [exact Hall|]. intros y [Hy1 Hy2].
  by rw (shape_uniform y _ m Hy1 Hy2) (shape_uniform x _ m eq_refl Hx2).
Qed.

Lemma stack2_is_Some {A} (l out : list (list (list A))) :
  stack2 l = Some out → l ≠ [] ∧ out = l.
Proof.
  unfold stack2. destruct l as [|x l']; [done|]. case_decide; [|done]. by intros [= <-].
Qed.

(** ** The pooling grid *)

Lemma grid_set_spec r c v g :
  is_grid g → (r < 20)%nat → (c < 80)%nat →
  ∃ g', grid_set r c v g = Some g' ∧ is_grid g' ∧
        ∀ r' c', get g' r' c' = if decide (r' = r ∧ c' = c) then Some v else get g r' c'.
Proof.
  intros [Hlen Hrows] Hr Hc. unfold grid_set.
  destruct (lookup_lt_is_Some_2 g r) as [row Hrow]; [lia|].
  assert (Hrl : length row = 80%nat).
  { eapply Forall_lookup_1 in Hrows; eauto. }
  destruct (lookup_lt_is_Some_2 row c) as [x Hx]; [lia|].
  rw Hrow /= Hx /=. eexists; split; [reflexivity|]. split.
  - split; [by rw length_insert|].
    apply Forall_insert; [done|]. by rw length_insert.
  - intros r' c'. unfold get. case_decide as Hd.
    + destruct Hd as [-> ->]. rw list_lookup_insert_eq /=; [|lia].
      rw list_lookup_insert_eq; [done|lia].
    + destruct (decide (r' = r)) as [->|Hne].
      * rw list_lookup_insert_eq /=; [|lia]. rw Hrow /=.
        rw list_lookup_insert_ne; [done|]. naive_solver.
      * by rw list_lookup_insert_ne.
Qed.

Lemma div2_double n : (2 * n / 2)%nat = n.
Proof. rw Nat.mul_comm. apply Nat.div_mul. lia. Qed.

Lemma div2_double_succ n : ((2 * n + 1) / 2)%nat = n.
Proof. symmetry. apply (Nat.div_unique _ 2 n 1); lia. Qed.

Lemma div2_inv r n : (r / 2)%nat = n → (r = 2 * n ∨ r = 2 * n + 1)%nat.
Proof.
  intros <-. pose proof (Nat.div_mod_eq r 2). pose proof (Nat.mod_upper_bound r 2). lia.
Qed.

Lemma cell_even row n i : cell row (2 * n) i = default 0 (torch_min (bin row n i)).
Proof.
  unfold cell. rw div2_double. rw Nat.even_mul. done.
Qed.

Lemma cell_odd row n i : cell row (2 * n + 1) i = torch_mean (bin row n i).
Proof.
  unfold cell. rw div2_double_succ. rw Nat.even_add Nat.even_mul. done.
Qed.

Lemma pool_frame_spec row n cols g :
  is_grid g → (n < 10)%nat →
  Forall (λ i, (i < 80)%nat ∧ bin row n i ≠ []) cols →
  ∃ g', for_each (λ g i,
          mn ← torch_min (bin row n i);
          g ← grid_set (2 * n) i mn g;
          grid_set (2 * n + 1) i (torch_mean (bin row n i)) g) g cols = Some g' ∧
        is_grid g' ∧
        ∀ r c, get g' r c =
               if decide ((r / 2)%nat = n ∧ c ∈ cols) then Some (cell row r c) else get g r c.
Proof.
  intros Hg Hn Hcols. revert g Hg.
  induction Hcols as [|i cols [Hi Hne] _ IH]; intros g Hg.
  - exists g. split; [done|]. split; [done|]. intros r c.
    case_decide as Hd; [|done]. destruct Hd as [_ Hd]. by apply elem_of_nil in Hd.
  - cbn [for_each].
    destruct (bin row n i) as [|x b] eqn:Hb; [done|]. cbn [torch_min mbind option_bind].
    destruct (grid_set_spec (2 * n) i (foldl Rmin x b) g) as (g1 & -> & Hg1 & Hget1); [done|lia|done|].
    cbn [mbind option_bind].
    destruct (grid_set_spec (2 * n + 1) i (torch_mean (x :: b)) g1) as (g2 & -> & Hg2 & Hget2);
      [done|lia|done|].
    cbn [mbind option_bind].
    destruct (IH g2 Hg2) as (g' & -> & Hg' & Hget'). exists g'. split; [done|]. split; [done|].
    intros r c. rw Hget'. 
    pose proof (cell_even row n i) as Hcell0. pose proof (cell_odd row n i) as Hcell1.
    rw Hb in Hcell0. rw Hb in Hcell1. cbn [torch_min default from_option] in Hcell0.
    destruct (decide (r `div` 2 = n ∧ c ∈ cols)) as [Ha|Ha];
      destruct (decide (r `div` 2 = n ∧ c ∈ i :: cols)) as [Hb'|Hb']; try done.
    + exfalso. apply Hb'. destruct Ha. split; [done|by right].
    + rw Hget2. case_decide as H2.
      * destruct H2 as [-> ->]. by rw Hcell1.
      * rw Hget1. case_decide as H1.
        -- destruct H1 as [-> ->]. by rw Hcell0.
        -- exfalso. destruct Hb' as [Hrn Hc]. apply elem_of_cons in Hc as [->|Hc].
           ++ apply div2_inv in Hrn as [->| ->]; [by apply H1|by apply H2].
           ++ by apply Ha.
    + rw Hget2. case_decide as H2.
      * exfalso. destruct H2 as [-> ->]. apply Hb'. split; [apply div2_double_succ|left].
      * rw Hget1. case_decide as H1; [|done].
        exfalso. destruct H1 as [-> ->]. apply Hb'. split; [apply div2_double|left].
Qed.

Lemma pool_rows_spec row ns g :
  is_grid g →
  Forall (λ n, (n < 10)%nat ∧ ∀ i, (i < 80)%nat → bin row n i ≠ []) ns →
  ∃ g', for_each (pool_frame row) g ns = Some g' ∧ is_grid g' ∧
        ∀ r c, get g' r c =
               if decide ((r / 2)%nat ∈ ns ∧ (c < 80)%nat) then Some (cell row r c)
               else get g r c.
Proof.
  intros Hg Hns. revert g Hg.
  induction Hns as [|n ns [Hn Hbins] _ IH]; intros g Hg.
  - exists g. split; [done|]. split; [done|]. intros r c.
    case_decide as Hd; [|done]. destruct Hd as [Hd _]. by apply elem_of_nil in Hd.
  - cbn [for_each].
    destruct (pool_frame_spec row n (seq 0 80) g Hg Hn) as (g1 & Hrun & Hg1 & Hget1).
    { apply Forall_forall. intros i Hi%elem_of_seq. split; [lia|]. apply Hbins. lia. }
    change (pool_frame row g n = Some g1) in Hrun. rw Hrun. cbn [mbind option_bind].
    destruct (IH g1 Hg1) as (g' & -> & Hg' & Hget'). exists g'. split; [done|]. split; [done|].
    intros r c. rw Hget'. rw Hget1.
    destruct (decide (r `div` 2 ∈ ns ∧ (c < 80)%nat)) as [Ha|Ha];
      destruct (decide (r `div` 2 ∈ n :: ns ∧ (c < 80)%nat)) as [Hb|Hb]; try done.
    + exfalso. apply Hb. destruct Ha. split; [by right|done].
    + case_decide as Hc; [done|]. exfalso. apply Hc. destruct Hb as [Hb Hlt].
      apply elem_of_cons in Hb as [Hb|Hb]; [|naive_solver].
      split; [done|]. apply elem_of_seq. lia.
    + case_decide as Hc; [|done]. exfalso. apply Hb. destruct Hc as [Hc Hin].
      apply elem_of_seq in Hin. split; [rw Hc; by left|lia].
Qed.

Lemma is_grid_zeros : is_grid (replicate 20 (replicate 80 0)).
Proof.
  split; [by rw length_replicate|].
  apply Forall_replicate. by rw length_replicate.
Qed.

Lemma is_grid_pooled row : is_grid (pooled_grid row).
Proof.
  split; [by rw /pooled_grid length_fmap length_seq|].
  apply Forall_fmap, Forall_forall. intros r _. unfold compose. by rw length_fmap length_seq.
Qed.

Lemma get_pooled row r c :
  (r < 20)%nat → (c < 80)%nat → get (pooled_grid row) r c = Some (cell row r c).
Proof.
  intros Hr Hc. unfold get, pooled_grid.
  rw (list_lookup_fmap _ (seq 0 20)). rw lookup_seq_lt; [|done]. cbn [fmap option_fmap option_map mbind option_bind].
  rw (list_lookup_fmap _ (seq 0 80)). rw lookup_seq_lt; [|done]. done.
Qed.

Lemma grid_ext g g' :
  is_grid g → is_grid g' →
  (∀ r c, (r < 20)%nat → (c < 80)%nat → get g r c = get g' r c) → g = g'.
Proof.
  intros [Hl Hr] [Hl' Hr'] Hget. apply list_eq_same_length with 20%nat; [done..|].
  intros r x y Hlt Hx Hy.
  apply list_eq_same_length with 80%nat.
  - by eapply Forall_lookup_1 in Hr'; eauto.
  - by eapply Forall_lookup_1 in Hr; eauto.
  - intros c u v Hc Hu Hv. specialize (Hget r c Hlt Hc).
    rw /get Hx Hy /= Hu Hv in Hget. congruence.
Qed.

Lemma pool_instance_spec row : full_row row → pool_instance row = Some (pooled_grid row).
Proof.
  intros Hfull. unfold pool_instance.
  destruct (pool_rows_spec row (seq 0 (Z.to_nat NUM_TP)) _ is_grid_zeros) as (g & -> & Hg & Hget).
  { apply Forall_forall. intros n Hn%elem_of_seq. change (Z.to_nat NUM_TP) with 10%nat in Hn.
    split; [lia|]. intros i Hi. apply Hfull; lia. }
  f_equal. apply grid_ext; [done|apply is_grid_pooled|].
  intros r c Hr Hc. rw Hget get_pooled //. case_decide as Hd; [done|].
  exfalso. apply Hd. split; [|done]. apply elem_of_seq. change (Z.to_nat NUM_TP) with 10%nat.
  split; [lia|]. pose proof (Nat.Div0.div_lt_upper_bound r 2 10). lia.
Qed.

Lemma mapM_seq_Some {A} (f : nat → option A) (g : nat → A) s n :
  (∀ i, (s ≤ i < s + n)%nat → f i = Some (g i)) → mapM f (seq s n) = Some (g <$> seq s n).
Proof.
  intros Hf. apply mapM_Some. apply Forall2_fmap_r, Forall_Forall2_diag, Forall_forall.
  intros i Hi%elem_of_seq. by apply Hf.
Qed.

Lemma length_slice {A} a b (l : list A) :
  length (slice a b l) = ((b - a) `min` (length l - a))%nat.
Proof. by rw /slice length_take length_drop. Qed.

Lemma lookup_slice {A} a b (l : list A) k :
  (k < b - a)%nat → slice a b l !! k = l !! (a + k)%nat.
Proof. intros Hk. by rw /slice lookup_take_lt // lookup_drop. Qed.

Lemma take_drop_concat {A} (ls : list (list A)) w n f :
  Forall (λ r, length r = w) ls → ls !! n = Some f →
  take w (drop (n * w) (concat ls)) = f.
Proof.
  intros Hall. revert n. induction Hall as [|x ls Hx _ IH]; intros n Hn; [done|].
  destruct n as [|n]; simpl in *.
  - simplify_eq. by rw take_app_length.
  - rw drop_app_add'; [|done]. by apply IH.
Qed.

Lemma slice_concat (ls : list (list R)) n f :
  Forall (λ r, length r = 720%nat) ls → ls !! n = Some f →
  slice (n * 720) ((n + 1) * 720) (concat ls) = f.
Proof.
  intros Hall Hn. unfold slice.
  replace ((n + 1) * 720 - n * 720)%nat with 720%nat by lia.
  by eapply take_drop_concat.
Qed.

Lemma bin_concat (ls : list (list R)) n f i :
  Forall (λ r, length r = 720%nat) ls → ls !! n = Some f →
  bin (concat ls) n i = frame_bin f i.
Proof. intros Hall Hn. by rw /bin (slice_concat ls n f). Qed.

Lemma length_frame_bin f i :
  length f = 720%nat → (i < 80)%nat → length (frame_bin f i) = 9%nat.
Proof. intros Hf Hi. rw /frame_bin length_slice. lia. Qed.

Lemma full_row_concat (ls : list (list R)) :
  length ls = 10%nat → Forall (λ r, length r = 720%nat) ls → full_row (concat ls).
Proof.
  intros Hlen Hall n i Hn Hi.
  destruct (lookup_lt_is_Some_2 ls n) as [f Hf]; [lia|].
  rw (bin_concat ls n f) //. intros Hnil.
  assert (length (frame_bin f i) = 9%nat) as Hl.
  { apply length_frame_bin; [|done]. by eapply Forall_lookup_1 in Hall; eauto. }
  by rw Hnil in Hl.
Qed.

Lemma stacked_lookup N h scan i :
  (i < N)%nat →
  stacked N h scan !! i = Some (frames_of h i ++ [default [] (scan !! i)]).
Proof. intros Hi. by rw /stacked list_lookup_fmap lookup_seq_lt. Qed.

Lemma length_stacked N h scan : length (stacked N h scan) = N.
Proof. by rw /stacked length_fmap length_seq. Qed.

Lemma frames_of_wf N h c i :
  wf_history N h c → (i < N)%nat →
  length (frames_of h i) = Z.to_nat c ∧ Forall (λ f, length f = 720%nat) (frames_of h i).
Proof.
  intros [Hc Hwf] Hi. destruct h as [x|v|m|rows]; simpl in *; try done.
  - destruct Hwf as [_ ->]. done.
  - destruct Hwf as (_ & _ & ->). done.
  - destruct Hwf as [Hlen Hrows].
    destruct (lookup_lt_is_Some_2 rows i) as [fr Hfr]; [lia|]. rw Hfr /=.
    by eapply Forall_lookup_1 in Hrows; eauto.
Qed.

Lemma stacked_wf N h c scan :
  wf_history N h c → scan_ok N scan →
  Forall (λ fr, length fr = S (Z.to_nat c) ∧ Forall (λ f, length f = 720%nat) fr)
         (stacked N h scan).
Proof.
  intros Hwf [Hlen Hscan]. apply Forall_fmap, Forall_forall. intros i Hi%elem_of_seq.
  destruct (frames_of_wf N h c i Hwf) as [Hl Hall]; [lia|]. unfold compose.
  destruct (lookup_lt_is_Some_2 scan i) as [row Hrow]; [lia|]. rw Hrow /=. split.
  - rw length_app Hl /=. lia.
  - apply Forall_app. split; [done|]. apply Forall_singleton.
    by eapply Forall_lookup_1 in Hscan; eauto.
Qed.

Lemma lidar_pooling_step N h c scan :
  (1 ≤ N)%nat → wf_history N h c → scan_ok N scan →
  lidar_pooling h (T2 scan) c =
    if decide (c = 9%Z)
    then Some (T2 ((λ fr, normalize_map (pooled_grid (concat fr))) <$> stacked N h scan),
               true, T3 (slice 1 10 <$> stacked N h scan), 9%Z)
    else Some (T3 (stacked N h scan), false, T3 (stacked N h scan), (c + 1)%Z).
Proof.
  intros HN Hwf Hscan. pose proof (stacked_wf N h c scan Hwf Hscan) as Hst.
  destruct Hscan as [Hlen Hrows]. unfold lidar_pooling.
  destruct (decide (dim (T2 scan) ≤ 1)%nat) as [Hd|_]; [simpl in Hd; lia|]. cbn [size0]. rw Hlen. cbn [mbind option_bind].
  erewrite (mapM_seq_Some _ (λ i, frames_of h i ++ [default [] (scan !! i)])); last first.
  { intros i Hi. destruct (lookup_lt_is_Some_2 scan i) as [row Hrow]; [lia|].
    assert (length row = 720%nat) as Hrl by (by eapply Forall_lookup_1 in Hrows; eauto).
    assert (reshape_1_720 (T1 row) = Some [row]) as Hre.
    { unfold reshape_1_720. cbn [flat]. by destruct (decide (length row = 720%nat)). }
    destruct Hwf as [Hc Hwf]. destruct h as [x|v|m|rows]; cbn [size0 mbind option_bind index0].
    - done.
    - destruct Hwf as [-> _]. cbn [length].
      destruct (decide (0 = 0)%nat); [|done]. rw Hrow /=. by rw Hre.
    - destruct Hwf as (Hm & Hall & _).
      destruct (decide (length m = 0%nat)); [lia|].
      destruct (lookup_lt_is_Some_2 m i) as [r Hr]; [lia|].
      assert (r = []) as -> by (by eapply Forall_lookup_1 in Hall; eauto).
      rw Hr Hrow /=. by rw Hre.
    - destruct Hwf as (Hm & Hall).
      destruct (decide (length rows = 0%nat)); [lia|].
      destruct (lookup_lt_is_Some_2 rows i) as [fr Hfr]; [lia|].
      rw Hfr Hrow /=. rw Hre /=.
      destruct (decide (Forall (λ r, length r = 720%nat) fr)) as [|Hn]; [by rw Hfr|].
      exfalso. apply Hn. by eapply Forall_lookup_1 in Hall as [_ ?]; eauto. }
  fold (stacked N h scan). cbn [mbind option_bind].
  assert (stack2 (stacked N h scan) = Some (stacked N h scan)) as ->.
  { apply (stack2_Some _ (S (Z.to_nat c)) 720); [|exact Hst].
    intros Hs. pose proof (length_stacked N h scan) as Hl. rw Hs /= in Hl. lia. }
  cbn [mbind option_bind].
  destruct (decide (c = 9%Z)) as [->|Hc].
  - destruct (decide ((9 + 1)%Z = NUM_TP)); [|done].
    erewrite (mapM_seq_Some _ (λ j, pooled_grid (concat (frames_of h j ++ [default [] (scan !! j)])))).
    + cbn [mbind option_bind]. do 3 f_equal. by rw /stacked -!list_fmap_compose.
    + intros j Hj. rw list_lookup_fmap. rw stacked_lookup; [|lia]. cbn [fmap option_fmap option_map mbind option_bind].
      apply pool_instance_spec.
      eapply (Forall_lookup_1 _ _ j) in Hst as [Hl Hall]; [|apply stacked_lookup; lia].
      by apply full_row_concat.
  - destruct (decide ((c + 1)%Z = NUM_TP)) as [He|]; [|done]. unfold NUM_TP in He. lia.
Qed.

Lemma length_concat_uniform {A} (ls : list (list A)) w :
  Forall (λ x, length x = w) ls → length (concat ls) = (length ls * w)%nat.
Proof.
  induction 1 as [|x ls Hx _ IH]; [done|]. rw /= length_app Hx IH. lia.
Qed.

Lemma lookup_concat_uniform {A} (ls : list (list A)) w r c :
  Forall (λ x, length x = w) ls → (c < w)%nat →
  concat ls !! (r * w + c)%nat = ls !! r ≫= (.!! c).
Proof.
  intros Hall Hc. revert r. induction Hall as [|x ls Hx _ IH]; intros r.
  - by rw /= !lookup_nil.
  - destruct r as [|r]; simpl.
    + rw lookup_app_l //. lia.
    + rw lookup_app_r; [|lia]. rw -IH. f_equal. lia.
Qed.

Lemma affine_normalize x : 2 * (x - s_min) / (s_max - s_min) + (-1) = affine x.
Proof. unfold s_min, s_max, affine. lra. Qed.

Lemma length_concat_grid g : is_grid g → length (concat g) = 1600%nat.
Proof. intros [Hl Hr]. by rw (length_concat_uniform _ 80) // Hl. Qed.

Lemma length_normalize_map g : is_grid g → length (normalize_map g) = (4 * 1600)%nat.
Proof.
  intros Hg. rw /normalize_map length_fmap.
  rw (length_concat_uniform _ 1600); [by rw length_replicate|].
  apply Forall_replicate. by apply length_concat_grid.
Qed.

Lemma lookup_normalize_map g rep r c :
  is_grid g → (rep < 4)%nat → (r < 20)%nat → (c < 80)%nat →
  normalize_map g !! (rep * 1600 + r * 80 + c)%nat = affine <$> get g r c.
Proof.
  intros Hg Hrep Hlt Hc. rw /normalize_map list_lookup_fmap.
  rw -Nat.add_assoc. rw (lookup_concat_uniform _ 1600); [..|lia].
  2:{ apply Forall_replicate. by apply length_concat_grid. }
  rw lookup_replicate_2 //=. rw (lookup_concat_uniform _ 80) //. apply Hg.
Qed.

Lemma foldl_Rmin_spec l x : is_min (foldl Rmin x l) (x :: l).
Proof.
  revert x. induction l as [|a l IH]; intros x; simpl.
  - split; [by left|]. intros y ->%list_elem_of_singleton. lra.
  - destruct (IH (Rmin x a)) as [Hin Hle]. split.
    + apply elem_of_cons in Hin as [Hin|Hin].
      * rw Hin. unfold Rmin. destruct (Rle_dec x a); [by left|right; by left].
      * right. by right.
    + intros y Hy. apply elem_of_cons in Hy as [->|Hy].
      * etrans; [apply Hle; by left|]. apply Rmin_l.
      * apply elem_of_cons in Hy as [->|Hy].
        -- etrans; [apply Hle; by left|]. apply Rmin_r.
        -- apply Hle. by right.
Qed.

Lemma torch_min_spec l m : torch_min l = Some m → is_min m l.
Proof.
  destruct l as [|x l]; [done|]. intros [= <-]. apply foldl_Rmin_spec.
Qed.

Lemma torch_min_is_Some l : l ≠ [] → is_Some (torch_min l).
Proof. destruct l; [done|]. by eexists. Qed.

Lemma lookup_frame_bin f i k :
  (k < 9)%nat → frame_bin f i !! k = f !! (i * 9 + k)%nat.
Proof. intros Hk. rw /frame_bin lookup_slice //. lia. Qed.

Lemma pooled_feature_lookup fr n f i rep :
  length fr = 10%nat → Forall (λ f, length f = 720%nat) fr →
  fr !! n = Some f → (i < 80)%nat → (rep < 4)%nat →
  ∃ mn, is_min mn (frame_bin f i) ∧
    normalize_map (pooled_grid (concat fr)) !! (rep * 1600 + (2 * n) * 80 + i)%nat
      = Some (affine mn) ∧
    normalize_map (pooled_grid (concat fr)) !! (rep * 1600 + (2 * n + 1) * 80 + i)%nat
      = Some (affine (Rsum (frame_bin f i) / 9)).
Proof.
  intros Hlen Hall Hn Hi Hrep.
  assert (n < 10)%nat as Hlt by (apply lookup_lt_Some in Hn; lia).
  assert (length f = 720%nat) as Hf by (by eapply Forall_lookup_1 in Hall; eauto).
  pose proof (length_frame_bin f i Hf Hi) as Hb.
  destruct (torch_min_is_Some (frame_bin f i)) as [mn Hmn].
  { intros Hnil. by rw Hnil in Hb. }
  exists mn. split; [by apply torch_min_spec|].
  rw !lookup_normalize_map; try (done || lia || apply is_grid_pooled).
  rw !get_pooled; try (done || lia). cbn [fmap option_fmap option_map].
  rw cell_even cell_odd (bin_concat fr n f) // Hmn /=.
  split; [done|]. do 2 f_equal. rw /torch_mean Hb. f_equal. simpl. lra.
Qed.

(** C1.  With nine stored frames and the incoming one (ten frames of 720
    ranges per instance), [lidar_pooling] returns for each instance a
    feature vector of width 6400 = 4 x 1600.  For frame [n] and bin [i] (the
    nine consecutive samples [f[9i .. 9i+8]]), the entry of row [2n], column
    [i] of the 20 x 80 grid is the affine image of the minimum of the bin and
    the entry of row [2n+1] is the affine image of its mean; the flattened
    grid is repeated four times.  The affine map [2*(x-0)/(30-0) - 1] is not
    clamped: a value above 30 maps above 1, a value below 0 maps below -1. *)
Theorem C1_pooling_reduction (N : nat) (h : list (list (list R))) (scan : list (list R)) :
  (1 ≤ N)%nat →
  length h = N →
  Forall (λ fr, length fr = 9%nat ∧ Forall (λ f, length f = 720%nat) fr) h →
  length scan = N →
  Forall (λ r, length r = 720%nat) scan →
  ∃ feats h',
    lidar_pooling (T3 h) (T2 scan) 9 = Some (T2 feats, true, T3 h', 9%Z) ∧
    length feats = N ∧
    (∀ j hj sj, h !! j = Some hj → scan !! j = Some sj →
       ∃ out, feats !! j = Some out ∧ length out = (4 * 1600)%nat ∧
         ∀ n f i rep, (hj ++ [sj]) !! n = Some f → (i < 80)%nat → (rep < 4)%nat →
           (∀ k, (k < 9)%nat → frame_bin f i !! k = f !! (i * 9 + k)%nat) ∧
           ∃ mn, is_min mn (frame_bin f i) ∧
             out !! (rep * 1600 + (2 * n) * 80 + i)%nat = Some (affine mn) ∧
             out !! (rep * 1600 + (2 * n + 1) * 80 + i)%nat
               = Some (affine (Rsum (frame_bin f i) / 9))) ∧
    (∀ x, 30 < x → 1 < affine x) ∧ (∀ x, x < 0 → affine x < -1).
Proof.
  intros HN Hh Hfr Hs Hrows.
  assert (wf_history N (T3 h) 9) as Hwf.
  { split; [lia|]. split; [lia|]. done. }
  assert (scan_ok N scan) as Hok by done.
  pose proof (lidar_pooling_step N (T3 h) 9 scan HN Hwf Hok) as Hstep.
  destruct (decide (9%Z = 9%Z)); [|done].
  eexists _, _. split; [exact Hstep|]. split; [by rw length_fmap length_stacked|].
  split; [|split; intros x Hx; unfold affine; lra].
  intros j hj sj Hj Hsj.
  assert (j < N)%nat as HjN by (apply lookup_lt_Some in Hj; lia).
  pose proof (stacked_lookup N (T3 h) scan j HjN) as Hst.
  rw /= Hj Hsj /= in Hst.
  pose proof (stacked_wf N (T3 h) 9 scan Hwf Hok) as Hall.
  eapply (Forall_lookup_1 _ _ j) in Hall as [Hl10 H720]; [|exact Hst].
  eexists. split; [by rw list_lookup_fmap Hst|].
  split; [apply length_normalize_map, is_grid_pooled|].
  intros n f i rep Hn Hi Hrep. split; [intros k Hk; by apply lookup_frame_bin|].
  by apply pooled_feature_lookup.
Qed.

Lemma pool_inv_step N fed self scan :
  (1 ≤ N)%nat → pool_inv N fed self → scan_ok N scan →
  ∃ out self',
    pooling_step self (T2 scan) = Some (out, bool_decide (10 ≤ length fed + 1)%nat, self') ∧
    pool_inv N (fed ++ [scan]) self'.
Proof.
  intros HN (Hwf & Htns & Hfr) Hok. unfold pooling_step.
  rw (lidar_pooling_step N _ _ scan HN Hwf Hok).
  pose proof (stacked_wf N _ _ scan Hwf Hok) as Hst.
  assert (∀ i, (i < N)%nat → col i (fed ++ [scan]) = col i fed ++ [default [] (scan !! i)]) as Hcol.
  { intros i _. by rw /col fmap_app. }
  assert (∀ i, length (col i fed) = length fed) as Hcl.
  { intros i. by rw /col length_fmap. }
  destruct (decide (pooling_tns self = 9%Z)) as [H9|H9]; cbn [mbind option_bind].
  - eexists _, _. split.
    { rw bool_decide_true; [done|lia]. }
    split; [|split]; cbn [lidar_history_data pooling_tns set_pooling].
    + split; [lia|]. split; [by rw length_fmap length_stacked|].
      apply Forall_fmap. eapply Forall_impl; [exact Hst|]. intros fr [Hl Hall]. unfold compose.
      split.
      * rw length_slice Hl H9. lia.
      * unfold slice. by apply Forall_take, Forall_drop.
    + rw length_app /=. lia.
    + intros i Hi. cbn [frames_of]. rw list_lookup_fmap stacked_lookup //=.
      rw Hfr // Hcol // /lastn /slice length_app /= !Hcl.
      rw drop_app_le; [|rw length_drop Hcl; lia].
      rw take_ge; [|rw length_app length_drop length_drop Hcl /=; lia].
      rw drop_app_le; [|rw Hcl; lia]. f_equal. rw drop_drop. f_equal. lia.
  - eexists _, _. split.
    { rw bool_decide_false; [done|lia]. }
    split; [|split]; cbn [lidar_history_data pooling_tns set_pooling].
    + split; [lia|]. split; [by rw length_stacked|].
      eapply Forall_impl; [exact Hst|]. intros fr [Hl Hall]. split; [|done]. rw Hl. lia.
    + rw length_app /=. lia.
    + intros i Hi. cbn [frames_of]. rw stacked_lookup //=.
      rw Hfr // Hcol // /lastn length_app /= !Hcl.
      replace (length fed - 9)%nat with 0%nat by lia.
      replace (length fed + 1 - 9)%nat with 0%nat by lia. done.
Qed.

Lemma pool_run_inv N fed self scans :
  (1 ≤ N)%nat → pool_inv N fed self → Forall (scan_ok N) scans →
  ∃ self',
    pool_run self (T2 <$> scans)
      = Some ((λ t, bool_decide (10 ≤ length fed + t + 1)%nat) <$> seq 0 (length scans), self') ∧
    pool_inv N (fed ++ scans) self'.
Proof.
  intros HN Hinv Hscans. revert fed self Hinv.
  induction Hscans as [|scan scans Hok _ IH]; intros fed self Hinv.
  - exists self. split; [done|]. by rw app_nil_r.
  - destruct (pool_inv_step N fed self scan HN Hinv Hok) as (out & self1 & Hstep & Hinv1).
    destruct (IH _ _ Hinv1) as (self2 & Hrun & Hinv2).
    exists self2. split; [|by rw -app_assoc in Hinv2].
    cbn [fmap list_fmap pool_run]. rw Hstep. cbn [mbind option_bind]. rw Hrun. cbn [mbind option_bind].
    do 2 f_equal. cbn [length seq fmap list_fmap]. f_equal.
    + apply bool_decide_ext. lia.
    + rw -fmap_S_seq -list_fmap_compose. apply list_fmap_ext. intros ? t _. unfold compose.
      rw length_app /=. apply bool_decide_ext. lia.
Qed.

Lemma pool_inv_empty N self :
  empty_history N (lidar_history_data self) → pooling_tns self = 0%Z → pool_inv N [] self.
Proof.
  intros Hempty Htns. split; [|split; [by rw Htns|]].
  - rw Htns. split; [lia|]. destruct Hempty as [->|(m & -> & Hm & Hall)]; done.
  - intros i _. destruct Hempty as [->|(m & -> & Hm & Hall)]; done.
Qed.

Lemma wf_history_length N h c i : wf_history N h c → (length (frames_of h i) ≤ 9)%nat.
Proof.
  intros [Hc Hwf]. destruct h as [x|v|m|rows]; simpl; try lia.
  destruct Hwf as [_ Hall]. destruct (rows !! i) as [fr|] eqn:Hfr; simpl; [|lia].
  eapply Forall_lookup_1 in Hall as [-> _]; [|done]. lia.
Qed.

(** C2.  Started without stored frames and with counter 0, and fed one
    scan of [N] vectors of 720 ranges per tick, the pooling step returns
    the flag [true] on tick [t] (counted from 1) exactly when [10 <= t];
    afterwards the counter is [min t 9], the history of instance [i] holds
    its last nine vectors (all of them while [t <= 9]), and no stored
    history is longer than 10. *)
Theorem C2_sliding_window (N : nat) (self : CarterEnv) (scans : list (list (list R))) :
  (1 ≤ N)%nat →
  empty_history N (lidar_history_data self) → pooling_tns self = 0%Z →
  Forall (scan_ok N) scans →
  ∃ self',
    pool_run self (T2 <$> scans)
      = Some ((λ t, bool_decide (10 ≤ t + 1)%nat) <$> seq 0 (length scans), self') ∧
    pooling_tns self' = (Z.of_nat (length scans) `min` 9)%Z ∧
    (∀ i, (i < N)%nat → frames_of (lidar_history_data self') i = lastn 9 (col i scans)) ∧
    (∀ i, (0 ≤ length (frames_of (lidar_history_data self') i) ≤ 10)%nat).
Proof.
  intros HN Hempty Htns Hscans.
  destruct (pool_run_inv N [] self scans HN (pool_inv_empty N self Hempty Htns) Hscans)
    as (self' & Hrun & Hwf & Hc & Hfr).
  exists self'. split; [exact Hrun|]. split; [exact Hc|]. split; [exact Hfr|].
  intros i. pose proof (wf_history_length _ _ _ i Hwf). lia.
Qed.

Example init_two_instances_raises left right jp jv :
  pooling_step (__init__ 2 left right jp jv) (T2 [replicate 720 1; replicate 720 1]) = None.
Proof. reflexivity. Qed.

(** C8.  A range input of rank 0 or 1 makes [lidar_pooling] return the
    empty tensor, the flag [false], the empty history and counter 0,
    whatever the history and the counter were: it does not raise and fills
    in nothing for any instance. *)
Theorem C8_degenerate_scan_skipped (h scan : tensor) (c : Z) (self : CarterEnv) :
  (dim scan ≤ 1)%nat →
  lidar_pooling h scan c = Some (T1 [], false, T1 [], 0%Z) ∧
  pooling_step self scan = Some (T1 [], false, set_pooling self (T1 []) 0) ∧
  flat (T1 []) = [] ∧ size0 (T1 []) = Some 0%nat.
Proof.
  intros Hd.
  assert (∀ h c, lidar_pooling h scan c = Some (T1 [], false, T1 [], 0%Z)) as Hp.
  { intros h' c'. unfold lidar_pooling. by destruct (decide (dim scan ≤ 1)%nat). }
  split; [apply Hp|]. split; [|done]. unfold pooling_step. by rw Hp.
Qed.

(** C10.  After a tick with a range input of rank 0 or 1 the caller holds
    the empty history and counter 0, so no frame of any instance is left,
    and in any run of valid ticks that follows the flag is [true] on tick
    [t] exactly when [10 <= t]: ten fresh ticks are needed. *)
Theorem C10_degenerate_restarts_warmup (self : CarterEnv) (scan : tensor) :
  (dim scan ≤ 1)%nat →
  ∃ self1,
    pooling_step self scan = Some (T1 [], false, self1) ∧
    lidar_history_data self1 = T1 [] ∧ pooling_tns self1 = 0%Z ∧
    (∀ i, frames_of (lidar_history_data self1) i = []) ∧
    ∀ N scans, (1 ≤ N)%nat → Forall (scan_ok N) scans →
      ∃ self2,
        pool_run self1 (T2 <$> scans)
          = Some ((λ t, bool_decide (10 ≤ t + 1)%nat) <$> seq 0 (length scans), self2).
Proof.
  intros Hd. exists (set_pooling self (T1 []) 0).
  split. { unfold pooling_step, lidar_pooling. by destruct (decide (dim scan ≤ 1)%nat). }
  split; [done|]. split; [done|]. split; [done|].
  intros N scans HN Hscans.
  destruct (pool_run_inv N [] (set_pooling self (T1 []) 0) scans HN) as (self2 & Hrun & _);
    [|done|by exists self2].
  apply pool_inv_empty; [by left|done].
Qed.

(** ** Angles *)

Lemma atan_nonpos t : t <= 0 → atan t <= 0.
Proof.
  intros [Hlt| ->]; [|rw atan_0; lra].
  pose proof (atan_increasing t 0 Hlt) as H. rw atan_0 in H. lra.
Qed.

Lemma atan_pos t : 0 < t → 0 < atan t.
Proof. intros Hlt. pose proof (atan_increasing 0 t Hlt) as H. rw atan_0 in H. lra. Qed.

Lemma atan2_bound y x : - PI < atan2 y x <= PI.
Proof.
  pose proof PI_RGT_0 as Hpi. pose proof (atan_bound (y / x)) as Hb. unfold atan2.
  repeat case_decide; try lra.
  - assert (y / x <= 0) as Hq.
    { unfold Rdiv. assert (/ x < 0) by (by apply Rinv_lt_0_compat). nra. }
    pose proof (atan_nonpos _ Hq). lra.
  - assert (0 < y / x) as Hq.
    { unfold Rdiv. assert (/ x < 0) by (by apply Rinv_lt_0_compat). nra. }
    pose proof (atan_pos _ Hq). lra.
Qed.

Lemma wrap_angle_inside a : - PI < a < PI → wrap_angle a = a.
Proof.
  intros Ha. pose proof PI_RGT_0 as Hpi. unfold wrap_angle, py_mod.
  assert (Zfloor ((a + PI) / (2 * PI)) = 0%Z) as ->; [|lra].
  apply Zfloor_eq. split.
  - apply Rmult_le_reg_r with (2 * PI); [lra|]. unfold Rdiv.
    rw Rmult_assoc Rinv_l; lra.
  - apply Rmult_lt_reg_r with (2 * PI); [lra|]. unfold Rdiv.
    rw Rmult_assoc Rinv_l; lra.
Qed.

Lemma wrap_angle_PI : wrap_angle PI = - PI.
Proof.
  pose proof PI_RGT_0 as Hpi. unfold wrap_angle, py_mod.
  replace ((PI + PI) / (2 * PI)) with 1 by (field; lra).
  rw (ZfloorZ 1). lra.
Qed.

Lemma wrap_atan2 y x :
  let a := atan2 y x in
  - PI <= wrap_angle a < PI ∧ (a < PI → wrap_angle a = a) ∧ (a = PI → wrap_angle a = - PI).
Proof.
  intros a. pose proof (atan2_bound y x) as Hb. fold a in Hb. pose proof PI_RGT_0.
  destruct (Rle_lt_or_eq_dec _ _ (proj2 Hb)) as [Hlt|Heq].
  - rw wrap_angle_inside; [|lra]. repeat split; try lra.
  - rw Heq wrap_angle_PI. repeat split; try lra.
Qed.

Lemma quaternion_to_angle_rows quat :
  Forall (λ q : list R, length q = 4%nat) quat →
  ∃ out, quaternion_to_angle quat = Some out ∧ length out = length quat ∧
    ∀ i w x y z, quat !! i = Some [w; x; y; z] →
      out !! i = Some (wrap_angle (atan2 (2 * (x * y - w * z)) (1 - 2 * (y ^ 2 + z ^ 2)))).
Proof.
  induction 1 as [|q quat Hq _ (out & Hout & Hlen & Hrow)].
  - exists []. split; [done|]. split; [done|]. intros i ????. by rw lookup_nil.
  - destruct q as [|w [|x [|y [|z [|]]]]]; try done.
    eexists (_ :: out). unfold quaternion_to_angle in *. cbn [mapM]. rw Hout /=.
    split; [reflexivity|]. split; [by rw Hlen|].
    intros [|i] w' x' y' z' Hi; simpl in Hi.
    + by simplify_eq.
    + by apply Hrow.
Qed.

(** C9 (amended).  For every quaternion (w, x, y, z) the angle returned by
    [quaternion_to_angle] is [atan2 (2*(x*y - w*z)) (1 - 2*(y^2 + z^2))]
    wrapped into the half-open interval [-PI, PI): the value of [atan2]
    itself, except that PI is returned as -PI. *)
Theorem C9_heading_wrapped (quat : list (list R)) :
  Forall (λ q : list R, length q = 4%nat) quat →
  ∃ out, quaternion_to_angle quat = Some out ∧ length out = length quat ∧
    ∀ i w x y z, quat !! i = Some [w; x; y; z] →
      ∃ t, out !! i = Some t ∧
        let a := atan2 (2 * (x * y - w * z)) (1 - 2 * (y ^ 2 + z ^ 2)) in
        - PI <= t < PI ∧ (a < PI → t = a) ∧ (a = PI → t = - PI).
Proof.
  intros Hq. destruct (quaternion_to_angle_rows quat Hq) as (out & Hout & Hlen & Hrow).
  exists out. split; [done|]. split; [done|].
  intros i w x y z Hi. eexists. split; [by apply Hrow|]. apply wrap_atan2.
Qed.

Lemma C9_heading_wrapped_witness :
  ∃ out, quaternion_to_angle [[1; 0; 0; 0]] = Some out ∧ length out = 1%nat.
Proof.
  destruct (C9_heading_wrapped [[1; 0; 0; 0]]) as (out & Hout & Hlen & _).
  - repeat constructor.
  - exists out. split; [exact Hout|exact Hlen].
Defined.

Lemma atan2_neg_x_axis : atan2 (2 * (0 * 0 - 0 * 1)) (1 - 2 * (0 ^ 2 + 1 ^ 2)) = PI.
Proof.
  unfold atan2. repeat case_decide; try lra.
  replace (2 * (0 * 0 - 0 * 1) / (1 - 2 * (0 ^ 2 + 1 ^ 2))) with 0 by (field; lra).
  rw atan_0. lra.
Qed.

Lemma C9_counterexample :
  ∃ t, quaternion_to_angle [[0; 0; 0; 1]] = Some [t] ∧
       atan2 (2 * (0 * 0 - 0 * 1)) (1 - 2 * (0 ^ 2 + 1 ^ 2)) = PI ∧
       t = - PI ∧ ¬ (- PI < t <= PI).
Proof.
  eexists. split; [reflexivity|]. split; [apply atan2_neg_x_axis|].
  fold (wrap_angle (atan2 (2 * (0 * 0 - 0 * 1)) (1 - 2 * (0 ^ 2 + 1 ^ 2)))).
  rw atan2_neg_x_axis wrap_angle_PI. split; [done|]. lra.
Qed.

Lemma unit_atan_pos x y :
  x * x + y * y = 1 → 0 < x → cos (atan (y / x)) = x ∧ sin (atan (y / x)) = y.
Proof.
  intros Hu Hx.
  assert (sqrt (1 + (y / x)²) = / x) as Hs.
  { apply sqrt_lem_1.
    - unfold Rsqr. nra.
    - left. by apply Rinv_0_lt_compat.
    - unfold Rsqr, Rdiv. assert (y * y = 1 - x * x) as Hy by lra.
      replace (y * / x * (y * / x)) with ((y * y) * (/ x * / x)) by ring.
      rw Hy. field. lra. }
  rw cos_atan sin_atan Hs. split; field; lra.
Qed.

Lemma unit_atan_neg x y :
  x * x + y * y = 1 → x < 0 → cos (atan (y / x)) = - x ∧ sin (atan (y / x)) = - y.
Proof.
  intros Hu Hx.
  assert (sqrt (1 + (y / x)²) = / - x) as Hs.
  { apply sqrt_lem_1.
    - unfold Rsqr. nra.
    - left. apply Rinv_0_lt_compat. lra.
    - unfold Rsqr, Rdiv. assert (y * y = 1 - x * x) as Hy by lra.
      replace (y * / x * (y * / x)) with ((y * y) * (/ x * / x)) by ring.
      rw Hy. field. lra. }
  rw cos_atan sin_atan Hs. split; field; lra.
Qed.

Lemma cos_sin_atan2 x y :
  x * x + y * y = 1 → cos (atan2 y x) = x ∧ sin (atan2 y x) = y.
Proof.
  intros Hu. unfold atan2. repeat case_decide.
  - by apply unit_atan_pos.
  - destruct (unit_atan_neg x y) as [Hc Hs]; [done..|]. rw neg_cos neg_sin Hc Hs. lra.
  - destruct (unit_atan_neg x y) as [Hc Hs]; [done..|].
    rw cos_minus sin_minus cos_PI sin_PI Hc Hs. lra.
  - assert (x = 0) as -> by lra. rw cos_PI2 sin_PI2. nra.
  - assert (x = 0) as -> by lra. rw cos_neg sin_neg cos_PI2 sin_PI2. nra.
  - nra.
Qed.

Lemma cos_sin_wrap_atan2 x y :
  cos (wrap_angle (atan2 y x)) = cos (atan2 y x) ∧
  sin (wrap_angle (atan2 y x)) = sin (atan2 y x).
Proof.
  destruct (wrap_atan2 y x) as (_ & Hin & Hpi). pose proof (atan2_bound y x) as [_ Hle].
  destruct (Rle_lt_or_eq_dec _ _ Hle) as [Hlt|Heq].
  - by rw Hin.
  - rw Hpi // Heq cos_neg sin_neg sin_PI. lra.
Qed.

(** ** Row-wise loops *)

Lemma mapM_rows {A B} (f : A → option B) (l : list A) :
  Forall (λ x, is_Some (f x)) l →
  ∃ out, mapM f l = Some out ∧ length out = length l ∧
         ∀ i x, l !! i = Some x → out !! i = f x.
Proof.
  intros Hall. destruct (mapM_is_Some_2 f l) as [out Hout]; [done|].
  exists out. split; [done|]. apply mapM_Some_1 in Hout.
  split; [symmetry; by eapply Forall2_length|].
  intros i x Hx. destruct (Forall2_lookup_l _ _ _ _ _ Hout Hx) as (y & Hy & Hf). by rw Hy Hf.
Qed.

Lemma stack_Some {A} (l : list (list A)) n :
  l ≠ [] → Forall (λ y, length y = n) l → stack l = Some l.
Proof.
  intros Hne Hall. unfold stack. destruct l as [|x l']; [done|].
  destruct (decide (Forall (λ y, length y = length x) (x :: l'))) as [|Hn]; [done|].
  exfalso. apply Hn. inversion Hall; subst. done.
Qed.

(** ** The differential-drive solver *)

Lemma differential_drive_body_eq vx wf rest :
  differential_drive_body (vx :: wf :: rest) =
    Some [0; system_gain * ((vx - wf * base_width / 2) / motor_scale) * joint_base;
          system_gain * ((vx + wf * base_width / 2) / motor_scale) * joint_base; 0; 0; 0; 0].
Proof.
  unfold differential_drive_body. cbn. do 3 f_equal; [|f_equal]; f_equal; f_equal; f_equal; lra.
Qed.

(** C4.  For every batch of commands (vx, wf) the solver returns one row
    of seven targets per command: slot 1 is
    [gain * (v_left / nominal) * base] with [v_left = vx - wf * W / 2],
    slot 2 the same with [v_right = vx + wf * W / 2], every other slot is 0.
    With W = 0.4132, base = 42, nominal = 0.5 and gain = 1.25, the command
    (0.5, -0.5) gives 63.3465 and 41.6535, that is 63.35 and 41.65 to two
    decimal places. *)
Theorem C4_differential_drive (actions : list (list R)) :
  actions ≠ [] → Forall (λ row : list R, (2 ≤ length row)%nat) actions →
  ∃ out, differential_drive_solver actions = Some out ∧ length out = length actions ∧
    (∀ i vx wf rest, actions !! i = Some (vx :: wf :: rest) →
       let v_left := vx - wf * base_width / 2 in
       let v_right := vx + wf * base_width / 2 in
       out !! i = Some [0; system_gain * (v_left / motor_scale) * joint_base;
                        system_gain * (v_right / motor_scale) * joint_base; 0; 0; 0; 0]) ∧
    (base_width = 0.4132 ∧ joint_base = 42 ∧ motor_scale = 0.5 ∧ system_gain = 1.25) ∧
    (∀ i rest, actions !! i = Some (0.5 :: -0.5 :: rest) →
       ∃ pl pr, out !! i = Some [0; pl; pr; 0; 0; 0; 0] ∧
                pl = 63.3465 ∧ pr = 41.6535 ∧
                Rabs (pl - 63.35) < 0.005 ∧ Rabs (pr - 41.65) < 0.005).
Proof.
  intros Hne Hall.
  assert (∀ row : list R, (2 ≤ length row)%nat → ∃ vx wf rest, row = vx :: wf :: rest) as Hshape.
  { intros [|vx [|wf rest]] Hl; simpl in Hl; try lia. by eexists _, _, _. }
  destruct (mapM_rows differential_drive_body actions) as (out & Hout & Hlen & Hrow).
  { eapply Forall_impl; [exact Hall|]. intros row (vx & wf & rest & ->)%Hshape.
    rw differential_drive_body_eq. by eexists. }
  assert (∀ i vx wf rest, actions !! i = Some (vx :: wf :: rest) →
       out !! i = Some [0; system_gain * ((vx - wf * base_width / 2) / motor_scale) * joint_base;
          system_gain * ((vx + wf * base_width / 2) / motor_scale) * joint_base; 0; 0; 0; 0]) as Hrows.
  { intros i vx wf rest Hi. by rw (Hrow _ _ Hi) differential_drive_body_eq. }
  exists out. unfold differential_drive_solver. rw Hout /=. split.
  { apply (stack_Some _ 7). { intros ->. destruct actions; done. }
    apply Forall_lookup_2. intros i row Hi.
    destruct (lookup_lt_is_Some_2 actions i) as [a Ha]; [apply lookup_lt_Some in Hi; lia|].
    destruct (Hshape a) as (vx & wf & rest & ->); [by eapply Forall_lookup_1 in Hall; eauto|].
    rw (Hrows _ _ _ _ Ha) in Hi. by simplify_eq. }
  split; [done|]. split; [exact Hrows|]. split; [done|].
  intros i rest Hi. eexists _, _. split; [by eapply Hrows|].
  unfold system_gain, base_width, motor_scale, joint_base.
  assert (1.25 * ((0.5 - -0.5 * 0.4132 / 2) / 0.5) * 42 = 63.3465) as -> by lra.
  assert (1.25 * ((0.5 + -0.5 * 0.4132 / 2) / 0.5) * 42 = 41.6535) as -> by lra.
  split; [done|]. split; [done|]. split; apply Rabs_def1; lra.
Qed.

Lemma C4_differential_drive_witness :
  ∃ out, differential_drive_solver [[0.5; -0.5]] = Some out ∧ length out = 1%nat.
Proof.
  destruct (C4_differential_drive [[0.5; -0.5]]) as (out & Hout & Hlen & _).
  - discriminate.
  - repeat constructor.
  - exists out. split; [exact Hout|exact Hlen].
Defined.

(** ** The goal projection *)

Lemma goal_affine_eq x : 2 * (x - g_min) / (g_max - g_min) + (-1) = goal_affine x.
Proof. unfold g_min, g_max, goal_affine. lra. Qed.

Lemma sqrt_le_2_sq c : 0 <= c → sqrt c <= 2 → c <= 4.
Proof.
  intros Hc Hs. pose proof (sqrt_sqrt c Hc) as Hsq. pose proof (sqrt_pos c). nra.
Qed.

Lemma subgoal_get_body_spec x y rest :
  ∃ cx cy,
    subgoal_get_body 2.0 (x :: y :: rest) = Some [goal_affine cx; goal_affine cy] ∧
    sqrt (cx * cx + cy * cy) <= 2 ∧
    (∃ s, 0 < s <= 1 ∧ cx = s * x ∧ cy = s * y) ∧
    (sqrt (x * x + y * y) <= 2 → cx = x ∧ cy = y) ∧
    (2 < sqrt (x * x + y * y) → sqrt (cx * cx + cy * cy) = 2) ∧
    (-1 <= goal_affine cx <= 1) ∧ (-1 <= goal_affine cy <= 1).
Proof.
  assert (2.0 = 2) as -> by lra.
  set (m := sqrt (x * x + y * y)).
  assert (0 <= x * x + y * y) as Hnn by nra.
  pose proof (sqrt_sqrt _ Hnn) as Hmm. fold m in Hmm. pose proof (sqrt_pos (x * x + y * y)) as Hm0.
  fold m in Hm0.
  assert (∀ cx cy, sqrt (cx * cx + cy * cy) <= 2 →
            (-1 <= goal_affine cx <= 1) ∧ (-1 <= goal_affine cy <= 1)) as Hbound.
  { intros cx cy Hs. apply sqrt_le_2_sq in Hs; [|nra]. unfold goal_affine. split; split; nra. }
  unfold subgoal_get_body. cbn [lookup list_lookup mbind option_bind]. fold m.
  destruct (decide (m > 2)) as [Hgt|Hle].
  - exists (x * (2 / m)), (y * (2 / m)).
    assert (sqrt (x * (2 / m) * (x * (2 / m)) + y * (2 / m) * (y * (2 / m))) = 2) as Hs.
    { apply sqrt_lem_1; [nra|lra|].
      replace (x * (2 / m) * (x * (2 / m)) + y * (2 / m) * (y * (2 / m)))
        with ((x * x + y * y) * (4 / (m * m))) by (field; lra).
      rw -Hmm. field. lra. }
    split. { cbn [fmap list_fmap]. by rw !goal_affine_eq. }
    split; [lra|]. split.
    { exists (2 / m). split; [|lra]. split.
      - apply Rdiv_lt_0_compat; lra.
      - apply Rmult_le_reg_r with m; [lra|]. unfold Rdiv. rw Rmult_assoc Rinv_l; lra. }
    split; [lra|]. split; [done|]. apply Hbound. lra.
  - exists x, y. split. { cbn [fmap list_fmap]. by rw !goal_affine_eq. }
    split; [fold m; lra|]. split; [exists 1; lra|]. split; [done|]. split; [lra|].
    apply Hbound. fold m. lra.
Qed.

Lemma yaw_quaternion_entries p :
  1 - 2 * (0 ^ 2 + sin (p / 2) ^ 2) = cos p ∧ 2 * (0 * 0 - cos (p / 2) * sin (p / 2)) = - sin p.
Proof.
  assert (cos p = cos (2 * (p / 2))) as -> by (f_equal; lra).
  assert (sin p = sin (2 * (p / 2))) as -> by (f_equal; lra).
  rw cos_2a sin_2a.
  pose proof (sin2_cos2 (p / 2)) as H. unfold Rsqr in H. split; nra.
Qed.

Lemma cos_sin_quaternion_yaw p :
  let t := wrap_angle (atan2 (2 * (0 * 0 - cos (p / 2) * sin (p / 2)))
                             (1 - 2 * (0 ^ 2 + sin (p / 2) ^ 2))) in
  cos t = cos p ∧ sin t = - sin p.
Proof.
  destruct (yaw_quaternion_entries p) as [-> ->]. cbv zeta.
  destruct (cos_sin_wrap_atan2 (cos p) (- sin p)) as [-> ->].
  apply cos_sin_atan2. pose proof (sin2_cos2 p) as H. unfold Rsqr in H. nra.
Qed.

Lemma wrap_angle_identity_quaternion :
  wrap_angle (atan2 (2 * (0 * 0 - 1 * 0)) (1 - 2 * (0 ^ 2 + 0 ^ 2))) = 0.
Proof.
  assert (atan2 (2 * (0 * 0 - 1 * 0)) (1 - 2 * (0 ^ 2 + 0 ^ 2)) = 0) as ->.
  { unfold atan2. case_decide; [|lra].
    replace (2 * (0 * 0 - 1 * 0) / (1 - 2 * (0 ^ 2 + 0 ^ 2))) with 0 by (field; lra).
    apply atan_0. }
  apply wrap_angle_inside. pose proof PI_RGT_0. lra.
Qed.

Lemma list_shape2 (r : list R) : length r = 2%nat → ∃ a b, r = [a; b].
Proof. destruct r as [|a [|b [|]]]; try done. by eexists _, _. Qed.

Lemma bcast2_minus_rows goals pos2 :
  length goals = length pos2 →
  Forall (λ r : list R, length r = 2%nat) goals →
  Forall (λ r : list R, length r = 2%nat) pos2 →
  ∃ rel, bcast2 Rminus goals pos2 = Some rel ∧ length rel = length goals ∧
    ∀ i gx gy px py, goals !! i = Some [gx; gy] → pos2 !! i = Some [px; py] →
      rel !! i = Some [gx - px; gy - py].
Proof.
  intros Hlen Hg Hp. unfold bcast2. destruct (decide (length goals = length pos2)); [|done].
  destruct (mapM_rows (λ uv : list R * list R, bcast1 Rminus uv.1 uv.2) (zip goals pos2))
    as (rel & -> & Hl & Hrow).
  { apply Forall_forall. intros [u v] Hin. simpl.
    pose proof (elem_of_zip_l _ _ _ _ Hin) as Hu. pose proof (elem_of_zip_r _ _ _ _ Hin) as Hv.
    rewrite ->Forall_forall in Hg, Hp.
    destruct (list_shape2 u (Hg _ Hu)) as (a & b & ->).
    destruct (list_shape2 v (Hp _ Hv)) as (c & d & ->). by eexists. }
  exists rel. split; [done|]. split; [rw Hl length_zip; lia|].
  intros i gx gy px py Hi Hj. rw (Hrow i ([gx; gy], [px; py])); [done|].
  by rw lookup_zip_with Hi /= Hj.
Qed.

Lemma relative_subgoal_rows goals quat pos :
  goals ≠ [] → length quat = length goals → length pos = length goals →
  Forall (λ r : list R, length r = 2%nat) goals →
  Forall (λ q : list R, length q = 4%nat) quat →
  Forall (λ p : list R, length p = 3%nat) pos →
  ∃ sub, relative_subgoal goals quat pos = Some sub ∧ length sub = length goals ∧
    Forall (λ r : list R, length r = 2%nat) sub ∧
    ∀ i gx gy px py pz w x y z,
      goals !! i = Some [gx; gy] → pos !! i = Some [px; py; pz] →
      quat !! i = Some [w; x; y; z] →
      sub !! i = subgoal_get_body 2.0
        (let t := wrap_angle (atan2 (2 * (x * y - w * z)) (1 - 2 * (y ^ 2 + z ^ 2))) in
         [(rot2 t (gx - px) (gy - py)).1; (rot2 t (gx - px) (gy - py)).2]).
Proof.
  intros Hne Hlq Hlp Hg Hq Hp. unfold relative_subgoal.
  destruct (bcast2_minus_rows goals (take 2 <$> pos)) as (rel & -> & Hlrel & Hrel).
  { by rw length_fmap. }
  { done. }
  { apply Forall_fmap. eapply Forall_impl; [exact Hp|]. intros p Hl. unfold compose.
    cbv beta in Hl. rw length_take Hl. done. }
  cbn [mbind option_bind].
  destruct (quaternion_to_angle_rows quat Hq) as (angles & -> & Hlang & Hang).
  cbn [mbind option_bind].
  assert (∀ i, (i < length goals)%nat → ∃ gx gy px py pz w x y z,
            goals !! i = Some [gx; gy] ∧ pos !! i = Some [px; py; pz] ∧
            quat !! i = Some [w; x; y; z]) as Hshape.
  { intros i Hi.
    destruct (lookup_lt_is_Some_2 goals i) as [g Hgi]; [lia|].
    destruct (lookup_lt_is_Some_2 pos i) as [p Hpi]; [lia|].
    destruct (lookup_lt_is_Some_2 quat i) as [q Hqi]; [lia|].
    eapply Forall_lookup_1 in Hg; [|exact Hgi]. eapply Forall_lookup_1 in Hp; [|exact Hpi].
    eapply Forall_lookup_1 in Hq; [|exact Hqi].
    destruct g as [|gx [|gy [|]]]; try done. destruct p as [|px [|py [|pz [|]]]]; try done.
    destruct q as [|w [|x [|y [|z [|]]]]]; try done. by eexists _, _, _, _, _, _, _, _, _. }
  assert (∀ i gx gy px py pz w x y z,
      goals !! i = Some [gx; gy] → pos !! i = Some [px; py; pz] →
      quat !! i = Some [w; x; y; z] →
      (angles !! i ≫= λ angle, rel !! i ≫= λ row, goal_rotate angle row) =
      Some (let t := wrap_angle (atan2 (2 * (x * y - w * z)) (1 - 2 * (y ^ 2 + z ^ 2))) in
            [(rot2 t (gx - px) (gy - py)).1; (rot2 t (gx - px) (gy - py)).2])) as Hrot.
  { intros i gx gy px py pz w x y z Hgi Hpi Hqi.
    rw (Hang _ _ _ _ _ Hqi) /=. rw (Hrel i gx gy px py) //.
    by rw list_lookup_fmap Hpi. }
  destruct (mapM_rows (λ i, angles !! i ≫= λ angle, rel !! i ≫= λ row, goal_rotate angle row)
              (seq 0 (length rel))) as (rot & -> & Hlrot & Hrotrow).
  { apply Forall_forall. intros i Hi%elem_of_seq.
    destruct (Hshape i) as (gx & gy & px & py & pz & w & x & y & z & H1 & H2 & H3); [lia|].
    rw (Hrot _ _ _ _ _ _ _ _ _ _ H1 H2 H3). by eexists. }
  cbn [mbind option_bind]. rw length_seq in Hlrot.
  assert (∀ i gx gy px py pz w x y z,
      goals !! i = Some [gx; gy] → pos !! i = Some [px; py; pz] →
      quat !! i = Some [w; x; y; z] →
      rot !! i = Some (let t := wrap_angle (atan2 (2 * (x * y - w * z)) (1 - 2 * (y ^ 2 + z ^ 2))) in
            [(rot2 t (gx - px) (gy - py)).1; (rot2 t (gx - px) (gy - py)).2])) as Hrot'.
  { intros i gx gy px py pz w x y z Hgi Hpi Hqi.
    rw (Hrotrow i i); [by eapply Hrot|].
    apply lookup_seq. split; [done|]. apply lookup_lt_Some in Hgi. lia. }
  unfold subgoal_get.
  destruct (mapM_rows (subgoal_get_body 2.0) rot) as (sub & -> & Hlsub & Hsub).
  { apply Forall_lookup_2. intros i r Hr.
    destruct (Hshape i) as (gx & gy & px & py & pz & w & x & y & z & H1 & H2 & H3).
    { apply lookup_lt_Some in Hr. lia. }
    rw (Hrot' _ _ _ _ _ _ _ _ _ _ H1 H2 H3) in Hr. simplify_eq.
    destruct (subgoal_get_body_spec
                (rot2 (wrap_angle (atan2 (2 * (x * y - w * z)) (1 - 2 * (y ^ 2 + z ^ 2))))
                      (gx - px) (gy - py)).1
                (rot2 (wrap_angle (atan2 (2 * (x * y - w * z)) (1 - 2 * (y ^ 2 + z ^ 2))))
                      (gx - px) (gy - py)).2 []) as (cx & cy & Hb & _).
    cbv zeta. rw Hb. by eexists. }
  cbn [mbind option_bind].
  assert (Forall (λ r : list R, length r = 2%nat) sub) as Hsub2.
  { apply Forall_lookup_2. intros i r Hr.
    destruct (Hshape i) as (gx & gy & px & py & pz & w & x & y & z & H1 & H2 & H3).
    { apply lookup_lt_Some in Hr. lia. }
    rw (Hsub _ _ (Hrot' _ _ _ _ _ _ _ _ _ _ H1 H2 H3)) in Hr. cbv zeta in Hr.
    destruct (subgoal_get_body_spec
                (rot2 (wrap_angle (atan2 (2 * (x * y - w * z)) (1 - 2 * (y ^ 2 + z ^ 2))))
                      (gx - px) (gy - py)).1
                (rot2 (wrap_angle (atan2 (2 * (x * y - w * z)) (1 - 2 * (y ^ 2 + z ^ 2))))
                      (gx - px) (gy - py)).2 []) as (cx & cy & Hb & _).
    rw Hb in Hr. by simplify_eq. }
  exists sub. split.
  { apply (stack_Some _ 2); [|done]. intros ->. destruct goals; [done|]. simpl in *. lia. }
  split; [lia|]. split; [done|].
  intros i gx gy px py pz w x y z H1 H2 H3. apply Hsub. by eapply Hrot'.
Qed.

(** C5.  For every instance the subgoal is computed from
    [relative = goal - robot_xy]: it is rotated by the angle [t] of the root
    quaternion, which for a robot with yaw [p] is the rotation by [-p] into
    the body frame; it is scaled by a factor in (0, 1] so that its length
    is at most 2.0 (unchanged when the length is at most 2.0, of length
    exactly 2.0 otherwise); each component is then mapped affinely from
    [-2, 2] to [-1, 1].  For the goal (-5, -2) and a robot at the origin
    facing +x, the relative goal is (-5, -2) of length sqrt 29, the clamped
    vector has length 2 and the result lies in [-1, 1]. *)
Theorem C5_goal_projection (goals quat pos : list (list R)) :
  goals ≠ [] → length quat = length goals → length pos = length goals →
  Forall (λ r : list R, length r = 2%nat) goals →
  Forall (λ q : list R, length q = 4%nat) quat →
  Forall (λ p : list R, length p = 3%nat) pos →
  ∃ sub, relative_subgoal goals quat pos = Some sub ∧ length sub = length goals ∧
    ∀ i gx gy px py pz w x y z,
      goals !! i = Some [gx; gy] → pos !! i = Some [px; py; pz] →
      quat !! i = Some [w; x; y; z] →
      let t := wrap_angle (atan2 (2 * (x * y - w * z)) (1 - 2 * (y ^ 2 + z ^ 2))) in
      let relx := gx - px in
      let rely := gy - py in
      let rx := relx * cos t - rely * sin t in
      let ry := relx * sin t + rely * cos t in
      ∃ cx cy,
        sub !! i = Some [goal_affine cx; goal_affine cy] ∧
        sqrt (cx * cx + cy * cy) <= 2 ∧
        (∃ s, 0 < s <= 1 ∧ cx = s * rx ∧ cy = s * ry) ∧
        (sqrt (rx * rx + ry * ry) <= 2 → cx = rx ∧ cy = ry) ∧
        (2 < sqrt (rx * rx + ry * ry) → sqrt (cx * cx + cy * cy) = 2) ∧
        (-1 <= goal_affine cx <= 1) ∧ (-1 <= goal_affine cy <= 1) ∧
        (∀ p, w = cos (p / 2) → x = 0 → y = 0 → z = sin (p / 2) →
           rx = relx * cos (- p) - rely * sin (- p) ∧
           ry = relx * sin (- p) + rely * cos (- p)) ∧
        (gx = -5 → gy = -2 → px = 0 → py = 0 → w = 1 → x = 0 → y = 0 → z = 0 →
           rx = -5 ∧ ry = -2 ∧ sqrt (rx * rx + ry * ry) = sqrt 29 ∧
           sqrt (cx * cx + cy * cy) = 2).
Proof.
  intros Hne Hlq Hlp Hg Hq Hp.
  destruct (relative_subgoal_rows goals quat pos Hne Hlq Hlp Hg Hq Hp)
    as (sub & Hsub & Hlen & _ & Hrow).
  exists sub. split; [done|]. split; [done|].
  intros i gx gy px py pz w x y z Hgi Hpi Hqi t relx rely rx ry.
  specialize (Hrow i gx gy px py pz w x y z Hgi Hpi Hqi). cbv zeta in Hrow.
  unfold rot2 in Hrow. cbn [fst snd] in Hrow. fold t relx rely rx ry in Hrow.
  destruct (subgoal_get_body_spec rx ry []) as (cx & cy & Hb & Hmag & Hdir & Hin & Hout & Hx & Hy).
  exists cx, cy. rw Hrow. do 7 (split; [done|]). split.
  - intros p -> -> -> ->. destruct (cos_sin_quaternion_yaw p) as [Hc Hs]. fold t in Hc, Hs.
    unfold rx, ry. rw Hc Hs cos_neg sin_neg. lra.
  - intros -> -> -> -> -> -> -> ->.
    assert (t = 0) as Ht by apply wrap_angle_identity_quaternion.
    assert (rx = -5) as Hrx by (unfold rx, relx, rely; rw Ht cos_0 sin_0; lra).
    assert (ry = -2) as Hry by (unfold ry, relx, rely; rw Ht cos_0 sin_0; lra).
    assert (rx * rx + ry * ry = 29) as H29 by (rw Hrx Hry; lra).
    split; [done|]. split; [done|]. split; [by rw H29|]. apply Hout. rw H29.
    pose proof (sqrt_sqrt 29) as Hsq. pose proof (sqrt_pos 29). nra.
Qed.

Lemma C5_goal_projection_witness :
  ∃ sub, relative_subgoal goal [[1; 0; 0; 0]; [1; 0; 0; 0]] [[0; 0; 0]; [0; 0; 0]] = Some sub ∧
         length sub = 2%nat.
Proof.
  destruct (C5_goal_projection goal [[1; 0; 0; 0]; [1; 0; 0; 0]] [[0; 0; 0]; [0; 0; 0]])
    as (sub & Hsub & Hlen & _).
  - discriminate.
  - reflexivity.
  - reflexivity.
  - repeat constructor.
  - repeat constructor.
  - repeat constructor.
  - exists sub. split; [exact Hsub|exact Hlen].
Defined.

(** ** Preprocessing *)

Lemma z_data_mask (pts : list (list R)) :
  Forall (λ p : list R, length p = 3%nat) pts →
  ∃ z_data, mapM (λ p : list R, p !! 2%nat) pts = Some z_data ∧
    (λ z, bool_decide (z_min <= z) && bool_decide (z <= z_max)) <$> z_data = keep <$> pts.
Proof.
  induction 1 as [|p pts Hp _ (zs & Hzs & Hmask)].
  - by exists [].
  - destruct p as [|a [|b [|c [|]]]]; try done.
    exists (c :: zs). cbn [mapM]. rw Hzs. split; [done|]. by rw !fmap_cons Hmask.
Qed.

Lemma masked_keep (pts : list (list R)) :
  masked pts (keep <$> pts) = Some (filter (λ p, keep p = true) pts).
Proof.
  unfold masked. rw length_fmap. destruct (decide (length pts = length pts)); [|done].
  f_equal. induction pts as [|p pts IH]; [done|]. cbn [fmap list_fmap zip zip_with].
  rw !filter_cons. cbn [snd]. destruct (decide (keep p = true)); cbn [fmap list_fmap fst]; by rw IH.
Qed.

Lemma masked_keep_ranges (pts : list (list R)) (rng : list R) :
  length rng = length pts →
  masked rng (keep <$> pts)
    = Some (filter (λ pr : list R * R, keep pr.1 = true) (zip pts rng)).*2.
Proof.
  intros Hlen. unfold masked. rw length_fmap.
  destruct (decide (length rng = length pts)); [|done]. f_equal. clear e.
  revert rng Hlen. induction pts as [|p pts IH]; intros [|r rng] Hlen; try done.
  cbn [fmap list_fmap zip zip_with]. rw !filter_cons. cbn [fst snd].
  destruct (decide (keep p = true)); cbn [fmap list_fmap fst snd]; rw IH //; simpl in Hlen; lia.
Qed.

Lemma length_filter_zip (pts : list (list R)) (rng : list R) :
  length rng = length pts →
  length (filter (λ pr : list R * R, keep pr.1 = true) (zip pts rng)).*2
    = length (filter (λ p, keep p = true) pts).
Proof.
  revert rng. induction pts as [|p pts IH]; intros [|r rng] Hlen; try done.
  cbn [zip zip_with]. rw !filter_cons. cbn [fst].
  destruct (decide (keep p = true)); cbn [fmap list_fmap length]; rw IH //; simpl in Hlen; lia.
Qed.

Lemma length_survivors fr :
  length (distance fr) = length (data fr) →
  length (surviving_ranges fr) = length (survivors fr).
Proof.
  intros Hlen. by rw /surviving_ranges /survivors !length_take length_filter_zip.
Qed.

Lemma survivors_nonempty fr :
  Exists (λ p, keep p = true) (data fr) → (1 ≤ length (survivors fr))%nat.
Proof.
  intros (p & Hin & Hk)%Exists_exists. unfold survivors. rw length_take.
  assert (p ∈ filter (λ p, keep p = true) (data fr)) as Hp by (by apply list_elem_of_filter).
  destruct (filter _ (data fr)); [by apply elem_of_nil in Hp|]. simpl. lia.
Qed.

Lemma pick_lt n k : (1 ≤ n)%nat → (k < 720)%nat → (pick n k < n)%nat.
Proof.
  intros Hn Hk. unfold pick.
  assert (k * (n - 1) / 719 ≤ n - 1)%nat; [|lia].
  apply Nat.Div0.div_le_upper_bound. generalize (n - 1)%nat. intros m.
  apply Nat.mul_le_mono_r. lia.
Qed.

Lemma linspace_long_pick n :
  (1 ≤ n)%nat →
  linspace_long (Z.of_nat n - 1) num_samples = (λ k, Z.of_nat (pick n k)) <$> seq 0 720.
Proof.
  intros Hn. unfold linspace_long, num_samples. apply list_fmap_ext. intros _ k _.
  unfold pick. rw Z.quot_div_nonneg; [|nia|lia].
  rw Nat2Z.inj_div Nat2Z.inj_mul Nat2Z.inj_sub; [|lia]. reflexivity.
Qed.

Lemma index_long_nat {A} (l : list A) (i : nat) : index_long l (Z.of_nat i) = l !! i.
Proof.
  unfold index_long. destruct (decide (0 ≤ Z.of_nat i)%Z); [|lia]. by rw Nat2Z.id.
Qed.

Lemma gather_pick {A} (l : list A) :
  (1 ≤ length l)%nat →
  ∃ out, mapM (index_long l) (linspace_long (Z.of_nat (length l) - 1) num_samples) = Some out ∧
    length out = 720%nat ∧
    ∀ k, (k < 720)%nat → out !! k = l !! pick (length l) k ∧ is_Some (out !! k).
Proof.
  intros Hn. rw linspace_long_pick //.
  destruct (mapM_rows (index_long l) ((λ k, Z.of_nat (pick (length l) k)) <$> seq 0 720))
    as (out & -> & Hlen & Hrow).
  { apply Forall_fmap, Forall_forall. intros k Hk%elem_of_seq. unfold compose.
    rw index_long_nat. apply lookup_lt_is_Some_2, pick_lt; [done|lia]. }
  exists out. split; [done|]. rw length_fmap length_seq in Hlen. split; [done|].
  intros k Hk. rw (Hrow k (Z.of_nat (pick (length l) k))).
  - rw index_long_nat. split; [done|]. by apply lookup_lt_is_Some_2, pick_lt.
  - by rw list_lookup_fmap lookup_seq_lt.
Qed.

Lemma slice_0_970 {A} (l : list A) : slice 0 970 l = take 970 l.
Proof. reflexivity. Qed.

Lemma survivors_in_data fr p : p ∈ survivors fr → p ∈ data fr ∧ keep p = true.
Proof.
  intros Hin. apply subseteq_take in Hin. apply list_elem_of_filter in Hin as [Hk Hd]. done.
Qed.

Lemma bind_Some_eq {A B} (f : A → option B) (x : A) : Some x ≫= f = f x.
Proof. reflexivity. Qed.

Lemma fmap_Some_eq {A B} (f : A → B) (x : A) : f <$> Some x = Some (f x).
Proof. reflexivity. Qed.

Lemma process_key_filtered fr :
  Forall (λ p : list R, length p = 3%nat) (data fr) →
  length (distance fr) = length (data fr) →
  process_key fr =
    (let indices := linspace_long (Z.of_nat (length (survivors fr)) - 1) num_samples in
     pts ← mapM (index_long (survivors fr)) indices;
     rngs ← mapM (index_long (surviving_ranges fr)) indices;
     Some (pts, rngs)).
Proof.
  intros H3 Hlen. unfold process_key, survivors, surviving_ranges.
  destruct (z_data_mask (data fr) H3) as (zs & -> & Hmask). rw bind_Some_eq.
  rw Hmask. rw masked_keep. rw masked_keep_ranges; [|done].
  rw !fmap_Some_eq. rw !bind_Some_eq. rw !slice_0_970.
  reflexivity.
Qed.

Lemma process_key_ok fr :
  frame_ok fr →
  ∃ pts rngs, process_key fr = Some (pts, rngs) ∧
    length pts = 720%nat ∧ length rngs = 720%nat ∧
    ∀ k, (k < 720)%nat →
      ∃ p r, pts !! k = Some p ∧ rngs !! k = Some r ∧
        survivors fr !! pick (length (survivors fr)) k = Some p ∧
        surviving_ranges fr !! pick (length (survivors fr)) k = Some r.
Proof.
  intros (H3 & Hlen & Hex). rw process_key_filtered //. cbv zeta.
  pose proof (survivors_nonempty fr Hex) as Hn.
  destruct (gather_pick (survivors fr) Hn) as (pts & -> & Hlp & Hp).
  rw bind_Some_eq. rw -(length_survivors fr Hlen).
  rw -(length_survivors fr Hlen) in Hn.
  destruct (gather_pick (surviving_ranges fr) Hn) as (rngs & -> & Hlr & Hr).
  rw bind_Some_eq. exists pts, rngs. split; [done|]. split; [done|]. split; [done|].
  intros k Hk. destruct (Hp k Hk) as [Hpk [p Hp']]. destruct (Hr k Hk) as [Hrk [r Hr']].
  exists p, r. rw ?(length_survivors fr Hlen). rw (length_survivors fr Hlen) in Hrk.
  split; [done|]. split; [done|]. split; congruence.
Qed.

Lemma filter_none {A} (P : A → Prop) `{!∀ x, Decision (P x)} (l : list A) :
  Forall (λ x, ¬ P x) l → filter P l = [].
Proof.
  induction 1 as [|x l Hx _ IH]; [done|]. rw filter_cons. by destruct (decide (P x)).
Qed.

Lemma gather_empty {A} : mapM (index_long (@nil A)) (linspace_long (Z.of_nat 0 - 1) num_samples) = None.
Proof.
  apply mapM_None_2. unfold linspace_long, num_samples.
  change (seq 0 720) with (0%nat :: seq 1 719). rw fmap_cons. by apply Exists_cons_hd.
Qed.

Lemma process_key_no_survivor fr :
  Forall (λ p : list R, length p = 3%nat) (data fr) →
  length (distance fr) = length (data fr) →
  Forall (λ p, keep p = false) (data fr) →
  process_key fr = None.
Proof.
  intros H3 Hlen Hnone. rw process_key_filtered //. cbv zeta.
  assert (survivors fr = []) as ->.
  { unfold survivors. rw filter_none //.
    eapply Forall_impl; [exact Hnone|]. intros p Hp. by rw Hp. }
  by rw gather_empty.
Qed.

Lemma keep_above : keep [0; 0; 1] = false.
Proof.
  unfold keep. cbn [lookup list_lookup]. apply andb_false_intro2.
  apply bool_decide_eq_false. unfold z_max. lra.
Qed.

(** C3.  The preprocessor raises on a reading that is not empty: a
    single point with z = 1 lies outside the band [-0.02, 0.02], the
    filtered arrays are empty, and indexing them at the first of the 720
    positions fails.  (For readings with a point inside the band see
    [process_key_ok] and [raw_lidar_process_ok].) *)
Theorem C3_empty_band_raises :
  data (LidarFrame [[0; 0; 1]] [1]) ≠ [] ∧
  raw_lidar_process [("lidar"%string, LidarFrame [[0; 0; 1]] [1])] = None.
Proof.
  split; [by simpl|]. unfold raw_lidar_process. cbn [head mbind option_bind snd data length].
  destruct (decide (1%nat ≠ 0%nat)) as [_|Hn]; [|exfalso; apply Hn; lia]. cbn [mapM snd].
  rw process_key_no_survivor; [done|..].
  - repeat constructor.
  - done.
  - repeat constructor. apply keep_above.
Qed.

Lemma raw_lidar_process_empty key fr rest :
  data fr = [] → raw_lidar_process ((key, fr) :: rest) = Some (T1 [], T1 []).
Proof.
  intros Hd. unfold raw_lidar_process. cbn [head mbind option_bind snd]. rw Hd.
  by destruct (decide (length (@nil (list R)) ≠ 0%nat)).
Qed.

Lemma raw_lidar_process_ok (lidar : lidar_data_t) :
  lidar ≠ [] → Forall (λ kv, frame_ok kv.2) lidar →
  ∃ pts rngs, raw_lidar_process lidar = Some (T3 pts, T2 rngs) ∧
    length pts = length lidar ∧ length rngs = length lidar ∧
    ∀ j key fr, lidar !! j = Some (key, fr) →
      ∃ p r, pts !! j = Some p ∧ rngs !! j = Some r ∧
        length p = 720%nat ∧ length r = 720%nat ∧
        ∀ k, (k < 720)%nat →
          ∃ pk rk, p !! k = Some pk ∧ r !! k = Some rk ∧
            survivors fr !! pick (length (survivors fr)) k = Some pk ∧
            surviving_ranges fr !! pick (length (survivors fr)) k = Some rk.
Proof.
  intros Hne Hall. unfold raw_lidar_process.
  destruct lidar as [|[key0 fr0] rest]; [done|].
  assert (length (data fr0) ≠ 0%nat) as Hd.
  { inversion Hall as [|?? (_ & _ & Hex) _]; subst.
    apply Exists_exists in Hex as (p & Hin & _). cbn [snd] in Hin.
    destruct (data fr0); [by apply elem_of_nil in Hin|done]. }
  set (lidar := (key0, fr0) :: rest) in *.
  change (head lidar) with (Some (key0, fr0)). rw bind_Some_eq. cbn [snd].
  destruct (decide (length (data fr0) ≠ 0%nat)) as [_|Hn]; [|done].
  destruct (mapM_rows (λ kv : string * lidar_frame, process_key kv.2) lidar)
    as (per_key & -> & Hlen & Hrow).
  { eapply Forall_impl; [exact Hall|]. intros [k fr] Hok. cbn [snd] in *.
    destruct (process_key_ok fr Hok) as (p & r & -> & _). by eexists. }
  cbn [mbind option_bind].
  assert (∀ j key fr, lidar !! j = Some (key, fr) →
      ∃ p r, per_key !! j = Some (p, r) ∧ length p = 720%nat ∧ length r = 720%nat ∧
        ∀ k, (k < 720)%nat →
          ∃ pk rk, p !! k = Some pk ∧ r !! k = Some rk ∧
            survivors fr !! pick (length (survivors fr)) k = Some pk ∧
            surviving_ranges fr !! pick (length (survivors fr)) k = Some rk) as Hkeys.
  { intros j key fr Hj. pose proof (Hrow _ _ Hj) as Hpk. cbn [snd] in Hpk.
    eapply Forall_lookup_1 in Hall; [|exact Hj]. cbn [snd] in Hall.
    destruct (process_key_ok fr Hall) as (p & r & Hpr & Hlp & Hlr & Hk).
    exists p, r. by rw Hpk Hpr. }
  assert (per_key ≠ []) as Hpne.
  { intros ->. done. }
  assert (Forall (λ y : list (list R), length y = 720%nat ∧
                                        Forall (λ q : list R, length q = 3%nat) y)
                 per_key.*1) as H1.
  { apply Forall_fmap, Forall_lookup_2. intros j [p r] Hj.
    destruct (lookup_lt_is_Some_2 lidar j) as [[key fr] Hkv]; [apply lookup_lt_Some in Hj; lia|].
    destruct (Hkeys _ _ _ Hkv) as (p' & r' & Hj' & Hlp & _ & Hk). simplify_eq.
    unfold compose. cbn [fst]. split; [done|].
    apply Forall_lookup_2. intros k pk Hpk.
    destruct (Hk k) as (pk' & rk & Hpk' & _ & Hs & _); [apply lookup_lt_Some in Hpk; lia|].
    simplify_eq. apply list_elem_of_lookup_2, survivors_in_data in Hs as [Hin _].
    eapply Forall_lookup_1 in Hall as [H3 _]; [|exact Hkv].
    rewrite ->Forall_forall in H3. by apply H3. }
  assert (Forall (λ y : list R, length y = 720%nat) per_key.*2) as H2.
  { apply Forall_fmap, Forall_lookup_2. intros j [p r] Hj.
    destruct (lookup_lt_is_Some_2 lidar j) as [[key fr] Hkv]; [apply lookup_lt_Some in Hj; lia|].
    destruct (Hkeys _ _ _ Hkv) as (p' & r' & Hj' & _ & Hlr & _). by simplify_eq. }
  rw (stack2_Some per_key.*1 720 3); [|by intros Hnil%fmap_nil_inv|done].
  rw bind_Some_eq.
  rw (stack_Some per_key.*2 720); [|by intros Hnil%fmap_nil_inv|done].
  rw bind_Some_eq. eexists _, _. split; [done|]. rw !length_fmap.
  split; [done|]. split; [done|].
  intros j key fr Hj. destruct (Hkeys _ _ _ Hj) as (p & r & Hpr & Hrest).
  exists p, r. rw !list_lookup_fmap Hpr. done.
Qed.

(** ** Reset *)

Section ResetFacts.

Context {Sim : Type}.
Variable super_reset_idx : list nat → Sim → Sim.
Variable write_root_pose_to_sim : list (list R) → list nat → Sim → Sim.
Variable write_root_velocity_to_sim : list (list R) → list nat → Sim → Sim.
Variable write_joint_state_to_sim : list (list R) → list (list R) → list nat → Sim → Sim.

Lemma reset_frame self sim cd env_ids noise self' sim' :
  _reset_idx super_reset_idx write_root_pose_to_sim write_root_velocity_to_sim
    write_joint_state_to_sim self sim cd env_ids noise = Some (self', sim') →
  lidar_history_data self' = lidar_history_data self ∧
  pooling_tns self' = pooling_tns self ∧ num_envs self' = num_envs self.
Proof.
  unfold _reset_idx. intros H.
  repeat (apply bind_Some in H as (? & _ & H)). by simplify_eq.
Qed.

Lemma add_at_ok idx nz row :
  Forall (λ j, (j < length row)%nat) idx →
  ∃ row', add_at idx nz row = Some row' ∧ length row' = length row.
Proof.
  intros Hidx. revert nz row Hidx. induction idx as [|j idx IH]; intros nz row Hidx.
  - by exists row.
  - destruct nz as [|e nz]; [by exists row|]. cbn [add_at].
    inversion Hidx as [|?? Hj Hrest]; subst.
    destruct (lookup_lt_is_Some_2 row j Hj) as [x ->]. rw bind_Some_eq.
    destruct (IH nz (<[j := x + e]> row)) as (row' & -> & Hl).
    { eapply Forall_impl; [exact Hrest|]. intros k Hk. by rw length_insert. }
    exists row'. split; [done|]. by rw Hl length_insert.
Qed.

Lemma index_put_ok {A} (ids : list nat) (rows t : list A) :
  Forall (λ i, (i < length t)%nat) ids → is_Some (index_put ids rows t).
Proof.
  intros Hids. revert rows t Hids. induction ids as [|i ids IH]; intros rows t Hids.
  - by eexists.
  - destruct rows as [|r rows]; [by eexists|]. cbn [index_put].
    inversion Hids as [|?? Hi Hrest]; subst.
    destruct (lookup_lt_is_Some_2 t i Hi) as [x ->]. rw bind_Some_eq.
    apply IH. eapply Forall_impl; [exact Hrest|]. intros k Hk. by rw length_insert.
Qed.

Lemma gather_rows {A} (t : list A) (ids : list nat) :
  Forall (λ i, (i < length t)%nat) ids →
  ∃ out, mapM (λ i, t !! i) ids = Some out ∧ Forall (λ x, x ∈ t) out.
Proof.
  intros Hids. destruct (mapM_rows (λ i, t !! i) ids) as (out & Hout & Hlen & Hrow).
  { eapply Forall_impl; [exact Hids|]. intros i Hi. by apply lookup_lt_is_Some_2. }
  exists out. split; [done|]. apply Forall_lookup_2. intros k x Hk.
  destruct (lookup_lt_is_Some_2 ids k) as [i Hi]; [apply lookup_lt_Some in Hk; lia|].
  rw (Hrow _ _ Hi) in Hk. by eapply list_elem_of_lookup_2.
Qed.

Lemma reset_returns self sim cd env_ids noise :
  reset_ok self cd (default (_ALL_INDICES cd) env_ids) →
  is_Some (_reset_idx super_reset_idx write_root_pose_to_sim write_root_velocity_to_sim
    write_joint_state_to_sim self sim cd env_ids noise).
Proof.
  intros (Hids & Hleft & Hroot & Horig). unfold _reset_idx.
  set (ids := default (_ALL_INDICES cd) env_ids) in *.
  destruct (gather_rows (default_joint_pos cd) ids) as (jpos & -> & Hjpos).
  { eapply Forall_impl; [exact Hids|]. intros i (?&?&?&?&?&?); done. }
  rw bind_Some_eq.
  destruct (mapM_rows (λ rn : list R * list R, add_at (_left_dof_idx self) rn.2 rn.1)
              (zip jpos noise)) as (jpos' & -> & _ & _).
  { apply Forall_forall. intros [row nz] Hin%elem_of_zip_l. cbn [fst snd].
    destruct (add_at_ok (_left_dof_idx self) nz row) as (row' & -> & _); [|by eexists].
    rewrite ->Forall_forall in Hjpos, Hleft. by apply Hleft, Hjpos. }
  rw bind_Some_eq.
  destruct (gather_rows (default_joint_vel cd) ids) as (jvel & -> & _).
  { eapply Forall_impl; [exact Hids|]. intros i (?&?&?&?&?&?); done. }
  rw bind_Some_eq.
  destruct (gather_rows (default_root_state cd) ids) as (rs & -> & Hrs).
  { eapply Forall_impl; [exact Hids|]. intros i (?&?&?&?&?&?); done. }
  rw bind_Some_eq.
  destruct (gather_rows (env_origins cd) ids) as (orig & -> & Hor).
  { eapply Forall_impl; [exact Hids|]. intros i (?&?&?&?&?&?); done. }
  rw bind_Some_eq.
  destruct (mapM_rows (λ so : list R * list R,
              bcast1 Rplus (take 3 so.1) so.2 ≫= λ xyz, Some (xyz ++ drop 3 so.1))
              (zip rs orig)) as (rs' & -> & _ & _).
  { apply Forall_forall. intros [s o] Hin. cbn [fst snd].
    pose proof (elem_of_zip_l _ _ _ _ Hin) as Hs. pose proof (elem_of_zip_r _ _ _ _ Hin) as Ho.
    rewrite ->Forall_forall in Hrs, Hor, Hroot, Horig.
    unfold bcast1. destruct (decide (length (take 3 s) = length o)) as [|Hn]; [by eexists|].
    exfalso. apply Hn. rw length_take (Horig o (Hor o Ho)).
    pose proof (Hroot s (Hrs s Hs)). lia. }
  rw bind_Some_eq.
  destruct (index_put_ok ids jpos' (joint_pos self)) as [jp ->].
  { eapply Forall_impl; [exact Hids|]. intros i (?&?&?&?&?&?); done. }
  rw bind_Some_eq.
  destruct (index_put_ok ids jvel (joint_vel self)) as [jv ->].
  { eapply Forall_impl; [exact Hids|]. intros i (?&?&?&?&?&?); done. }
  rw bind_Some_eq. by eexists.
Qed.

(** C7 (amended).  A reset of a subset of the instances (with indices in
    range) returns and leaves the scan history and the pooling counter as
    they were, for the reset instances as for the others. *)
Theorem C7_reset_keeps_history self sim cd env_ids noise :
  reset_ok self cd (default (_ALL_INDICES cd) env_ids) →
  ∃ self' sim',
    _reset_idx super_reset_idx write_root_pose_to_sim write_root_velocity_to_sim
      write_joint_state_to_sim self sim cd env_ids noise = Some (self', sim') ∧
    lidar_history_data self' = lidar_history_data self ∧
    pooling_tns self' = pooling_tns self ∧
    ∀ i, frames_of (lidar_history_data self') i = frames_of (lidar_history_data self) i.
Proof.
  intros Hok. destruct (reset_returns self sim cd env_ids noise Hok) as [[self' sim'] Hr].
  exists self', sim'. split; [done|].
  destruct (reset_frame _ _ _ _ _ _ _ Hr) as (Hh & Hc & _).
  split; [done|]. split; [done|]. intros i. by rw Hh.
Qed.

End ResetFacts.

Lemma C7_reset_keeps_history_witness :
  ∃ self' sim',
    _reset_idx (Sim:=unit) (λ _ s, s) (λ _ _ s, s) (λ _ _ s, s) (λ _ _ _ s, s)
      warm_env () zero_defaults (Some [0%nat]) [[0.1]] = Some (self', sim') ∧
    pooling_tns self' = pooling_tns warm_env.
Proof.
  destruct (C7_reset_keeps_history (Sim:=unit) (λ _ s, s) (λ _ _ s, s) (λ _ _ s, s)
              (λ _ _ _ s, s) warm_env () zero_defaults (Some [0%nat]) [[0.1]])
    as (self' & sim' & Hr & _ & Hc & _).
  - unfold reset_ok. cbn [default from_option]. repeat split; repeat constructor.
  - exists self', sim'. split; [exact Hr|exact Hc].
Defined.

Lemma C7_counterexample :
  ∃ self' sim',
    _reset_idx (Sim:=unit) (λ _ s, s) (λ _ _ s, s) (λ _ _ s, s) (λ _ _ _ s, s)
      warm_env () zero_defaults (Some [0%nat]) [[0.1]] = Some (self', sim') ∧
    frames_of (lidar_history_data self') 0 ≠ [] ∧ pooling_tns self' ≠ 0%Z.
Proof.
  eexists _, _. split; [reflexivity|]. split; [|done]. cbn. discriminate.
Qed.

(** ** Frame transforms *)

Lemma quat_to_rot_matrix_ok quat :
  quat ≠ [] → Forall (λ q : list R, length q = 4%nat) quat →
  ∃ rot, quat_to_rot_matrix quat = Some rot ∧ length rot = length quat ∧
         Forall (λ r : list (list R), length r = 3%nat) rot.
Proof.
  intros Hne Hq. unfold quat_to_rot_matrix.
  match goal with |- context [mapM ?f quat] =>
    destruct (mapM_rows f quat) as (rot & -> & Hlen & Hrow) end.
  { eapply Forall_impl; [exact Hq|]. intros q Hl. by destruct q as [|w [|x [|y [|z [|]]]]]. }
  assert (Forall (λ r : list (list R), length r = 3%nat ∧
                                        Forall (λ v : list R, length v = 3%nat) r) rot) as H3.
  { apply Forall_lookup_2. intros i r Hi.
    destruct (lookup_lt_is_Some_2 quat i) as [q Hqi]; [apply lookup_lt_Some in Hi; lia|].
    rw (Hrow _ _ Hqi) in Hi. eapply Forall_lookup_1 in Hq; [|exact Hqi].
    destruct q as [|w [|x [|y [|z [|]]]]]; try done. cbn [fmap list_fmap] in Hi.
    simplify_eq. split; [done|]. by repeat constructor. }
  rw bind_Some_eq. exists rot. split.
  - apply (stack2_Some _ 3 3); [|done]. intros ->. destruct quat; done.
  - split; [done|]. eapply Forall_impl; [exact H3|]. by intros r [? _].
Qed.

Lemma transform_to_robot_ok data rot trans :
  data ≠ [] → (length data ≤ length rot)%nat → (length data ≤ length trans)%nat →
  Forall cloud_ok data →
  Forall (λ r : list (list R), length r = 3%nat) rot →
  Forall (λ t : list R, length t = 3%nat) trans →
  ∃ out, transform_to_robot data rot trans = Some out ∧ length out = length data ∧
         Forall cloud_ok out.
Proof.
  intros Hne Hlr Hlt Hd Hr Ht. unfold transform_to_robot.
  assert (∀ i, (i < length data)%nat →
            ∃ o, (data !! i ≫= λ data_tmp, rot !! i ≫= λ rot_matrix_tmp,
                  trans !! i ≫= λ translation_tmp,
                  mm_t data_tmp rot_matrix_tmp ≫= λ data_rotated,
                  mapM (λ p, bcast1 Rplus p translation_tmp) data_rotated) = Some o ∧
                 cloud_ok o) as Hbody.
  { intros i Hi.
    destruct (lookup_lt_is_Some_2 data i) as [d Hdi]; [lia|].
    destruct (lookup_lt_is_Some_2 rot i) as [r Hri]; [lia|].
    destruct (lookup_lt_is_Some_2 trans i) as [t Hti]; [lia|].
    rw Hdi Hri Hti !bind_Some_eq.
    eapply Forall_lookup_1 in Hd as [Hd720 Hd3]; [|exact Hdi].
    eapply Forall_lookup_1 in Hr; [|exact Hri]. eapply Forall_lookup_1 in Ht; [|exact Hti].
    unfold mm_t. destruct (decide (Forall (λ p : list R, length p = 3%nat) d)); [|done].
    rw bind_Some_eq.
    match goal with |- context [mapM ?f ?l] =>
      destruct (mapM_rows f l) as (o & -> & Hlo & Hrow) end.
    { apply Forall_fmap, Forall_forall. intros p _. unfold compose, bcast1.
      rw length_fmap Hr Ht. destruct (decide (3 = 3)%nat); [|done]. by eexists. }
    exists o. split; [done|]. rw length_fmap in Hlo. split; [lia|].
    apply Forall_lookup_2. intros k q Hk.
    destruct (lookup_lt_is_Some_2 d k) as [p Hp]; [apply lookup_lt_Some in Hk; lia|].
    rw (Hrow k ((λ rk, dot p rk) <$> r)) in Hk; [|by rw list_lookup_fmap Hp].
    unfold bcast1 in Hk. rw length_fmap Hr Ht in Hk.
    destruct (decide (3 = 3)%nat); [|done]. simplify_eq.
    rw length_zip_with length_fmap Hr Ht. done. }
  match goal with |- context [mapM ?f (seq 0 (length data))] =>
    destruct (mapM_rows f (seq 0 (length data))) as (out & -> & Hlen & Hrow) end.
  { apply Forall_forall. intros i Hi%elem_of_seq.
    destruct (Hbody i) as (o & -> & _); [lia|]. by eexists. }
  rw length_seq in Hlen.
  assert (Forall cloud_ok out) as Hout.
  { apply Forall_lookup_2. intros i o Hi.
    assert (i < length data)%nat as Hi' by (apply lookup_lt_Some in Hi; lia).
    rw (Hrow i i) in Hi; [|by apply lookup_seq].
    destruct (Hbody i Hi') as (o' & Ho' & Hok). by simplify_eq. }
  rw bind_Some_eq. exists out. split; [|done].
  apply (stack2_Some _ 720 3).
  - intros ->. destruct data; done.
  - exact Hout.
Qed.

(** ** Observation assembly *)

Lemma raw_lidar_process_shapes (lidar : lidar_data_t) :
  lidar ≠ [] → Forall (λ kv, frame_ok kv.2) lidar →
  ∃ pts rngs, raw_lidar_process lidar = Some (T3 pts, T2 rngs) ∧
    length pts = length lidar ∧ Forall cloud_ok pts ∧ scan_ok (length lidar) rngs.
Proof.
  intros Hne Hall.
  destruct (raw_lidar_process_ok lidar Hne Hall) as (pts & rngs & Hraw & Hlp & Hlr & Hkey).
  exists pts, rngs. split; [done|]. split; [done|]. split.
  - apply Forall_lookup_2. intros j p Hj.
    destruct (lookup_lt_is_Some_2 lidar j) as [[key fr] Hkv]; [apply lookup_lt_Some in Hj; lia|].
    destruct (Hkey _ _ _ Hkv) as (p' & r & Hp' & _ & Hl & _ & Hk). simplify_eq.
    split; [done|]. apply Forall_lookup_2. intros k pk Hpk.
    destruct (Hk k) as (pk' & rk & Hpk' & _ & Hs & _); [apply lookup_lt_Some in Hpk; lia|].
    simplify_eq. apply list_elem_of_lookup_2, survivors_in_data in Hs as [Hin _].
    eapply Forall_lookup_1 in Hall as [H3 _]; [|exact Hkv].
    rewrite ->Forall_forall in H3. by apply H3.
  - split; [done|]. apply Forall_lookup_2. intros j r Hj.
    destruct (lookup_lt_is_Some_2 lidar j) as [[key fr] Hkv]; [apply lookup_lt_Some in Hj; lia|].
    destruct (Hkey _ _ _ Hkv) as (p & r' & _ & Hr' & _ & Hl & _). by simplify_eq.
Qed.

Lemma visualize_lidar_empty quat pos : visualize_lidar (T1 []) quat pos = Some None.
Proof.
  unfold visualize_lidar. destruct (decide (1 < dim (T1 []))%nat) as [Hd|_]; [|done].
  simpl in Hd. lia.
Qed.

Lemma visualize_lidar_cloud pts quat pos :
  pts ≠ [] → (length pts ≤ 2)%nat → (length pts ≤ length quat)%nat →
  (length pts ≤ length pos)%nat → Forall cloud_ok pts →
  Forall (λ q : list R, length q = 4%nat) quat →
  Forall (λ p : list R, length p = 3%nat) pos →
  is_Some (visualize_lidar (T3 pts) quat pos).
Proof.
  intros Hne Hl2 Hlq Hlp Hc Hq Hp. unfold visualize_lidar.
  destruct (decide (1 < dim (T3 pts))%nat) as [_|Hn]; [|simpl in Hn; lia].
  destruct pts as [|p0 rest] eqn:Hpts; [done|]. rw -Hpts. rw -Hpts in Hne Hl2 Hlq Hlp Hc.
  assert (size1 (T3 pts) = Some 720%nat) as ->.
  { rw Hpts /=. f_equal. rw Hpts in Hc. by inversion Hc as [|?? [? _] _]. }
  rw bind_Some_eq. destruct (decide (300 ≤ 720)%nat) as [_|Hn]; [|lia].
  destruct (quat_to_rot_matrix_ok lidar_to_robot_quat) as (rot & -> & Hlrot & Hrot).
  { done. } { repeat constructor. }
  rw bind_Some_eq.
  destruct (transform_to_robot_ok pts rot lidar_to_robot_pos) as (d1 & -> & Hld1 & Hd1);
    [by rw Hpts|by rw Hlrot|done|done|done|repeat constructor|].
  rw bind_Some_eq. cbv zeta.
  destruct (quat_to_rot_matrix_ok quat) as (rot2 & -> & Hlrot2 & Hrot2).
  { intros ->. rw Hpts /= in Hlq. lia. } { done. }
  rw bind_Some_eq.
  destruct (transform_to_robot_ok d1 rot2 pos) as (d2 & -> & Hld2 & Hd2);
    [|lia|lia|done|done|done|].
  { intros ->. rw Hpts /= in Hld1. done. }
  rw bind_Some_eq. by eexists.
Qed.

Lemma length_goal_subgoal quat pos :
  length quat = 2%nat → length pos = 2%nat →
  Forall (λ q : list R, length q = 4%nat) quat →
  Forall (λ p : list R, length p = 3%nat) pos →
  ∃ sub, relative_subgoal goal quat pos = Some sub ∧ length sub = 2%nat ∧
         Forall (λ r : list R, length r = 2%nat) sub.
Proof.
  intros Hq Hp Hq4 Hp3.
  destruct (relative_subgoal_rows goal quat pos) as (sub & Hsub & Hlen & H2 & _);
    [done|done|done|repeat constructor|done|done|].
  by exists sub.
Qed.

Lemma goal_marker_ok : is_Some (reshape2 2 3 (concat ((λ g : list R, g ++ [0]) <$> goal))).
Proof. unfold reshape2. by destruct (decide _). Qed.

Lemma cat1_rows (a b c : list (list R)) n :
  length a = n → length b = n → length c = n →
  ∃ out, cat1 a b c = Some out ∧ length out = n ∧
    ∀ i ai bi ci, a !! i = Some ai → b !! i = Some bi → c !! i = Some ci →
      out !! i = Some (ai ++ bi ++ ci).
Proof.
  intros Ha Hb Hc. unfold cat1.
  destruct (decide (length a = length b ∧ length b = length c)) as [_|Hn]; [|lia].
  eexists. split; [done|]. split.
  - rw !length_zip_with. lia.
  - intros i ai bi ci Hai Hbi Hci. by rw !lookup_zip_with Hai Hbi Hci.
Qed.

Lemma get_observations_assemble self lidar quat pos lidar_data lidar_ranges feat flag self1 sub
    marker gm obs :
  raw_lidar_process lidar = Some (lidar_data, lidar_ranges) →
  pooling_step self lidar_ranges = Some (feat, flag, self1) →
  visualize_lidar lidar_data quat pos = Some marker →
  relative_subgoal goal quat pos = Some sub →
  reshape2 (num_envs self1) 3 (concat ((λ g : list R, g ++ [0]) <$> goal)) = Some gm →
  concat_observation (num_envs self1) flag feat
    (replicate (num_envs self1) (replicate (Z.to_nat 12800) 0)) sub = Some obs →
  _get_observations self lidar quat pos
    = Some ({| policy := obs; lidar_markers := marker; goal_markers := gm |}, self1).
Proof.
  intros Hraw Hpool Hvis Hsub Hgm Hobs. unfold _get_observations.
  rw Hraw bind_Some_eq. cbv zeta. cbn [fst snd]. rw Hpool bind_Some_eq. cbn [fst snd].
  rw Hvis bind_Some_eq Hsub bind_Some_eq Hgm bind_Some_eq Hobs bind_Some_eq. done.
Qed.

(** X28.  On a tick that meets [tick_ok] (two instances, one pose per
    instance, a reading that is empty or has a point inside the band for
    each of two sensors, the stored history in step with its counter),
    [_get_observations] returns, and the policy observation has one row of
    19202 elements per instance.  When the pooling flag is [true], row [i]
    is 12800 zeros, then the 6400 pooled features of instance [i], then its
    2 subgoal components; when the flag is [false], every row is 19202
    zeros.  (On ticks outside [tick_ok] the function may raise.) *)
Theorem get_observations_shape (self : CarterEnv) (lidar : lidar_data_t)
    (root_quat_w root_pos_w : list (list R)) :
  tick_ok self lidar root_quat_w root_pos_w →
  ∃ obs self' lidar_data lidar_ranges feat flag sub,
    _get_observations self lidar root_quat_w root_pos_w = Some (obs, self') ∧
    raw_lidar_process lidar = Some (lidar_data, lidar_ranges) ∧
    pooling_step self lidar_ranges = Some (feat, flag, self') ∧
    relative_subgoal goal root_quat_w root_pos_w = Some sub ∧
    length (policy obs) = num_envs self ∧
    Forall (λ row : list R, length row = Z.to_nat 19202) (policy obs) ∧
    (flag = false →
       policy obs = replicate (num_envs self) (replicate (Z.to_nat 19202) 0)) ∧
    (flag = true →
       ∃ m, feat = T2 m ∧
         ∀ i, (i < num_envs self)%nat →
           ∃ mi si, m !! i = Some mi ∧ sub !! i = Some si ∧
             length mi = Z.to_nat 6400 ∧ length si = 2%nat ∧
             policy obs !! i = Some (replicate (Z.to_nat 12800) 0 ++ mi ++ si)).
Proof.
  intros (Hn & Hlq & Hlp & Hq & Hp & Hlidar).
  destruct (length_goal_subgoal root_quat_w root_pos_w Hlq Hlp Hq Hp) as (sub & Hsub & Hlsub & Hsub2).
  destruct goal_marker_ok as [gm Hgm].
  destruct Hlidar as [(key & fr & rest & -> & Hempty)|(Hl2 & Hframes & Hwf)].
  - (* no data this tick *)
    pose proof (raw_lidar_process_empty key fr rest Hempty) as Hraw.
    assert (pooling_step self (T1 []) = Some (T1 [], false, set_pooling self (T1 []) 0)) as Hpool.
    { unfold pooling_step, lidar_pooling. by destruct (decide (dim (T1 []) ≤ 1)%nat). }
    eexists _, _, _, _, _, _, sub. split.
    { eapply get_observations_assemble; [exact Hraw|exact Hpool|apply visualize_lidar_empty|
        exact Hsub| |reflexivity]. cbn [num_envs set_pooling]. rw Hn. exact Hgm. }
    split; [exact Hraw|]. split; [exact Hpool|]. split; [exact Hsub|].
    cbn [policy num_envs set_pooling]. split; [by rw length_replicate|].
    split; [apply Forall_replicate; by rw length_replicate|]. split; [done|]. done.
  - (* a scan for each of the two instances *)
    assert (lidar ≠ []) as Hne by (intros ->; done).
    destruct (raw_lidar_process_shapes lidar Hne Hframes) as (pts & rngs & Hraw & Hlpts & Hcloud & Hscan).
    rw Hl2 in Hlpts Hscan.
    destruct (visualize_lidar_cloud pts root_quat_w root_pos_w) as [marker Hvis];
      [by intros ->|lia|lia|lia|done|done|done|].
    pose proof (lidar_pooling_step 2 _ _ rngs (le_S _ _ (le_n 1)) Hwf Hscan) as Hstep.
    pose proof (stacked_wf 2 _ _ rngs Hwf Hscan) as Hst.
    destruct (decide (pooling_tns self = 9%Z)) as [H9|H9].
    + (* the reduction fires *)
      set (feats := (λ fr, normalize_map (pooled_grid (concat fr))) <$>
                      stacked 2 (lidar_history_data self) rngs) in *.
      assert (length feats = 2%nat) as Hlf by (by rw /feats length_fmap length_stacked).
      assert (Forall (λ r : list R, length r = Z.to_nat 6400) feats) as Hf6400.
      { apply Forall_fmap, Forall_forall. intros fr _. unfold compose.
        rw (length_normalize_map _ (is_grid_pooled _)). lia. }
      destruct (cat1_rows (replicate 2 (replicate (Z.to_nat 12800) 0)) feats sub 2)
        as (obs & Hobs & Hlobs & Hrow); [by rw length_replicate|done|done|].
      assert (pooling_step self (T2 rngs)
              = Some (T2 feats, true,
                      set_pooling self (T3 (slice 1 10 <$> stacked 2 (lidar_history_data self) rngs)) 9))
        as Hpool by (by rw /pooling_step Hstep).
      assert (∀ i, (i < 2)%nat → ∃ mi si, feats !! i = Some mi ∧ sub !! i = Some si ∧
                length mi = Z.to_nat 6400 ∧ length si = 2%nat ∧
                obs !! i = Some (replicate (Z.to_nat 12800) 0 ++ mi ++ si)) as Hrows.
      { intros i Hi.
        destruct (lookup_lt_is_Some_2 feats i) as [mi Hmi]; [lia|].
        destruct (lookup_lt_is_Some_2 sub i) as [si Hsi]; [lia|].
        exists mi, si. split; [done|]. split; [done|].
        split; [by eapply Forall_lookup_1 in Hf6400; eauto|].
        split; [by eapply Forall_lookup_1 in Hsub2; eauto|].
        apply Hrow; [|done|done]. by apply lookup_replicate_2. }
      eexists _, _, _, _, _, _, sub. split.
      { eapply get_observations_assemble; [exact Hraw|exact Hpool|exact Hvis|exact Hsub| |].
        - cbn [num_envs set_pooling]. rw Hn. exact Hgm.
        - cbn [num_envs set_pooling concat_observation]. rw Hn. exact Hobs. }
      split; [exact Hraw|]. split; [exact Hpool|]. split; [exact Hsub|].
      cbn [policy]. rw Hn. split; [done|]. split.
      { apply Forall_lookup_2. intros i row Hi.
        destruct (Hrows i) as (mi & si & _ & _ & Hlm & Hls & Hoi); [apply lookup_lt_Some in Hi; lia|].
        simplify_eq. rw !length_app length_replicate Hlm Hls. lia. }
      split; [done|]. intros _. by exists feats.
    + (* still warming up *)
      assert (pooling_step self (T2 rngs)
              = Some (T3 (stacked 2 (lidar_history_data self) rngs), false,
                      set_pooling self (T3 (stacked 2 (lidar_history_data self) rngs))
                        (pooling_tns self + 1)))
        as Hpool by (by rw /pooling_step Hstep).
      eexists _, _, _, _, _, _, sub. split.
      { eapply get_observations_assemble; [exact Hraw|exact Hpool|exact Hvis|exact Hsub| |reflexivity].
        cbn [num_envs set_pooling]. rw Hn. exact Hgm. }
      split; [exact Hraw|]. split; [exact Hpool|]. split; [exact Hsub|].
      cbn [policy num_envs set_pooling]. split; [by rw length_replicate|].
      split; [apply Forall_replicate; by rw length_replicate|]. split; [done|]. done.
Qed.

(** ** The claims at sample inputs *)

Lemma C1_pooling_reduction_witness :
  ∃ feats h',
    lidar_pooling (T3 [replicate 9 far_frame]) (T2 [far_frame]) 9
      = Some (T2 feats, true, T3 h', 9%Z) ∧ length feats = 1%nat.
Proof.
  destruct (C1_pooling_reduction 1 [replicate 9 far_frame] [far_frame])
    as (feats & h' & Hp & Hl & _).
  - lia.
  - reflexivity.
  - repeat constructor.
  - reflexivity.
  - repeat constructor.
  - exists feats, h'. split; [exact Hp|exact Hl].
Defined.

Lemma C2_sliding_window_witness :
  ∃ self',
    pool_run (__init__ 1 [1%nat] [2%nat] [] []) (T2 <$> replicate 11 [far_frame])
      = Some (replicate 9 false ++ [true; true], self') ∧ pooling_tns self' = 9%Z.
Proof.
  destruct (C2_sliding_window 1 (__init__ 1 [1%nat] [2%nat] [] []) (replicate 11 [far_frame]))
    as (self' & Hrun & Hc & _).
  - lia.
  - right. exists [[]]. repeat constructor.
  - reflexivity.
  - repeat constructor.
  - exists self'. split; [exact Hrun|exact Hc].
Defined.

Lemma C8_degenerate_scan_skipped_witness :
  lidar_pooling (T3 [[far_frame]]) (T0 3) 1 = Some (T1 [], false, T1 [], 0%Z).
Proof.
  apply (C8_degenerate_scan_skipped (T3 [[far_frame]]) (T0 3) 1 fresh_env). cbn. lia.
Defined.

Lemma C10_degenerate_restarts_warmup_witness :
  ∃ self1, pooling_step warm_env (T1 []) = Some (T1 [], false, self1) ∧
           pooling_tns self1 = 0%Z.
Proof.
  destruct (C10_degenerate_restarts_warmup warm_env (T1 [])) as (self1 & Hs & _ & Hc & _).
  - cbn. lia.
  - exists self1. split; [exact Hs|exact Hc].
Defined.

Lemma get_observations_shape_witness :
  ∃ obs self' lidar_ranges feat,
    _get_observations full_env small_reading [[1; 0; 0; 0]; [1; 0; 0; 0]] [[0; 0; 0]; [5; 0; 0]]
      = Some (obs, self') ∧
    pooling_step full_env lidar_ranges = Some (feat, true, self') ∧
    Forall (λ row : list R, length row = Z.to_nat 19202) (policy obs) ∧
    length (policy obs) = 2%nat.
Proof.
  assert (Forall (λ kv : string * lidar_frame, frame_ok kv.2) small_reading) as Hframes.
  { repeat constructor; unfold keep; cbn [lookup list_lookup];
      apply andb_true_intro; split; apply bool_decide_eq_true; unfold z_min, z_max; lra. }
  assert (wf_history 2 (lidar_history_data full_env) (pooling_tns full_env)) as Hwf.
  { split; [cbn; lia|]. split; [cbn; lia|]. repeat constructor. }
  destruct (get_observations_shape full_env small_reading
              [[1; 0; 0; 0]; [1; 0; 0; 0]] [[0; 0; 0]; [5; 0; 0]])
    as (obs & self' & ld & lr & feat & flag & sub & Hobs & Hraw & Hpool & _ & Hlen & Hrows & _).
  - split; [reflexivity|]. split; [reflexivity|]. split; [reflexivity|].
    split; [repeat constructor|]. split; [repeat constructor|]. right.
    split; [reflexivity|]. split; [exact Hframes|exact Hwf].
  - exists obs, self', lr, feat. split; [exact Hobs|].
    split; [|split; [exact Hrows|exact Hlen]].
    destruct (raw_lidar_process_shapes small_reading) as (pts & rngs & Hraw' & _ & _ & Hscan);
      [done|exact Hframes|].
    rw Hraw' in Hraw. injection Hraw as <- <-.
    assert (flag = true) as <-; [|exact Hpool].
    unfold pooling_step in Hpool.
    rw (lidar_pooling_step 2 (lidar_history_data full_env) (pooling_tns full_env) rngs)
      in Hpool; [|lia|exact Hwf|exact Hscan].
    cbn [pooling_tns full_env] in Hpool. destruct (decide (9%Z = 9%Z)); [|done].
    cbn [mbind option_bind] in Hpool. by injection Hpool as _ <- _.
Defined.

(** ** The resampling indices *)

Lemma pick_first n : pick n 0 = 0%nat.
Proof. reflexivity. Qed.

Lemma pick_last n : pick n 719 = (n - 1)%nat.
Proof. unfold pick. rw Nat.mul_comm. apply Nat.div_mul. lia. Qed.

Lemma pick_mono n k k' : (k ≤ k')%nat → (pick n k ≤ pick n k')%nat.
Proof.
  intros Hk. unfold pick. apply Nat.Div0.div_le_mono. by apply Nat.mul_le_mono_r.
Qed.

Lemma pick_step n k : (720 ≤ n)%nat → (pick n k < pick n (S k))%nat.
Proof.
  intros Hn. unfold pick.
  assert (k * (n - 1) / 719 + 1 ≤ S k * (n - 1) / 719)%nat; [|lia].
  replace (k * (n - 1) / 719 + 1)%nat with ((k * (n - 1) + 1 * 719) / 719)%nat
    by (rw Nat.div_add; lia).
  apply Nat.Div0.div_le_mono. lia.
Qed.

Lemma pick_strict n k k' : (720 ≤ n)%nat → (k < k')%nat → (pick n k < pick n k')%nat.
Proof.
  intros Hn Hk. pose proof (pick_step n k Hn). pose proof (pick_mono n (S k) k'). lia.
Qed.

Lemma pick_onto n j :
  (1 ≤ n ≤ 720)%nat → (j < n)%nat → ∃ k, (k < 720)%nat ∧ pick n k = j.
Proof.
  intros Hn Hj. destruct (decide (n = 1%nat)) as [->|Hn1].
  { exists 0%nat. split; [lia|]. rw pick_first. lia. }
  set (m := (n - 1)%nat). assert (1 ≤ m ≤ 719)%nat as Hm by lia. assert (j ≤ m)%nat as Hjm by lia.
  set (k := ((719 * j + m - 1) / m)%nat).
  pose proof (Nat.div_mod_eq (719 * j + m - 1) m) as Hdm. fold k in Hdm.
  pose proof (Nat.mod_upper_bound (719 * j + m - 1) m) as Hub.
  assert (719 * j ≤ k * m)%nat as Hlo by nia.
  assert (k * m < 719 * (j + 1))%nat as Hhi by nia.
  exists k. split; [nia|]. unfold pick. fold m.
  symmetry. apply (Nat.div_unique _ 719 j (k * m - 719 * j)); lia.
Qed.

Lemma fst_filter_zip (pts : list (list R)) (rng : list R) :
  length rng = length pts →
  (filter (λ pr : list R * R, keep pr.1 = true) (zip pts rng)).*1
    = filter (λ p, keep p = true) pts.
Proof.
  revert rng. induction pts as [|p pts IH]; intros [|r rng] Hlen; try done.
  cbn [zip zip_with]. rw !filter_cons. cbn [fst].
  destruct (decide (keep p = true)); cbn [fmap list_fmap fst]; rw IH //; simpl in Hlen; lia.
Qed.

Lemma survivors_pairs fr j p r :
  length (distance fr) = length (data fr) →
  survivors fr !! j = Some p → surviving_ranges fr !! j = Some r →
  ∃ i, data fr !! i = Some p ∧ distance fr !! i = Some r ∧ keep p = true.
Proof.
  intros Hlen Hp Hr. unfold survivors, surviving_ranges in *.
  rw -(fst_filter_zip (data fr) (distance fr) Hlen) in Hp.
  set (F := filter (λ pr : list R * R, keep pr.1 = true) (zip (data fr) (distance fr))) in *.
  apply lookup_take_Some in Hp as [Hp _]. apply lookup_take_Some in Hr as [Hr _].
  rw list_lookup_fmap in Hp. rw list_lookup_fmap in Hr.
  destruct (F !! j) as [[p' r']|] eqn:HF; [|done]. simpl in Hp, Hr. simplify_eq.
  apply list_elem_of_lookup_2 in HF. apply list_elem_of_filter in HF as [Hk Hz].
  apply list_elem_of_lookup_1 in Hz as [i Hi].
  apply lookup_zip_with_Some in Hi as (p' & r' & Heq & Hpi & Hri). simplify_eq.
  by exists i.
Qed.

Lemma keep_band p : keep p = true → ∃ z, p !! 2%nat = Some z ∧ z_min <= z <= z_max.
Proof.
  unfold keep. destruct (p !! 2%nat) as [z|]; [|done].
  intros [H1 H2]%andb_true_iff. apply bool_decide_eq_true in H1, H2. by exists z.
Qed.

(** X1.  On a reading whose sensors each see a point inside the band,
    [raw_lidar_process] returns one cloud of 720 points and one row of 720
    ranges per sensor, and every returned point comes with its own range:
    output position k of sensor j holds a point and a range that stand at
    one and the same position of that sensor's input, and the point lies
    inside the z band. *)
Theorem raw_lidar_process_pairs (lidar : lidar_data_t) :
  lidar ≠ [] → Forall (λ kv, frame_ok kv.2) lidar →
  ∃ pts rngs, raw_lidar_process lidar = Some (T3 pts, T2 rngs) ∧
    length pts = length lidar ∧ length rngs = length lidar ∧
    ∀ j key fr k, lidar !! j = Some (key, fr) → (k < 720)%nat →
      ∃ pk rk i z, pts !! j ≫= (.!! k) = Some pk ∧ rngs !! j ≫= (.!! k) = Some rk ∧
        data fr !! i = Some pk ∧ distance fr !! i = Some rk ∧
        pk !! 2%nat = Some z ∧ z_min <= z <= z_max.
Proof.
  intros Hne Hall.
  destruct (raw_lidar_process_ok lidar Hne Hall) as (pts & rngs & Hrun & Hlp & Hlr & Hrows).
  exists pts, rngs. split; [done|]. split; [done|]. split; [done|].
  intros j key fr k Hj Hk.
  destruct (Hrows j key fr Hj) as (p & r & Hp & Hr & _ & _ & Hcell).
  destruct (Hcell k Hk) as (pk & rk & Hpk & Hrk & Hs & Hsr).
  eapply Forall_lookup_1 in Hall; [|exact Hj]. destruct Hall as (_ & Hlen & _). cbn [snd] in Hlen.
  destruct (survivors_pairs fr _ pk rk Hlen Hs Hsr) as (i & Hdi & Hri & Hkeep).
  destruct (keep_band pk Hkeep) as (z & Hz & Hband).
  exists pk, rk, i, z. rw Hp Hr. done.
Qed.

Lemma small_reading_ok : Forall (λ kv : string * lidar_frame, frame_ok kv.2) small_reading.
Proof.
  repeat constructor; unfold keep; cbn [lookup list_lookup];
    apply andb_true_intro; split; apply bool_decide_eq_true; unfold z_min, z_max; lra.
Qed.

Lemma raw_lidar_process_pairs_witness :
  ∃ pts rngs, raw_lidar_process small_reading = Some (T3 pts, T2 rngs) ∧
    length pts = length small_reading ∧ length rngs = length small_reading ∧
    ∀ j key fr k, small_reading !! j = Some (key, fr) → (k < 720)%nat →
      ∃ pk rk i z, pts !! j ≫= (.!! k) = Some pk ∧ rngs !! j ≫= (.!! k) = Some rk ∧
        data fr !! i = Some pk ∧ distance fr !! i = Some rk ∧
        pk !! 2%nat = Some z ∧ z_min <= z <= z_max.
Proof.
  apply (raw_lidar_process_pairs small_reading); [done|apply small_reading_ok].
Defined.

(** X2.  The 720 outputs of one sensor are an order-preserving
    resampling of its in-band points: there is a non-decreasing selection
    of input positions that starts at the first in-band point and ends at
    the last one kept, reads points and ranges at the same positions,
    never reads a position twice when there are 720 in-band points or more,
    and reads every position when there are 720 or fewer. *)
Theorem process_key_resamples (fr : lidar_frame) :
  frame_ok fr →
  ∃ pts rngs (sel : nat → nat),
    process_key fr = Some (pts, rngs) ∧
    (∀ k, (k < 720)%nat →
       is_Some (pts !! k) ∧ pts !! k = survivors fr !! sel k ∧
       rngs !! k = surviving_ranges fr !! sel k) ∧
    sel 0%nat = 0%nat ∧ sel 719%nat = (length (survivors fr) - 1)%nat ∧
    (∀ k k', (k ≤ k')%nat → (sel k ≤ sel k')%nat) ∧
    ((720 ≤ length (survivors fr))%nat → ∀ k k', (k < k')%nat → (sel k < sel k')%nat) ∧
    ((length (survivors fr) ≤ 720)%nat →
       ∀ i, (i < length (survivors fr))%nat → ∃ k, (k < 720)%nat ∧ sel k = i).
Proof.
  intros Hok. destruct (process_key_ok fr Hok) as (pts & rngs & Hrun & _ & _ & Hcell).
  exists pts, rngs, (pick (length (survivors fr))). split; [done|].
  split; [|split; [apply pick_first|split; [apply pick_last|split; [apply pick_mono|split]]]].
  - intros k Hk. destruct (Hcell k Hk) as (p & r & -> & -> & -> & ->). by split; [eexists|].
  - intros Hn k k' Hkk. by apply pick_strict.
  - intros Hn i Hi. apply pick_onto; lia.
Qed.

Lemma small_frame_ok : frame_ok small_frame.
Proof.
  repeat constructor; unfold keep; cbn [lookup list_lookup];
    apply andb_true_intro; split; apply bool_decide_eq_true; unfold z_min, z_max; lra.
Qed.

Lemma process_key_resamples_witness :
  ∃ pts rngs (sel : nat → nat),
    process_key small_frame = Some (pts, rngs) ∧
    (∀ k, (k < 720)%nat →
       is_Some (pts !! k) ∧ pts !! k = survivors small_frame !! sel k ∧
       rngs !! k = surviving_ranges small_frame !! sel k) ∧
    sel 0%nat = 0%nat ∧ sel 719%nat = (length (survivors small_frame) - 1)%nat ∧
    (∀ k k', (k ≤ k')%nat → (sel k ≤ sel k')%nat) ∧
    ((720 ≤ length (survivors small_frame))%nat →
       ∀ k k', (k < k')%nat → (sel k < sel k')%nat) ∧
    ((length (survivors small_frame) ≤ 720)%nat →
       ∀ i, (i < length (survivors small_frame))%nat →
         ∃ k, (k < 720)%nat ∧ sel k = i).
Proof.
  apply (process_key_resamples small_frame). apply small_frame_ok.
Defined.

(** X3.  A sensor with exactly 720 in-band points is passed through
    unchanged: the outputs are the in-band points and their ranges, in
    order. *)
Theorem process_key_identity_720 (fr : lidar_frame) :
  frame_ok fr → length (survivors fr) = 720%nat →
  process_key fr = Some (survivors fr, surviving_ranges fr).
Proof.
  intros Hok Hn. destruct (process_key_ok fr Hok) as (pts & rngs & -> & Hlp & Hlr & Hcell).
  destruct Hok as (_ & Hlen & _).
  assert (∀ k, pick 720 k = k) as Hpick.
  { intros k. unfold pick. change (720 - 1)%nat with 719%nat. apply Nat.div_mul. lia. }
  do 2 f_equal.
  - apply list_eq. intros k. destruct (decide (k < 720)%nat) as [Hk|Hk].
    + destruct (Hcell k Hk) as (p & r & -> & _ & Hs & _). by rw Hn Hpick in Hs.
    + rw !lookup_ge_None_2 //; lia.
  - apply list_eq. intros k. destruct (decide (k < 720)%nat) as [Hk|Hk].
    + destruct (Hcell k Hk) as (p & r & _ & -> & _ & Hs). by rw Hn Hpick in Hs.
    + rw !lookup_ge_None_2 //; rw ?length_survivors //; lia.
Qed.

Lemma keep_sample : keep [1; 0; 0] = true.
Proof.
  unfold keep; cbn [lookup list_lookup].
  apply andb_true_intro; split; apply bool_decide_eq_true; unfold z_min, z_max; lra.
Qed.

Lemma filter_replicate {A} (P : A → Prop) `{!∀ x, Decision (P x)} n (x : A) :
  P x → filter P (replicate n x) = replicate n x.
Proof.
  intros Hx. induction n as [|n IH]; [done|]. cbn [replicate]. rw filter_cons.
  destruct (decide (P x)); [|done]. by rw IH.
Qed.

Lemma ring_frame_ok : frame_ok ring_frame.
Proof.
  split; [|split].
  - by apply Forall_replicate.
  - unfold ring_frame. cbn [data distance]. by rw !length_replicate.
  - change (data ring_frame) with ([1; 0; 0] :: replicate 719 [1; 0; 0]).
    apply Exists_cons_hd, keep_sample.
Qed.

Lemma ring_frame_survivors : length (survivors ring_frame) = 720%nat.
Proof.
  unfold survivors, ring_frame. cbn [data].
  rw filter_replicate; [|apply keep_sample]. rw length_take length_replicate. lia.
Qed.

Lemma process_key_identity_720_witness :
  process_key ring_frame = Some (survivors ring_frame, surviving_ranges ring_frame).
Proof.
  apply (process_key_identity_720 ring_frame); [apply ring_frame_ok|apply ring_frame_survivors].
Defined.

(** ** The tutorial's preprocessing *)

(** X4.  The tutorial's [lidar_process] and the task's per-sensor
    preprocessing agree on the first sensor whenever at most 950 of its
    points lie inside the band: they return the same arrays, or both
    raise. *)
Theorem lidar_process_agrees (key : string) (fr : lidar_frame) (rest : lidar_data_t) :
  Forall (λ p : list R, length p = 3%nat) (data fr) →
  length (distance fr) = length (data fr) →
  (length (filter (λ p, keep p = true) (data fr)) ≤ 950)%nat →
  create_scene_carter.lidar_process ((key, fr) :: rest) = process_key fr.
Proof.
  intros H3 Hlen Hn. rw process_key_filtered //. cbv zeta.
  unfold create_scene_carter.lidar_process.
  change (head ((key, fr) :: rest)) with (Some (key, fr)). rw bind_Some_eq. cbn [snd].
  destruct (z_data_mask (data fr) H3) as (zs & -> & Hmask). rw bind_Some_eq.
  rw Hmask. rw masked_keep. rw masked_keep_ranges; [|done].
  rw fmap_Some_eq. rw bind_Some_eq. rw bind_Some_eq.
  assert (∀ {A} (l : list A), (length l ≤ 950)%nat → slice 0 950 l = take 970 l) as Hs.
  { intros A l Hl. unfold slice. rw drop_0. change (950 - 0)%nat with 950%nat.
    rw !take_ge //; lia. }
  rw !Hs; [|by rw ?length_filter_zip..].
  reflexivity.
Qed.

Lemma lidar_process_agrees_witness :
  create_scene_carter.lidar_process [("lidar"%string, small_frame)] = process_key small_frame.
Proof.
  apply (lidar_process_agrees "lidar" small_frame []).
  - repeat constructor.
  - reflexivity.
  - pose proof (length_filter (λ p, keep p = true) (data small_frame)) as H.
    cbn [small_frame data length] in *. lia.
Defined.

(** X5.  The two preprocessors differ on a reading whose first sensor
    has no points: the task's [raw_lidar_process] returns the pair of empty
    tensors, the tutorial's [lidar_process] has no such test and raises. *)
Theorem lidar_process_empty_raises (key : string) (fr : lidar_frame) (rest : lidar_data_t) :
  data fr = [] →
  create_scene_carter.lidar_process ((key, fr) :: rest) = None ∧
  raw_lidar_process ((key, fr) :: rest) = Some (T1 [], T1 []).
Proof.
  intros Hd. split; [|by apply raw_lidar_process_empty].
  unfold create_scene_carter.lidar_process.
  change (head ((key, fr) :: rest)) with (Some (key, fr)). rw bind_Some_eq. cbn [snd].
  rw Hd. cbn [mapM]. rw bind_Some_eq. cbn [fmap list_fmap].
  assert (masked (@nil (list R)) [] = Some []) as -> by done.
  rw fmap_Some_eq bind_Some_eq.
  destruct (masked (distance fr) []) as [rng|]; [|done].
  rw fmap_Some_eq bind_Some_eq.
  assert (slice 0 950 (@nil (list R)) = []) as -> by done.
  change (length (@nil (list R))) with 0%nat. by rw gather_empty.
Qed.

Lemma lidar_process_empty_raises_witness :
  create_scene_carter.lidar_process [("lidar"%string, LidarFrame [] [])] = None ∧
  raw_lidar_process [("lidar"%string, LidarFrame [] [])] = Some (T1 [], T1 []).
Proof.
  apply (lidar_process_empty_raises "lidar" (LidarFrame [] []) []). reflexivity.
Defined.

(** ** More on the differential-drive solver *)

Lemma differential_drive_body_Some row :
  is_Some (differential_drive_body row) ↔ (2 ≤ length row)%nat.
Proof.
  destruct row as [|vx [|wf rest]].
  - split; [intros [? ?]; done|simpl; lia].
  - split; [intros [? ?]; done|simpl; lia].
  - rw differential_drive_body_eq. split; [simpl; lia|by eexists].
Qed.

Lemma length_differential_drive_body row out :
  differential_drive_body row = Some out → length out = 7%nat.
Proof.
  destruct row as [|vx [|wf rest]]; [done..|]. rw differential_drive_body_eq. by intros [= <-].
Qed.

Lemma stack_is_Some {A} (l out : list (list A)) : stack l = Some out → l ≠ [] ∧ out = l.
Proof.
  unfold stack. destruct l as [|x l']; [done|]. case_decide; [|done]. by intros [= <-].
Qed.

(** X6.  The solver returns exactly on the batches that have at least
    one command and in which every command has its two entries; on every
    other batch it raises. *)
Theorem differential_drive_solver_returns_iff (actions : list (list R)) :
  is_Some (differential_drive_solver actions) ↔
  actions ≠ [] ∧ Forall (λ row : list R, (2 ≤ length row)%nat) actions.
Proof.
  unfold differential_drive_solver. split.
  - intros [out Hout]. apply bind_Some in Hout as (rows & Hrows & Hst).
    apply stack_is_Some in Hst as [Hne ->]. apply mapM_Some_1 in Hrows. split.
    + intros ->. apply Forall2_nil_inv_l in Hrows. done.
    + apply Forall_lookup_2. intros i row Hi.
      destruct (Forall2_lookup_l _ _ _ _ _ Hrows Hi) as (y & _ & Hy).
      apply differential_drive_body_Some. by eexists.
  - intros [Hne Hall].
    destruct (mapM_rows differential_drive_body actions) as (out & -> & Hlen & Hrow).
    { eapply Forall_impl; [exact Hall|]. intros row Hl. by apply differential_drive_body_Some. }
    rw bind_Some_eq. rw (stack_Some out 7); [by eexists| |].
    + intros ->. by destruct actions.
    + apply Forall_lookup_2. intros i o Hi.
      destruct (lookup_lt_is_Some_2 actions i) as [a Ha]; [apply lookup_lt_Some in Hi; lia|].
      rw (Hrow _ _ Ha) in Hi. by eapply length_differential_drive_body.
Qed.

Lemma differential_drive_solver_rows actions out :
  differential_drive_solver actions = Some out →
  length out = length actions ∧
  ∀ i row, actions !! i = Some row → out !! i = differential_drive_body row.
Proof.
  unfold differential_drive_solver. intros (rows & Hrows & Hst)%bind_Some.
  apply stack_is_Some in Hst as [_ ->]. apply mapM_Some_1 in Hrows.
  split; [symmetry; by eapply Forall2_length|].
  intros i row Hi. destruct (Forall2_lookup_l _ _ _ _ _ Hrows Hi) as (y & Hy & Hf). by rw Hy Hf.
Qed.

(** X7.  The command can be read back from the targets: whenever the
    solver returns, the row of command (vx, wf) is [0, pl, pr, 0, 0, 0, 0]
    with vx = (pl + pr) / 210 and wf = (pr - pl) / 43.386.  So the two
    wheels get the same target exactly when the command does not turn, and
    opposite targets exactly when it does not advance. *)
Theorem differential_drive_solver_inverse (actions out : list (list R)) :
  differential_drive_solver actions = Some out →
  ∀ i vx wf rest, actions !! i = Some (vx :: wf :: rest) →
    ∃ pl pr, out !! i = Some [0; pl; pr; 0; 0; 0; 0] ∧
      vx = (pl + pr) / 210 ∧ wf = (pr - pl) / 43.386 ∧
      (pl = pr ↔ wf = 0) ∧ (pl = - pr ↔ vx = 0).
Proof.
  intros Hrun i vx wf rest Hi.
  destruct (differential_drive_solver_rows _ _ Hrun) as [_ Hrows].
  rw (Hrows _ _ Hi) differential_drive_body_eq. eexists _, _. split; [done|].
  unfold system_gain, base_width, motor_scale, joint_base.
  split; [lra|]. split; [lra|]. split; split; intros; lra.
Qed.

Lemma differential_drive_solver_inverse_witness :
  ∃ pl pr, [[0; 63.3465; 41.6535; 0; 0; 0; 0]] !! 0%nat = Some [0; pl; pr; 0; 0; 0; 0] ∧
      0.5 = (pl + pr) / 210 ∧ -0.5 = (pr - pl) / 43.386 ∧
      (pl = pr ↔ -0.5 = 0) ∧ (pl = - pr ↔ 0.5 = 0).
Proof.
  apply (differential_drive_solver_inverse [[0.5; -0.5]] [[0; 63.3465; 41.6535; 0; 0; 0; 0]])
    with (rest := []); [|reflexivity].
  unfold differential_drive_solver. cbn [mapM]. rw differential_drive_body_eq.
  cbn [mbind option_bind mret option_ret fmap option_fmap option_map].
  unfold stack. case_decide as Hd; [|exfalso; apply Hd; by repeat constructor].
  unfold system_gain, base_width, motor_scale, joint_base.
  assert (1.25 * ((0.5 - -0.5 * 0.4132 / 2) / 0.5) * 42 = 63.3465) as -> by lra.
  assert (1.25 * ((0.5 + -0.5 * 0.4132 / 2) / 0.5) * 42 = 41.6535) as -> by lra.
  reflexivity.
Defined.

Lemma mapM_scaled {A B} (f : A → option B) (g : A → A) (h : B → B) (l : list A) :
  (∀ x, f (g x) = h <$> f x) → mapM f (g <$> l) = (λ m : list B, h <$> m) <$> mapM f l.
Proof.
  intros Hfg. induction l as [|x l IH]; [done|].
  rw fmap_cons. cbn [mapM]. rw Hfg IH.
  destruct (f x) as [y|]; [|done]. cbn. by destruct (mapM f l).
Qed.

Lemma stack_scaled s (l : list (list R)) : stack (scaled s l) = scaled s <$> stack l.
Proof.
  unfold stack, scaled. destruct l as [|x l']; [done|]. rw fmap_cons.
  destruct (decide (Forall (λ y, length y = length x) (x :: l'))) as [Hl|Hl].
  - rw decide_True; [done|]. rw -fmap_cons. apply Forall_fmap.
    eapply Forall_impl; [exact Hl|]. intros y Hy. unfold compose. by rw !length_fmap.
  - rw decide_False; [done|]. intros Hn. apply Hl. rw -fmap_cons in Hn.
    apply Forall_fmap in Hn. eapply Forall_impl; [exact Hn|].
    intros y Hy. unfold compose in Hy. by rw !length_fmap in Hy.
Qed.

Lemma differential_drive_body_scaled s row :
  differential_drive_body ((λ a, s * a) <$> row)
    = (λ o : list R, (λ a, s * a) <$> o) <$> differential_drive_body row.
Proof.
  destruct row as [|vx [|wf rest]]; [done..|].
  rw !fmap_cons !differential_drive_body_eq. cbn [fmap option_fmap option_map list_fmap].
  unfold system_gain, base_width, motor_scale, joint_base.
  apply (f_equal Some). repeat (apply (f_equal2 cons); [lra|]). reflexivity.
Qed.

(** X8.  Scaling commutes with the solver: the targets that
    [_apply_action] computes after [_pre_physics_step] are the targets of
    the raw policy actions, each multiplied by the action scale; the two
    steps raise on the same batches. *)
Theorem pre_physics_then_apply_action (self : CarterEnv) (acts : list (list R)) :
  _apply_action (_pre_physics_step self acts)
    = scaled (action_scale self) <$> differential_drive_solver acts.
Proof.
  unfold _apply_action, _pre_physics_step, set_actions. cbn [actions].
  unfold differential_drive_solver.
  rw (mapM_scaled differential_drive_body (λ row : list R, (λ a, action_scale self * a) <$> row)
        (λ o : list R, (λ a, action_scale self * a) <$> o));
    [|apply differential_drive_body_scaled].
  destruct (mapM differential_drive_body acts) as [rows|]; [|done].
  rw fmap_Some_eq !bind_Some_eq. apply stack_scaled.
Qed.

(** X9.  The tutorial's scalar solver and the task's batched solver are
    the same map: on the batch of one command (vx, wf) the task's solver
    returns the effort tensor that the tutorial builds from its pair
    (pl, pr). *)
Theorem tutorial_solver_agrees (vx wf : R) :
  differential_drive_solver [[vx; wf]] = Some (create_scene_carter.efforts vx wf).
Proof.
  unfold differential_drive_solver. cbn [mapM]. rw differential_drive_body_eq.
  cbn [mbind option_bind mret option_ret fmap option_fmap option_map].
  unfold stack. case_decide as Hd; [|exfalso; apply Hd; by repeat constructor].
  unfold create_scene_carter.efforts, create_scene_carter.differential_drive_solver.
  apply (f_equal Some). apply (f_equal2 cons); [|reflexivity].
  repeat (apply (f_equal2 cons); [lra|]). reflexivity.
Qed.

(** ** Rigid motions *)

Lemma quat_to_rot_matrix_rows quat rot :
  quat_to_rot_matrix quat = Some rot →
  ∀ i r, rot !! i = Some r →
    ∃ w x y z, quat !! i = Some [w; x; y; z] ∧
      r = rot_of (w / norm [w; x; y; z]) (x / norm [w; x; y; z])
                 (y / norm [w; x; y; z]) (z / norm [w; x; y; z]).
Proof.
  unfold quat_to_rot_matrix. intros (rows & Hrows & Hst)%bind_Some.
  apply stack2_is_Some in Hst as [_ ->]. apply mapM_Some_1 in Hrows.
  intros i r Hi. destruct (Forall2_lookup_r _ _ _ _ _ Hrows Hi) as (q & Hq & Hf).
  destruct q as [|w [|x [|y [|z [|]]]]]; try done.
  cbn [fmap list_fmap] in Hf. exists w, x, y, z. split; [done|]. by simplify_eq.
Qed.

Lemma transform_to_robot_rows data rot trans out :
  transform_to_robot data rot trans = Some out →
  ∀ i o, out !! i = Some o →
    ∃ d r t, data !! i = Some d ∧ rot !! i = Some r ∧ trans !! i = Some t ∧
      ∀ k q, o !! k = Some q →
        ∃ p, d !! k = Some p ∧ length p = 3%nat ∧
             bcast1 Rplus ((λ rk, dot p rk) <$> r) t = Some q.
Proof.
  unfold transform_to_robot. intros (rows & Hrows & Hst)%bind_Some.
  apply stack2_is_Some in Hst as [_ ->]. apply mapM_Some_1 in Hrows.
  intros i o Hi. destruct (Forall2_lookup_r _ _ _ _ _ Hrows Hi) as (j & Hj & Hf).
  apply lookup_seq in Hj as [-> _]. cbn [Nat.add] in Hf.
  apply bind_Some in Hf as (d & Hd & Hf). apply bind_Some in Hf as (r & Hr & Hf).
  apply bind_Some in Hf as (t & Ht & Hf). apply bind_Some in Hf as (dr & Hdr & Hf).
  exists d, r, t. split; [done|]. split; [done|]. split; [done|].
  unfold mm_t in Hdr. case_decide as H3; [|done]. simplify_eq.
  apply mapM_Some_1 in Hf. intros k q Hk.
  destruct (Forall2_lookup_r _ _ _ _ _ Hf Hk) as (pr & Hpr & Hq).
  rw list_lookup_fmap in Hpr. destruct (d !! k) as [p|] eqn:Hp; [|done].
  simpl in Hpr. simplify_eq. exists p. split; [done|]. split; [|done].
  by eapply Forall_lookup_1 in H3.
Qed.

Lemma norm4_sq w x y z :
  norm [w; x; y; z] * norm [w; x; y; z] = w * w + x * x + y * y + z * z.
Proof.
  unfold norm. cbn [fmap list_fmap Rsum foldr]. rw sqrt_sqrt; [lra|nra].
Qed.

Lemma norm4_nonzero w x y z :
  Exists (λ a, a ≠ 0) [w; x; y; z] → norm [w; x; y; z] ≠ 0.
Proof.
  intros Hex Hn. pose proof (norm4_sq w x y z) as Hs. rw Hn in Hs.
  assert (w = 0 ∧ x = 0 ∧ y = 0 ∧ z = 0) as (-> & -> & -> & ->) by (repeat split; nra).
  repeat (apply Exists_cons in Hex as [Hex|Hex]; [done|]). by apply Exists_nil in Hex.
Qed.

Lemma unit_quaternion w x y z :
  norm [w; x; y; z] ≠ 0 →
  let n := norm [w; x; y; z] in
  (w / n) * (w / n) + (x / n) * (x / n) + (y / n) * (y / n) + (z / n) * (z / n) = 1.
Proof.
  intros Hn n. pose proof (norm4_sq w x y z) as Hs. fold n in Hs, Hn.
  replace (w / n * (w / n) + x / n * (x / n) + y / n * (y / n) + z / n * (z / n))
    with ((w * w + x * x + y * y + z * z) / (n * n)) by (field; done).
  rw -Hs. field. done.
Qed.

Lemma rot_isometry W X Y Z u v w :
  W * W + X * X + Y * Y + Z * Z = 1 →
  (u * (1 - 2*Y*Y - 2*Z*Z) + v * (2*X*Y - 2*W*Z) + w * (2*X*Z + 2*W*Y)) *
  (u * (1 - 2*Y*Y - 2*Z*Z) + v * (2*X*Y - 2*W*Z) + w * (2*X*Z + 2*W*Y)) +
  (u * (2*X*Y + 2*W*Z) + v * (1 - 2*X*X - 2*Z*Z) + w * (2*Y*Z - 2*W*X)) *
  (u * (2*X*Y + 2*W*Z) + v * (1 - 2*X*X - 2*Z*Z) + w * (2*Y*Z - 2*W*X)) +
  (u * (2*X*Z - 2*W*Y) + v * (2*Y*Z + 2*W*X) + w * (1 - 2*X*X - 2*Y*Y)) *
  (u * (2*X*Z - 2*W*Y) + v * (2*Y*Z + 2*W*X) + w * (1 - 2*X*X - 2*Y*Y))
  = u * u + v * v + w * w.
Proof.
  intros H.
  replace (1 - 2*Y*Y - 2*Z*Z) with (W*W + X*X - Y*Y - Z*Z) by lra.
  replace (1 - 2*X*X - 2*Z*Z) with (W*W - X*X + Y*Y - Z*Z) by lra.
  replace (1 - 2*X*X - 2*Y*Y) with (W*W - X*X - Y*Y + Z*Z) by lra.
  transitivity ((W * W + X * X + Y * Y + Z * Z) * (W * W + X * X + Y * Y + Z * Z)
                * (u * u + v * v + w * w)); [ring|]. rw H. ring.
Qed.

Lemma transformed_dist W X Y Z (p p' t q q' : list R) :
  W * W + X * X + Y * Y + Z * Z = 1 →
  length p = 3%nat → length p' = 3%nat → length t = 3%nat →
  bcast1 Rplus ((λ rk, dot p rk) <$> rot_of W X Y Z) t = Some q →
  bcast1 Rplus ((λ rk, dot p' rk) <$> rot_of W X Y Z) t = Some q' →
  dist q q' = dist p p'.
Proof.
  intros H Hp Hp' Ht Hq Hq'.
  destruct p as [|a [|b [|c [|]]]]; try done. destruct p' as [|a' [|b' [|c' [|]]]]; try done.
  destruct t as [|t1 [|t2 [|t3 [|]]]]; try done.
  unfold bcast1, rot_of in Hq, Hq'. cbn [fmap list_fmap length] in Hq, Hq'.
  destruct (decide (3 = 3)%nat); [|done].
  cbn [zip_with dot Rsum foldr] in Hq, Hq'. simplify_eq.
  unfold dist, norm. cbn [zip_with fmap list_fmap Rsum foldr]. f_equal.
  transitivity ((a - a') * (a - a') + (b - b') * (b - b') + (c - c') * (c - c')); [|ring].
  rw -(rot_isometry W X Y Z (a - a') (b - b') (c - c') H). ring.
Qed.

(** X10.  The frame transform is a rigid motion.  For clouds of 720
    points, quaternions that are not zero and translations with three
    entries, [quat_to_rot_matrix] and [transform_to_robot] return, and the
    distance between any two points of a cloud is the same after the
    transform as before it. *)
Theorem transform_to_robot_rigid (quat : list (list R)) (data : list (list (list R)))
    (trans : list (list R)) :
  data ≠ [] → (length data ≤ length quat)%nat → (length data ≤ length trans)%nat →
  Forall cloud_ok data →
  Forall (λ q : list R, length q = 4%nat ∧ Exists (λ a, a ≠ 0) q) quat →
  Forall (λ t : list R, length t = 3%nat) trans →
  ∃ rot out, quat_to_rot_matrix quat = Some rot ∧
    transform_to_robot data rot trans = Some out ∧ length out = length data ∧
    ∀ i k k' p p',
      data !! i ≫= (.!! k) = Some p → data !! i ≫= (.!! k') = Some p' →
      ∃ q q', out !! i ≫= (.!! k) = Some q ∧ out !! i ≫= (.!! k') = Some q' ∧
              dist q q' = dist p p'.
Proof.
  intros Hne Hlq Hlt Hd Hq Ht.
  destruct (quat_to_rot_matrix_ok quat) as (rot & Hrot & Hlrot & Hrot3).
  { intros ->. destruct data; [done|simpl in Hlq; lia]. }
  { eapply Forall_impl; [exact Hq|]. by intros q [? _]. }
  destruct (transform_to_robot_ok data rot trans) as (out & Hout & Hlout & Hcl);
    [done|lia|done|done|done|done|].
  exists rot, out. split; [done|]. split; [done|]. split; [done|].
  intros i k k' p p' Hp Hp'.
  apply bind_Some in Hp as (d & Hd1 & Hp). apply bind_Some in Hp' as (d' & Hd2 & Hp').
  assert (d' = d) as -> by congruence.
  destruct (lookup_lt_is_Some_2 out i) as [o Ho]; [apply lookup_lt_Some in Hd1; lia|].
  eapply Forall_lookup_1 in Hcl as [Ho720 _]; [|exact Ho].
  pose proof (Forall_lookup_1 _ _ _ _ Hd Hd1) as [Hd720 _].
  destruct (lookup_lt_is_Some_2 o k) as [q Hqk]; [apply lookup_lt_Some in Hp; lia|].
  destruct (lookup_lt_is_Some_2 o k') as [q' Hqk']; [apply lookup_lt_Some in Hp'; lia|].
  exists q, q'. rw Ho !bind_Some_eq. split; [done|]. split; [done|].
  destruct (transform_to_robot_rows _ _ _ _ Hout i o Ho) as (d0 & r & t & Hd0 & Hr & Hti & Hpts).
  assert (d0 = d) as -> by congruence.
  destruct (Hpts k q Hqk) as (p0 & Hp0 & Hl0 & Hb0).
  destruct (Hpts k' q' Hqk') as (p0' & Hp0' & Hl0' & Hb0').
  assert (p0 = p) as -> by congruence. assert (p0' = p') as -> by congruence.
  destruct (quat_to_rot_matrix_rows _ _ Hrot i r Hr) as (w & x & y & z & Hqi & ->).
  eapply Forall_lookup_1 in Hq as [_ Hnz]; [|exact Hqi].
  eapply Forall_lookup_1 in Ht; [|exact Hti].
  eapply transformed_dist; [|exact Hl0|exact Hl0'|exact Ht|exact Hb0|exact Hb0'].
  by apply unit_quaternion, norm4_nonzero.
Qed.

Lemma transform_to_robot_rigid_witness :
  ∃ rot out, quat_to_rot_matrix [[0; 0; 0; 2]] = Some rot ∧
    transform_to_robot [two_point_cloud] rot [[0.026; 0; 0.418]] = Some out ∧
    ∃ q q', out !! 0%nat ≫= (.!! 0%nat) = Some q ∧ out !! 0%nat ≫= (.!! 1%nat) = Some q' ∧
            dist q q' = dist [3; 4; 0] [1; 0; 0].
Proof.
  destruct (transform_to_robot_rigid [[0; 0; 0; 2]] [two_point_cloud] [[0.026; 0; 0.418]])
    as (rot & out & Hrot & Hout & _ & Hd).
  - discriminate.
  - simpl. lia.
  - simpl. lia.
  - repeat constructor.
  - constructor; [|constructor]. split; [reflexivity|].
    do 3 apply Exists_cons_tl. apply Exists_cons_hd. lra.
  - repeat constructor.
  - exists rot, out. split; [exact Hrot|]. split; [exact Hout|].
    apply (Hd 0%nat 0%nat 1%nat); reflexivity.
Defined.

(** X11.  [goal_rotate] is a rotation of the first two entries of the
    row: it returns on every row with at least two entries, leaves the
    other entries alone, keeps the length of the vector, and is undone by
    the rotation through the opposite angle. *)
Theorem goal_rotate_round_trip (angle : R) (row : list R) :
  (2 ≤ length row)%nat →
  ∃ row', goal_rotate angle row = Some row' ∧
    goal_rotate (- angle) row' = Some row ∧
    drop 2 row' = drop 2 row ∧
    ∃ g0 g1 x y, take 2 row = [g0; g1] ∧ take 2 row' = [x; y] ∧
      x * x + y * y = g0 * g0 + g1 * g1.
Proof.
  intros Hl. destruct row as [|g0 [|g1 rest]]; [simpl in Hl; lia..|].
  unfold goal_rotate. cbn [lookup list_lookup mbind option_bind list_insert insert].
  eexists. split; [reflexivity|].
  pose proof (sin2_cos2 angle) as Hsc. unfold Rsqr in Hsc.
  split; [|split; [reflexivity|]].
  - rw cos_neg sin_neg. apply (f_equal Some).
    apply (f_equal2 cons).
    { transitivity (g0 * (sin angle * sin angle + cos angle * cos angle)); [ring|].
      rw Hsc. ring. }
    apply (f_equal2 cons); [|reflexivity].
    transitivity (g1 * (sin angle * sin angle + cos angle * cos angle)); [ring|].
    rw Hsc. ring.
  - eexists _, _, _, _. split; [reflexivity|]. split; [reflexivity|].
    transitivity ((g0 * g0 + g1 * g1) * (sin angle * sin angle + cos angle * cos angle)); [ring|].
    rw Hsc. ring.
Qed.

Lemma goal_rotate_round_trip_witness :
  ∃ row', goal_rotate (PI / 2) [-5; -2] = Some row' ∧
    goal_rotate (- (PI / 2)) row' = Some [-5; -2].
Proof.
  destruct (goal_rotate_round_trip (PI / 2) [-5; -2]) as (row' & H1 & H2 & _).
  - simpl. lia.
  - exists row'. split; [exact H1|exact H2].
Defined.

(** X12.  On a batch of one robot the task's batched frame functions
    are the tutorial's single-robot ones: same matrix, same transformed
    cloud, and they raise on the same inputs. *)
Theorem tutorial_transform_agrees (quat : list R) (data rot : list (list R)) (trans : list R) :
  quat_to_rot_matrix [quat]
    = (λ m, [m]) <$> create_scene_carter.quat_to_rot_matrix quat ∧
  transform_to_robot [data] [rot] [trans]
    = (λ o, [o]) <$> create_scene_carter.transform_to_robot data rot trans.
Proof.
  split.
  - unfold quat_to_rot_matrix, create_scene_carter.quat_to_rot_matrix. cbn [mapM].
    by destruct ((λ x, x / norm quat) <$> quat) as [|w [|x [|y [|z [|]]]]].
  - unfold transform_to_robot, create_scene_carter.transform_to_robot.
    cbn [length seq mapM lookup list_lookup]. rw !bind_Some_eq.
    destruct (mm_t data rot) as [dr|]; [|done]. rw bind_Some_eq.
    destruct (mapM (λ p, bcast1 Rplus p trans) dr) as [o|]; [|done].
    cbn [mbind option_bind mret option_ret fmap option_fmap option_map].
    unfold stack2. case_decide as Hd; [done|]. exfalso. apply Hd. by repeat constructor.
Qed.

(** ** Ranges of the pooled features *)

Lemma Rsum_bounds (l : list R) lo hi :
  Forall (λ x, lo <= x <= hi) l →
  INR (length l) * lo <= Rsum l <= INR (length l) * hi.
Proof.
  induction 1 as [|x l Hx _ IH].
  - simpl. lra.
  - cbn [Rsum foldr]. fold (Rsum l). change (length (x :: l)) with (S (length l)).
    rw S_INR. lra.
Qed.

Lemma Rsum_lower (l : list R) lo :
  Forall (λ x, lo <= x) l → INR (length l) * lo <= Rsum l.
Proof.
  induction 1 as [|x l Hx _ IH].
  - simpl. lra.
  - cbn [Rsum foldr]. fold (Rsum l). change (length (x :: l)) with (S (length l)).
    rw S_INR. lra.
Qed.

Lemma is_min_le_mean m l : is_min m l → INR (length l) * m <= Rsum l.
Proof.
  intros [_ Hle]. apply Rsum_lower. apply Forall_forall. intros x Hx. by apply Hle.
Qed.

Lemma affine_mono a b : a <= b → affine a <= affine b.
Proof. unfold affine. lra. Qed.

Lemma affine_range x : 0 <= x <= 30 → -1 <= affine x <= 1.
Proof. unfold affine. lra. Qed.

Lemma Forall_frame_bin (P : R → Prop) f i : Forall P f → Forall P (frame_bin f i).
Proof. intros H. unfold frame_bin, slice. by apply Forall_take, Forall_drop. Qed.

Lemma feature_index idx :
  (idx < 4 * 1600)%nat →
  ∃ rep n par i, (rep < 4)%nat ∧ (n < 10)%nat ∧ (par < 2)%nat ∧ (i < 80)%nat ∧
    idx = (rep * 1600 + (2 * n + par) * 80 + i)%nat.
Proof.
  intros Hidx.
  pose proof (Nat.div_mod_eq idx 1600) as H1.
  pose proof (Nat.mod_upper_bound idx 1600) as H2.
  pose proof (Nat.div_mod_eq (idx mod 1600) 80) as H3.
  pose proof (Nat.mod_upper_bound (idx mod 1600) 80) as H4.
  pose proof (Nat.div_mod_eq (idx mod 1600 / 80) 2) as H5.
  pose proof (Nat.mod_upper_bound (idx mod 1600 / 80) 2) as H6.
  exists (idx / 1600)%nat, (idx mod 1600 / 80 / 2)%nat, ((idx mod 1600 / 80) mod 2)%nat,
    ((idx mod 1600) mod 80)%nat.
  repeat split; lia.
Qed.

Lemma pooled_feature_min_le_mean fr n f i rep :
  length fr = 10%nat → Forall (λ f, length f = 720%nat) fr →
  fr !! n = Some f → (i < 80)%nat → (rep < 4)%nat →
  ∃ a b,
    normalize_map (pooled_grid (concat fr)) !! (rep * 1600 + (2 * n) * 80 + i)%nat = Some a ∧
    normalize_map (pooled_grid (concat fr)) !! (rep * 1600 + (2 * n + 1) * 80 + i)%nat = Some b ∧
    a <= b ∧
    (Forall (λ x, 0 <= x <= 30) f → -1 <= a <= 1 ∧ -1 <= b <= 1).
Proof.
  intros Hlen Hall Hn Hi Hrep.
  destruct (pooled_feature_lookup fr n f i rep Hlen Hall Hn Hi Hrep) as (mn & Hmin & Ha & Hb).
  assert (length f = 720%nat) as Hf by (by eapply Forall_lookup_1 in Hall; eauto).
  pose proof (length_frame_bin f i Hf Hi) as Hl9.
  pose proof (is_min_le_mean _ _ Hmin) as Hmean. rw Hl9 in Hmean.
  change (INR 9) with (IZR 9) in Hmean || (simpl in Hmean).
  eexists _, _. split; [exact Ha|]. split; [exact Hb|]. split.
  - apply affine_mono. lra.
  - intros Hrange. pose proof (Forall_frame_bin _ f i Hrange) as Hbin.
    pose proof (Rsum_bounds _ _ _ Hbin) as Hs. rw Hl9 in Hs. simpl in Hs.
    destruct Hmin as [Hin _]. eapply Forall_forall in Hbin; [|exact Hin].
    split; apply affine_range; lra.
Qed.

Lemma history_stacked N (h : list (list (list R))) scan j fr :
  stacked N (T3 h) scan !! j = Some fr →
  (j < N)%nat ∧ fr = default [] (h !! j) ++ [default [] (scan !! j)].
Proof.
  intros Hj. assert (j < N)%nat as HjN.
  { apply lookup_lt_Some in Hj. by rw length_stacked in Hj. }
  rw stacked_lookup // in Hj. by simplify_eq.
Qed.

(** X13.  Ranges inside [0, 30] give features inside [-1, 1].  With nine
    stored frames per instance and every stored and incoming range between
    0 and 30, [lidar_pooling] returns, and every one of the 6400 entries of
    every feature vector lies between -1 and 1. *)
Theorem lidar_pooling_features_bounded (N : nat) (h : list (list (list R)))
    (scan : list (list R)) :
  (1 ≤ N)%nat →
  length h = N →
  Forall (λ fr, length fr = 9%nat ∧
                Forall (λ f, length f = 720%nat ∧ Forall (λ x, 0 <= x <= 30) f) fr) h →
  length scan = N →
  Forall (λ r, length r = 720%nat ∧ Forall (λ x, 0 <= x <= 30) r) scan →
  ∃ feats h',
    lidar_pooling (T3 h) (T2 scan) 9 = Some (T2 feats, true, T3 h', 9%Z) ∧
    length feats = N ∧
    Forall (λ out, length out = (4 * 1600)%nat ∧ Forall (λ v, -1 <= v <= 1) out) feats.
Proof.
  intros HN Hh Hfr Hs Hrows.
  assert (wf_history N (T3 h) 9) as Hwf.
  { split; [lia|]. split; [lia|]. eapply Forall_impl; [exact Hfr|].
    intros fr [Hl Hall]. split; [done|]. eapply Forall_impl; [exact Hall|]. by intros f [? _]. }
  assert (scan_ok N scan) as Hok.
  { split; [done|]. eapply Forall_impl; [exact Hrows|]. by intros f [? _]. }
  pose proof (lidar_pooling_step N (T3 h) 9 scan HN Hwf Hok) as Hstep.
  destruct (decide (9%Z = 9%Z)); [|done].
  eexists _, _. split; [exact Hstep|]. split; [by rw length_fmap length_stacked|].
  apply Forall_fmap, Forall_lookup_2. intros j fr Hj. unfold compose.
  pose proof (stacked_wf N (T3 h) 9 scan Hwf Hok) as Hall.
  eapply (Forall_lookup_1 _ _ j) in Hall as [Hl10 H720]; [|exact Hj].
  apply history_stacked in Hj as [HjN ->].
  destruct (lookup_lt_is_Some_2 h j) as [hj Hhj]; [lia|].
  destruct (lookup_lt_is_Some_2 scan j) as [sj Hsj]; [lia|].
  assert (default [] (h !! j) = hj) as Eh by (by rw Hhj).
  assert (default [] (scan !! j) = sj) as Es by (by rw Hsj).
  rw Eh Es in Hl10 H720 |- *.
  assert (Forall (λ f, Forall (λ x, 0 <= x <= 30) f) (hj ++ [sj])) as Hrange.
  { apply Forall_app. split.
    - eapply Forall_lookup_1 in Hfr as [_ Hall]; [|exact Hhj].
      eapply Forall_impl; [exact Hall|]. by intros f [_ ?].
    - apply Forall_singleton. by eapply Forall_lookup_1 in Hrows as [_ ?]; [|exact Hsj]. }
  split; [apply length_normalize_map, is_grid_pooled|].
  apply Forall_lookup_2. intros idx v Hv.
  assert (idx < 4 * 1600)%nat as Hidx.
  { apply lookup_lt_Some in Hv. by rw length_normalize_map in Hv; [|apply is_grid_pooled]. }
  destruct (feature_index idx Hidx) as (rep & n & par & i & Hrep & Hn & Hpar & Hi & ->).
  destruct (lookup_lt_is_Some_2 (hj ++ [sj]) n) as [f Hf]; [lia|].
  destruct (pooled_feature_min_le_mean (hj ++ [sj]) n f i rep Hl10 H720 Hf Hi Hrep)
    as (a & b & Ha & Hb & _ & Hab).
  destruct Hab as [Hra Hrb]; [by eapply Forall_lookup_1 in Hrange|].
  destruct par as [|[|]]; [| |lia].
  - rw Nat.add_0_r in Hv. rw Ha in Hv. by simplify_eq.
  - rw Hb in Hv. by simplify_eq.
Qed.

Lemma lidar_pooling_features_bounded_witness :
  ∃ feats h',
    lidar_pooling (T3 [replicate 9 near_frame]) (T2 [near_frame]) 9
      = Some (T2 feats, true, T3 h', 9%Z) ∧
    length feats = 1%nat ∧
    Forall (λ out, length out = (4 * 1600)%nat ∧ Forall (λ v, -1 <= v <= 1) out) feats.
Proof.
  apply (lidar_pooling_features_bounded 1 [replicate 9 near_frame] [near_frame]).
  - lia.
  - reflexivity.
  - constructor; [|constructor]. split; [reflexivity|]. apply Forall_replicate.
    split; [reflexivity|]. apply Forall_replicate. lra.
  - reflexivity.
  - constructor; [|constructor]. split; [reflexivity|]. apply Forall_replicate. lra.
Defined.

(** ** The window slides by one frame *)

Lemma cell_concat (fr : list (list R)) n f par i :
  Forall (λ r, length r = 720%nat) fr → fr !! n = Some f → (par < 2)%nat →
  cell (concat fr) (2 * n + par) i =
    if decide (par = 0%nat) then default 0 (torch_min (frame_bin f i))
    else torch_mean (frame_bin f i).
Proof.
  intros Hall Hn Hpar. destruct par as [|[|]]; [| |lia].
  - rw Nat.add_0_r cell_even (bin_concat fr n f) //.
  - rw cell_odd (bin_concat fr n f) //.
Qed.

Lemma feature_cell (fr : list (list R)) rep r i :
  (rep < 4)%nat → (r < 20)%nat → (i < 80)%nat →
  normalize_map (pooled_grid (concat fr)) !! (rep * 1600 + r * 80 + i)%nat
    = Some (affine (cell (concat fr) r i)).
Proof.
  intros Hrep Hr Hi. rw lookup_normalize_map; [|apply is_grid_pooled|done..].
  by rw get_pooled.
Qed.

(** X15.  Two consecutive reductions overlap in nine frames.  After a
    tick with nine stored frames, the next tick returns features again, and
    rows 0 to 17 of its grid are rows 2 to 19 of the grid of the tick
    before: every frame moves up by one place (two rows), the oldest frame
    leaves and the incoming one fills the last two rows. *)
Theorem lidar_pooling_window_slides (N : nat) (h : list (list (list R)))
    (s1 s2 : list (list R)) :
  (1 ≤ N)%nat →
  length h = N →
  Forall (λ fr, length fr = 9%nat ∧ Forall (λ f, length f = 720%nat) fr) h →
  scan_ok N s1 → scan_ok N s2 →
  ∃ f1 h1 f2 h2,
    lidar_pooling (T3 h) (T2 s1) 9 = Some (T2 f1, true, T3 h1, 9%Z) ∧
    lidar_pooling (T3 h1) (T2 s2) 9 = Some (T2 f2, true, T3 h2, 9%Z) ∧
    ∀ j rep r i, (j < N)%nat → (rep < 4)%nat → (r < 18)%nat → (i < 80)%nat →
      ∃ o1 o2 v, f1 !! j = Some o1 ∧ f2 !! j = Some o2 ∧
        o2 !! (rep * 1600 + r * 80 + i)%nat = Some v ∧
        o1 !! (rep * 1600 + (r + 2) * 80 + i)%nat = Some v.
Proof.
  intros HN Hh Hfr Hok1 Hok2.
  assert (wf_history N (T3 h) 9) as Hwf.
  { split; [lia|]. split; [lia|]. done. }
  pose proof (lidar_pooling_step N (T3 h) 9 s1 HN Hwf Hok1) as Hstep1.
  destruct (decide (9%Z = 9%Z)); [|done].
  pose proof (stacked_wf N (T3 h) 9 s1 Hwf Hok1) as Hst1.
  set (h1 := slice 1 10 <$> stacked N (T3 h) s1) in *.
  assert (wf_history N (T3 h1) 9) as Hwf1.
  { split; [lia|]. split; [by rw /h1 length_fmap length_stacked|].
    apply Forall_fmap. eapply Forall_impl; [exact Hst1|]. intros fr [Hl Hall]. unfold compose.
    split; [rw length_slice Hl; lia|]. unfold slice. by apply Forall_take, Forall_drop. }
  pose proof (lidar_pooling_step N (T3 h1) 9 s2 HN Hwf1 Hok2) as Hstep2.
  destruct (decide (9%Z = 9%Z)); [|done].
  pose proof (stacked_wf N (T3 h1) 9 s2 Hwf1 Hok2) as Hst2.
  eexists _, _, _, _. split; [exact Hstep1|]. split; [exact Hstep2|].
  intros j rep r i Hj Hrep Hr Hi.
  pose proof (stacked_lookup N (T3 h) s1 j Hj) as Hj1.
  pose proof (stacked_lookup N (T3 h1) s2 j Hj) as Hj2.
  set (fr1 := frames_of (T3 h) j ++ [default [] (s1 !! j)]) in *.
  set (fr2 := frames_of (T3 h1) j ++ [default [] (s2 !! j)]) in *.
  eapply (Forall_lookup_1 _ _ j) in Hst1 as [Hl1 H1]; [|exact Hj1].
  eapply (Forall_lookup_1 _ _ j) in Hst2 as [Hl2 H2]; [|exact Hj2].
  assert (frames_of (T3 h1) j = slice 1 10 fr1) as Hh1.
  { cbn [frames_of]. by rw /h1 list_lookup_fmap Hj1. }
  assert (∃ n par, (par < 2)%nat ∧ r = (2 * n + par)%nat) as (n & par & Hpar & ->).
  { exists (r / 2)%nat, (r mod 2)%nat.
    pose proof (Nat.div_mod_eq r 2). pose proof (Nat.mod_upper_bound r 2). lia. }
  destruct (lookup_lt_is_Some_2 fr1 (n + 1)) as [f Hf]; [lia|].
  assert (fr2 !! n = Some f) as Hf2.
  { unfold fr2. rw Hh1. rw lookup_app_l; [|rw length_slice; lia].
    rw lookup_slice; [|lia]. by rw (Nat.add_comm 1 n). }
  eexists _, _, _. split; [by rw list_lookup_fmap Hj1|]. split; [by rw list_lookup_fmap Hj2|].
  rw !feature_cell; [|done|lia|done|done|lia|done].
  rw (cell_concat fr2 n f par i H2 Hf2); [|lia].
  replace (2 * n + par + 2)%nat with (2 * (n + 1) + par)%nat by lia.
  rw (cell_concat fr1 (n + 1) f par i H1 Hf); [|lia]. done.
Qed.

Lemma lidar_pooling_window_slides_witness :
  ∃ f1 h1 f2 h2,
    lidar_pooling (T3 [replicate 9 far_frame]) (T2 [near_frame]) 9
      = Some (T2 f1, true, T3 h1, 9%Z) ∧
    lidar_pooling (T3 h1) (T2 [far_frame]) 9 = Some (T2 f2, true, T3 h2, 9%Z).
Proof.
  destruct (lidar_pooling_window_slides 1 [replicate 9 far_frame] [near_frame] [far_frame])
    as (f1 & h1 & f2 & h2 & H1 & H2 & _).
  - lia.
  - reflexivity.
  - repeat constructor.
  - split; [reflexivity|]. repeat constructor.
  - split; [reflexivity|]. repeat constructor.
  - exists f1, h1, f2, h2. split; [exact H1|exact H2].
Defined.

(** ** Inputs that [lidar_pooling] rejects *)

Lemma index0_out_of_range h k : size0 h = Some k → index0 h k = None.
Proof.
  destruct h as [x|v|m|c]; cbn [size0 index0]; [done|..]; intros [= <-];
    by rw lookup_ge_None_2.
Qed.

(** X16.  The number of instances cannot grow while frames are stored:
    when the history is not empty and the scan has more rows than the
    history, [lidar_pooling] raises.  The constructor stores a history with
    one (empty) row, so from that state every scan of two instances or more
    raises. *)
Theorem lidar_pooling_more_instances_raises (h : tensor) (scan : list (list R)) (c : Z)
    (k : nat) :
  size0 h = Some k → (0 < k)%nat → (k < length scan)%nat →
  lidar_pooling h (T2 scan) c = None.
Proof.
  intros Hk Hpos Hlt. unfold lidar_pooling.
  destruct (decide (dim (T2 scan) ≤ 1)%nat) as [Hd|_]; [simpl in Hd; lia|].
  cbn [size0]. rw bind_Some_eq.
  match goal with |- context [mapM ?f ?l] => assert (mapM f l = None) as -> end; [|done].
  apply mapM_None_2, Exists_exists. exists k. split; [apply elem_of_seq; lia|].
  rw Hk bind_Some_eq. destruct (decide (k = 0%nat)); [lia|].
  by rw (index0_out_of_range h k Hk).
Qed.

Lemma lidar_pooling_more_instances_raises_witness :
  lidar_pooling (lidar_history_data (__init__ 2 [1%nat] [2%nat] [] []))
    (T2 [far_frame; far_frame]) 0 = None.
Proof.
  apply (lidar_pooling_more_instances_raises _ [far_frame; far_frame] 0 1).
  - reflexivity.
  - lia.
  - simpl. lia.
Defined.

(** X17.  A scan is accepted only if every row has 720 ranges: a 2-D
    scan with a row of another width makes [lidar_pooling] raise, whatever
    the history and the counter are. *)
Theorem lidar_pooling_wrong_width_raises (h : tensor) (scan : list (list R)) (c : Z) :
  Exists (λ row : list R, length row ≠ 720%nat) scan →
  lidar_pooling h (T2 scan) c = None.
Proof.
  intros Hex. unfold lidar_pooling.
  destruct (decide (dim (T2 scan) ≤ 1)%nat) as [Hd|_]; [simpl in Hd; lia|].
  cbn [size0]. rw bind_Some_eq.
  match goal with |- context [mapM ?f ?l] => assert (mapM f l = None) as -> end; [|done].
  apply Exists_exists in Hex as (row & Hin & Hrow).
  apply list_elem_of_lookup_1 in Hin as [i Hi].
  apply mapM_None_2, Exists_exists. exists i. split.
  { apply elem_of_seq. apply lookup_lt_Some in Hi. lia. }
  assert (index0 (T2 scan) i ≫= reshape_1_720 = None) as Hre.
  { cbn [index0]. rw Hi /=. unfold reshape_1_720. cbn [flat].
    by destruct (decide (length row = 720%nat)). }
  destruct (size0 h) as [hsize|]; [|done]. rw bind_Some_eq.
  destruct (decide (hsize = 0%nat)); [exact Hre|].
  destruct (index0 h i) as [h_i|]; [|done]. rw bind_Some_eq.
  cbn [index0] in *. rw Hi /= in Hre |- *. unfold reshape_1_720 in *. cbn [flat] in *.
  by destruct (decide (length row = 720%nat)).
Qed.

Lemma lidar_pooling_wrong_width_raises_witness :
  lidar_pooling (T1 []) (T2 [[1; 2; 3]]) 0 = None.
Proof.
  apply (lidar_pooling_wrong_width_raises (T1 []) [[1; 2; 3]] 0).
  apply Exists_cons_hd. simpl. lia.
Defined.

(** ** The observation needs exactly two instances *)

Lemma pooling_step_num_envs self r out flag self' :
  pooling_step self r = Some (out, flag, self') → num_envs self' = num_envs self.
Proof.
  unfold pooling_step. intros ([[[a b] hh] tns] & _ & Heq)%bind_Some. by simplify_eq.
Qed.

(** X18.  [_get_observations] raises unless the environment has exactly
    two instances: the module-level goal has two rows, and the goal marker
    reshapes its six numbers to [num_envs] rows of three.  This holds for
    every reading and every pose. *)
Theorem get_observations_needs_two_instances (self : CarterEnv) (lidar : lidar_data_t)
    (root_quat_w root_pos_w : list (list R)) :
  num_envs self ≠ 2%nat →
  _get_observations self lidar root_quat_w root_pos_w = None.
Proof.
  intros Hn. unfold _get_observations.
  destruct (raw_lidar_process lidar) as [lidar_pair|]; [|done]. rw bind_Some_eq.
  destruct (pooling_step self lidar_pair.2) as [[[out flag] self']|] eqn:Hstep; [|done].
  rw bind_Some_eq. cbn [fst snd].
  apply pooling_step_num_envs in Hstep.
  destruct (visualize_lidar lidar_pair.1 root_quat_w root_pos_w) as [marker|]; [|done].
  rw bind_Some_eq.
  destruct (relative_subgoal goal root_quat_w root_pos_w) as [subgoal|]; [|done].
  rw bind_Some_eq.
  assert (reshape2 (num_envs self') 3 (concat ((λ g : list R, g ++ [0]) <$> goal)) = None) as ->;
    [|done].
  unfold reshape2. case_decide as Hl; [|done]. exfalso. simpl in Hl. lia.
Qed.

Lemma get_observations_needs_two_instances_witness :
  _get_observations (__init__ 4 [1%nat] [2%nat] [] []) [] [] [] = None.
Proof.
  apply (get_observations_needs_two_instances (__init__ 4 [1%nat] [2%nat] [] [])).
  simpl. lia.
Defined.

(** X19.  The LIDAR markers support at most two sensors: the sensor
    mount is given for two instances only, so a reading of three clouds or
    more, wide enough to be drawn, makes the marker step raise. *)
Theorem visualize_lidar_three_clouds_raises (pts : list (list (list R)))
    (root_quat_w root_pos_w : list (list R)) :
  (3 ≤ length pts)%nat → (300 ≤ from_option length 0%nat (head pts))%nat →
  visualize_lidar (T3 pts) root_quat_w root_pos_w = None.
Proof.
  intros Hl Hw. unfold visualize_lidar.
  destruct (decide (1 < dim (T3 pts))%nat) as [_|Hd]; [|simpl in Hd; lia].
  cbn [size1]. rw bind_Some_eq. destruct (decide _) as [_|Hd]; [|done].
  destruct (quat_to_rot_matrix_ok lidar_to_robot_quat) as (rot & -> & Hlrot & _).
  { done. } { repeat constructor. }
  rw bind_Some_eq.
  assert (transform_to_robot pts rot lidar_to_robot_pos = None) as ->; [|done].
  unfold transform_to_robot.
  match goal with |- context [mapM ?f ?l] => assert (mapM f l = None) as -> end; [|done].
  apply mapM_None_2, Exists_exists. exists 2%nat. split; [apply elem_of_seq; lia|].
  destruct (pts !! 2%nat); [|done]. rw bind_Some_eq.
  rw (lookup_ge_None_2 rot 2); [done|]. rw Hlrot. simpl. lia.
Qed.

Lemma visualize_lidar_three_clouds_raises_witness :
  visualize_lidar (T3 [flat_cloud; flat_cloud; flat_cloud]) [] [] = None.
Proof.
  apply (visualize_lidar_three_clouds_raises [flat_cloud; flat_cloud; flat_cloud]).
  - simpl. lia.
  - simpl. lia.
Defined.

(** ** Rewards and terminations *)

Lemma column_ok (t : list (list R)) j :
  Forall (λ row : list R, (j < length row)%nat) t →
  ∃ c, column t j = Some c ∧ length c = length t ∧
       ∀ i row, t !! i = Some row → c !! i = row !! j.
Proof.
  intros Hall. apply mapM_rows. eapply Forall_impl; [exact Hall|].
  intros row Hj. by apply lookup_lt_is_Some_2.
Qed.

Lemma bcast1_same f (u v : list R) :
  length u = length v → bcast1 f u v = Some (zip_with f u v).
Proof. intros Hl. unfold bcast1. by destruct (decide (length u = length v)). Qed.

Lemma compute_rewards_rows a b c d e pole_pos pole_vel cart_pos cart_vel term :
  length pole_pos = length term → length pole_vel = length term →
  length cart_vel = length term →
  ∃ rew, compute_rewards a b c d e pole_pos pole_vel cart_pos cart_vel term = Some rew ∧
    length rew = length term ∧
    ∀ i pp pv cv t, pole_pos !! i = Some pp → pole_vel !! i = Some pv →
      cart_vel !! i = Some cv → term !! i = Some t →
      rew !! i = Some (a * (1 - (if t : bool then 1 else 0)) + b * (if t then 1 else 0)
                       + c * (pp * pp) + d * Rabs cv + e * Rabs pv).
Proof.
  intros H1 H2 H3. unfold compute_rewards.
  rw bcast1_same; [|by rw !length_fmap]. rw bind_Some_eq.
  rw bcast1_same; [|by rw length_zip_with !length_fmap H1; lia]. rw bind_Some_eq.
  rw bcast1_same; [|by rw !length_zip_with !length_fmap H1 H3; lia]. rw bind_Some_eq.
  rw bcast1_same; [|by rw !length_zip_with !length_fmap H1 H3 H2; lia].
  eexists. split; [done|]. split.
  { rw !length_zip_with !length_fmap H1 H3 H2. lia. }
  intros i pp pv cv t Hpp Hpv Hcv Ht. unfold float.
  rw !lookup_zip_with !list_lookup_fmap Ht Hpp Hpv Hcv.
  cbn [fmap option_fmap option_map mbind option_bind Rsum foldr]. f_equal. lra.
Qed.

Lemma get_rewards_formula (self : CarterEnv) (reset_terminated : list bool) (l r : nat) :
  head (_left_dof_idx self) = Some l → head (_right_dof_idx self) = Some r →
  length (joint_pos self) = length reset_terminated →
  length (joint_vel self) = length reset_terminated →
  Forall (λ row : list R, (l < length row)%nat ∧ (r < length row)%nat) (joint_pos self) →
  Forall (λ row : list R, (l < length row)%nat ∧ (r < length row)%nat) (joint_vel self) →
  ∃ rew, _get_rewards self reset_terminated = Some rew ∧
    length rew = length reset_terminated ∧
    ∀ i prow vrow pl vl vr t,
      joint_pos self !! i = Some prow → joint_vel self !! i = Some vrow →
      prow !! l = Some pl → vrow !! l = Some vl → vrow !! r = Some vr →
      reset_terminated !! i = Some t →
      rew !! i = Some ((if t : bool then -2 else 1) - pl * pl
                       - 0.01 * Rabs vr - 0.005 * Rabs vl).
Proof.
  intros Hl Hr Hlp Hlv Hp Hv. unfold _get_rewards. rw Hl Hr. rw bind_Some_eq.
  destruct (column_ok (joint_pos self) l) as (pp & -> & Hpp & Hppi).
  { eapply Forall_impl; [exact Hp|]. by intros row [? _]. }
  rw bind_Some_eq.
  destruct (column_ok (joint_vel self) l) as (pv & -> & Hpv & Hpvi).
  { eapply Forall_impl; [exact Hv|]. by intros row [? _]. }
  rw !bind_Some_eq.
  destruct (column_ok (joint_pos self) r) as (cp & -> & Hcp & Hcpi).
  { eapply Forall_impl; [exact Hp|]. by intros row [_ ?]. }
  rw bind_Some_eq.
  destruct (column_ok (joint_vel self) r) as (cv & -> & Hcv & Hcvi).
  { eapply Forall_impl; [exact Hv|]. by intros row [_ ?]. }
  rw bind_Some_eq.
  destruct (compute_rewards_rows cfg.rew_scale_alive cfg.rew_scale_terminated
              cfg.rew_scale_pole_pos cfg.rew_scale_cart_vel cfg.rew_scale_pole_vel
              pp pv cp cv reset_terminated) as (rew & -> & Hlen & Hrow); [lia..|].
  exists rew. split; [done|]. split; [done|].
  intros i prow vrow pl vl vr t Hpi Hvi Hpl Hvl Hvr Ht.
  rw (Hrow i pl vl vr t); [|by rw (Hppi _ _ Hpi)|by rw (Hpvi _ _ Hvi)|
                            by rw (Hcvi _ _ Hvi)|done].
  unfold cfg.rew_scale_alive, cfg.rew_scale_terminated, cfg.rew_scale_pole_pos,
    cfg.rew_scale_cart_vel, cfg.rew_scale_pole_vel.
  f_equal. destruct t; lra.
Qed.

(** X20.  The reward of an instance is
    [(1 or -2) - p^2 - 0.01 |vr| - 0.005 |vl|], where p and vl are position
    and velocity of the left wheel joint, vr the velocity of the right wheel
    joint, and the first term is -2 for a terminated instance and 1
    otherwise.  It never exceeds that first term, it is 1 only for a running
    instance at rest with its left wheel at position 0, and it does not
    depend on the position of the right wheel. *)
Theorem get_rewards_value (self : CarterEnv) (reset_terminated : list bool) (l r : nat) :
  head (_left_dof_idx self) = Some l → head (_right_dof_idx self) = Some r →
  length (joint_pos self) = length reset_terminated →
  length (joint_vel self) = length reset_terminated →
  Forall (λ row : list R, (l < length row)%nat ∧ (r < length row)%nat) (joint_pos self) →
  Forall (λ row : list R, (l < length row)%nat ∧ (r < length row)%nat) (joint_vel self) →
  ∃ rew, _get_rewards self reset_terminated = Some rew ∧
    length rew = length reset_terminated ∧
    ∀ i prow vrow pl vl vr t,
      joint_pos self !! i = Some prow → joint_vel self !! i = Some vrow →
      prow !! l = Some pl → vrow !! l = Some vl → vrow !! r = Some vr →
      reset_terminated !! i = Some t →
      ∃ x, rew !! i = Some x ∧
        x = (if t : bool then -2 else 1) - pl * pl - 0.01 * Rabs vr - 0.005 * Rabs vl ∧
        x <= (if t then -2 else 1) ∧
        (x = 1 ↔ t = false ∧ pl = 0 ∧ vr = 0 ∧ vl = 0).
Proof.
  intros Hl Hr Hlp Hlv Hp Hv.
  destruct (get_rewards_formula self reset_terminated l r Hl Hr Hlp Hlv Hp Hv)
    as (rew & Hrew & Hlen & Hrow).
  exists rew. split; [done|]. split; [done|].
  intros i prow vrow pl vl vr t Hpi Hvi Hpl Hvl Hvr Ht.
  eexists. split; [by eapply Hrow|]. split; [done|].
  pose proof (Rabs_pos vr) as Hvr0. pose proof (Rabs_pos vl) as Hvl0.
  assert (0 <= pl * pl) as Hsq by nra.
  split; [destruct t; lra|]. split.
  - intros Hx. destruct t; [lra|]. split; [done|].
    assert (pl * pl = 0 ∧ Rabs vr = 0 ∧ Rabs vl = 0) as (H1 & H2 & H3) by (repeat split; lra).
    split; [nra|]. split.
    + destruct (Req_dec vr 0) as [|Hne]; [done|]. apply Rabs_no_R0 in Hne. done.
    + destruct (Req_dec vl 0) as [|Hne]; [done|]. apply Rabs_no_R0 in Hne. done.
  - intros (-> & -> & -> & ->). rw Rabs_R0. lra.
Qed.

Lemma get_rewards_value_witness :
  ∃ rew, _get_rewards runaway_env [true; false] = Some rew ∧ length rew = 2%nat.
Proof.
  destruct (get_rewards_value runaway_env [true; false] 1 2) as (rew & Hrew & Hlen & _).
  - reflexivity.
  - reflexivity.
  - reflexivity.
  - reflexivity.
  - repeat constructor.
  - repeat constructor.
  - exists rew. split; [exact Hrew|exact Hlen].
Defined.

Lemma left_columns (jp : list (list R)) l :
  Forall (λ row : list R, (l < length row)%nat) jp →
  ∃ cols, mapM (λ row : list R, mapM (λ j, row !! j) [l]) jp = Some cols ∧
    length cols = length jp ∧
    ∀ i row pl, jp !! i = Some row → row !! l = Some pl → cols !! i = Some [pl].
Proof.
  intros Hall.
  destruct (mapM_rows (λ row : list R, mapM (λ j, row !! j) [l]) jp)
    as (cols & Hcols & Hlen & Hrow).
  { eapply Forall_impl; [exact Hall|]. intros row Hl.
    destruct (lookup_lt_is_Some_2 row l Hl) as [x Hx]. cbn [mapM]. rw Hx. by eexists. }
  exists cols. split; [done|]. split; [done|].
  intros i row pl Hi Hpl. rw (Hrow _ _ Hi). cbn [mapM]. by rw Hpl.
Qed.

Lemma sq_above_bound x : Rabs x > 40 → 1600 < x * x.
Proof. unfold Rabs. destruct (Rcase_abs x); intros; nra. Qed.

(** X23.  Terminations and their reward.  With one left wheel joint,
    [_get_dones] stores the joint state of the articulation and reports an
    instance out of bounds exactly when the absolute position of its left
    wheel joint exceeds 40 (40 itself is inside), and timed out exactly when
    its step count has reached the episode length minus one.  When these
    out-of-bounds flags are the termination flags of the reward, an instance
    out of bounds is rewarded below -1602 and every other instance at
    most 1. *)
Theorem get_dones_then_rewards (self : CarterEnv) (carter_joint_pos carter_joint_vel : list (list R))
    (episode_length_buf : list Z) (max_episode_length : Z) (l r : nat) :
  _left_dof_idx self = [l] → head (_right_dof_idx self) = Some r →
  length carter_joint_vel = length carter_joint_pos →
  Forall (λ row : list R, (l < length row)%nat ∧ (r < length row)%nat) carter_joint_pos →
  Forall (λ row : list R, (l < length row)%nat ∧ (r < length row)%nat) carter_joint_vel →
  ∃ out_of_bounds time_out self' rew,
    _get_dones self carter_joint_pos carter_joint_vel episode_length_buf max_episode_length
      = Some (out_of_bounds, time_out, self') ∧
    joint_pos self' = carter_joint_pos ∧ joint_vel self' = carter_joint_vel ∧
    (∀ i row pl, carter_joint_pos !! i = Some row → row !! l = Some pl →
       out_of_bounds !! i = Some (bool_decide (Rabs pl > 40))) ∧
    (∀ i e, episode_length_buf !! i = Some e →
       time_out !! i = Some (bool_decide (max_episode_length - 1 ≤ e)%Z)) ∧
    _get_rewards self' out_of_bounds = Some rew ∧
    length rew = length carter_joint_pos ∧
    (∀ i x, out_of_bounds !! i = Some true → rew !! i = Some x → x < -1602) ∧
    (∀ i x, out_of_bounds !! i = Some false → rew !! i = Some x → x <= 1).
Proof.
  intros Hleft Hright Hlen Hp Hv. unfold _get_dones.
  set (self' := set_joints self carter_joint_pos carter_joint_vel).
  assert (joint_pos self' = carter_joint_pos) as Hjp by done.
  assert (joint_vel self' = carter_joint_vel) as Hjv by done.
  assert (_left_dof_idx self' = [l]) as Hl' by done.
  assert (_right_dof_idx self' = _right_dof_idx self) as Hr' by done.
  rw Hjp Hl'.
  destruct (left_columns carter_joint_pos l) as (cols & -> & Hlc & Hcol).
  { eapply Forall_impl; [exact Hp|]. by intros row [? _]. }
  rw bind_Some_eq.
  set (oob := (λ row : list R, existsb (λ x, bool_decide (Rabs x > cfg.max_cart_pos)) row)
                <$> cols).
  assert (∀ i row pl, carter_joint_pos !! i = Some row → row !! l = Some pl →
            oob !! i = Some (bool_decide (Rabs pl > 40))) as Hoob.
  { intros i row pl Hi Hpl. rw /oob list_lookup_fmap (Hcol _ _ _ Hi Hpl).
    cbn [fmap option_fmap option_map existsb]. rw orb_false_r. f_equal.
    apply bool_decide_ext. unfold cfg.max_cart_pos. lra. }
  assert (length oob = length carter_joint_pos) as Hlo by (by rw /oob length_fmap).
  destruct (get_rewards_formula self' oob l r) as (rew & Hrew & Hlr & Hrow).
  { by rw Hl'. } { by rw Hr'. } { by rw Hjp. } { rw Hjv. lia. } { by rw Hjp. } { by rw Hjv. }
  exists oob, ((λ e, bool_decide (max_episode_length - 1 ≤ e)%Z) <$> episode_length_buf),
    self', rew. split; [done|]. split; [done|]. split; [done|].
  split; [exact Hoob|]. split.
  { intros i e He. by rw list_lookup_fmap He. }
  split; [done|]. split; [lia|].
  assert (∀ i t x, oob !! i = Some t → rew !! i = Some x →
            ∃ pl vl vr, (t = bool_decide (Rabs pl > 40)) ∧
              x = (if t then -2 else 1) - pl * pl - 0.01 * Rabs vr - 0.005 * Rabs vl) as Hval.
  { intros i t x Ht Hx.
    assert (i < length carter_joint_pos)%nat as Hi by (apply lookup_lt_Some in Ht; lia).
    destruct (lookup_lt_is_Some_2 carter_joint_pos i) as [prow Hprow]; [lia|].
    destruct (lookup_lt_is_Some_2 carter_joint_vel i) as [vrow Hvrow]; [lia|].
    pose proof (Forall_lookup_1 _ _ _ _ Hp Hprow) as [Hpl _].
    pose proof (Forall_lookup_1 _ _ _ _ Hv Hvrow) as [Hvl Hvr].
    destruct (lookup_lt_is_Some_2 prow l Hpl) as [pl Hpl'].
    destruct (lookup_lt_is_Some_2 vrow l Hvl) as [vl Hvl'].
    destruct (lookup_lt_is_Some_2 vrow r Hvr) as [vr Hvr'].
    exists pl, vl, vr. rw (Hoob _ _ _ Hprow Hpl') in Ht. injection Ht as <-.
    split; [done|].
    rw (Hrow i prow vrow pl vl vr (bool_decide (Rabs pl > 40))) in Hx;
      [|by rw Hjp|by rw Hjv|done|done|done|by apply (Hoob i prow)]. by injection Hx as <-. }
  split.
  - intros i x Ht Hx. destruct (Hval i true x Ht Hx) as (pl & vl & vr & Hb & ->).
    symmetry in Hb. apply bool_decide_eq_true in Hb. apply sq_above_bound in Hb.
    pose proof (Rabs_pos vr). pose proof (Rabs_pos vl). lra.
  - intros i x Ht Hx. destruct (Hval i false x Ht Hx) as (pl & vl & vr & _ & ->).
    pose proof (Rabs_pos vr). pose proof (Rabs_pos vl). nra.
Qed.

Lemma get_dones_then_rewards_witness :
  ∃ out_of_bounds time_out self' rew,
    _get_dones runaway_env (joint_pos runaway_env) (joint_vel runaway_env) [3%Z; 3%Z] 10
      = Some (out_of_bounds, time_out, self') ∧
    _get_rewards self' out_of_bounds = Some rew ∧ length rew = 2%nat.
Proof.
  destruct (get_dones_then_rewards runaway_env (joint_pos runaway_env) (joint_vel runaway_env)
              [3%Z; 3%Z] 10 1 2)
    as (oob & tout & self' & rew & Hd & _ & _ & _ & _ & Hr & Hl & _).
  - reflexivity.
  - reflexivity.
  - reflexivity.
  - repeat constructor.
  - repeat constructor.
  - exists oob, tout, self', rew. split; [exact Hd|]. split; [exact Hr|exact Hl].
Defined.

(** ** The joint state after a reset *)

Lemma index_put_spec {A} (ids : list nat) (rows t t' : list A) :
  length rows = length ids → index_put ids rows t = Some t' →
  length t' = length t ∧
  (∀ i, i ∉ ids → t' !! i = t !! i) ∧
  (∀ i, i ∈ ids → ∃ k r, ids !! k = Some i ∧ rows !! k = Some r ∧ t' !! i = Some r).
Proof.
  revert rows t. induction ids as [|i0 ids IH]; intros rows t Hl H.
  - destruct rows; simpl in H; simplify_eq.
    split; [done|]. split; [done|]. intros i Hi. by apply elem_of_nil in Hi.
  - destruct rows as [|r rows]; [simpl in Hl; lia|]. cbn [index_put] in H.
    apply bind_Some in H as (x & Hx & H).
    destruct (IH rows (<[i0 := r]> t)) as (Hlen & Hframe & Hin); [simpl in Hl; lia|done|].
    split; [by rw Hlen length_insert|]. split.
    + intros i Hi. apply not_elem_of_cons in Hi as [Hne Hni].
      rw Hframe //. by rw list_lookup_insert_ne.
    + intros i Hi. destruct (decide (i ∈ ids)) as [Hin'|Hnin].
      * destruct (Hin i Hin') as (k & r' & Hk & Hr & Hv). by exists (S k), r'.
      * apply elem_of_cons in Hi as [->|?]; [|done]. exists 0%nat, r.
        split; [done|]. split; [done|]. rw Hframe //.
        apply list_lookup_insert_eq. by apply lookup_lt_Some in Hx.
Qed.

Lemma index_put_None {A} (ids : list nat) (rows t : list A) :
  length rows = length ids → Exists (λ i, (length t ≤ i)%nat) ids →
  index_put ids rows t = None.
Proof.
  revert rows t. induction ids as [|i0 ids IH]; intros rows t Hl Hex.
  - by apply Exists_nil in Hex.
  - destruct rows as [|r rows]; [simpl in Hl; lia|]. cbn [index_put].
    destruct (t !! i0) as [x|] eqn:Hx; [|done]. rw bind_Some_eq.
    apply IH; [simpl in Hl; lia|]. apply Exists_cons in Hex as [Hbad|Hex].
    + apply lookup_lt_Some in Hx. lia.
    + eapply Exists_impl; [exact Hex|]. intros i Hi. by rw length_insert.
Qed.

Lemma add_at_frame idx nz (row row' : list R) :
  add_at idx nz row = Some row' →
  length row' = length row ∧ ∀ j, j ∉ idx → row' !! j = row !! j.
Proof.
  revert nz row. induction idx as [|j0 idx IH]; intros nz row H.
  - destruct nz; simpl in H; by simplify_eq.
  - destruct nz as [|e nz]; [simpl in H; by simplify_eq|]. cbn [add_at] in H.
    apply bind_Some in H as (x & Hx & H). destruct (IH _ _ H) as [Hlen Hframe].
    split; [by rw Hlen length_insert|].
    intros j Hj. apply not_elem_of_cons in Hj as [Hne Hni].
    rw Hframe //. by rw list_lookup_insert_ne.
Qed.

Lemma gather_Some {A} (t : list A) (ids : list nat) out :
  mapM (λ i, t !! i) ids = Some out →
  length out = length ids ∧ Forall (λ i, (i < length t)%nat) ids ∧
  ∀ k i, ids !! k = Some i → out !! k = t !! i.
Proof.
  intros H. apply mapM_Some_1 in H. split; [symmetry; by eapply Forall2_length|]. split.
  - apply Forall_lookup_2. intros k i Hk.
    destruct (Forall2_lookup_l _ _ _ _ _ H Hk) as (y & _ & Hy). by apply lookup_lt_Some in Hy.
  - intros k i Hk. destruct (Forall2_lookup_l _ _ _ _ _ H Hk) as (y & Hy & Hf). by rw Hy Hf.
Qed.

Lemma mapM_length {A B} (f : A → option B) (l : list A) out :
  mapM f l = Some out → length out = length l.
Proof. intros H. apply mapM_Some_1 in H. symmetry. by eapply Forall2_length. Qed.

Section ResetJointFacts.

Context {Sim : Type}.
Variable super_reset_idx : list nat → Sim → Sim.
Variable write_root_pose_to_sim : list (list R) → list nat → Sim → Sim.
Variable write_root_velocity_to_sim : list (list R) → list nat → Sim → Sim.
Variable write_joint_state_to_sim : list (list R) → list (list R) → list nat → Sim → Sim.

(** X21.  A reset is selective for the joint state.  With indices in
    range and one row of noise per reset instance, [_reset_idx] returns;
    the joint positions and velocities of the instances that are not reset
    are as before; a reset instance gets the default joint velocities, and
    its joint positions are the defaults in every joint other than the left
    wheel joint (the only place where noise is added). *)
Theorem reset_idx_joint_state self sim cd env_ids noise :
  reset_ok self cd (default (_ALL_INDICES cd) env_ids) →
  length noise = length (default (_ALL_INDICES cd) env_ids) →
  ∃ self' sim',
    _reset_idx super_reset_idx write_root_pose_to_sim write_root_velocity_to_sim
      write_joint_state_to_sim self sim cd env_ids noise = Some (self', sim') ∧
    length (joint_pos self') = length (joint_pos self) ∧
    length (joint_vel self') = length (joint_vel self) ∧
    (∀ i, i ∉ default (_ALL_INDICES cd) env_ids →
       joint_pos self' !! i = joint_pos self !! i ∧
       joint_vel self' !! i = joint_vel self !! i) ∧
    (∀ i, i ∈ default (_ALL_INDICES cd) env_ids →
       joint_vel self' !! i = default_joint_vel cd !! i ∧
       ∃ row drow, joint_pos self' !! i = Some row ∧ default_joint_pos cd !! i = Some drow ∧
         length row = length drow ∧
         ∀ j, j ∉ _left_dof_idx self → row !! j = drow !! j).
Proof.
  intros Hok Hnoise.
  destruct (reset_returns super_reset_idx write_root_pose_to_sim write_root_velocity_to_sim
              write_joint_state_to_sim self sim cd env_ids noise Hok) as [[self' sim'] Hr].
  exists self', sim'. split; [exact Hr|].
  set (ids := default (_ALL_INDICES cd) env_ids) in *.
  unfold _reset_idx in Hr. fold ids in Hr.
  apply bind_Some in Hr as (jpos & Hjpos & Hr).
  apply bind_Some in Hr as (jpos' & Hjpos' & Hr).
  apply bind_Some in Hr as (jvel & Hjvel & Hr).
  apply bind_Some in Hr as (rs & _ & Hr).
  apply bind_Some in Hr as (orig & _ & Hr).
  apply bind_Some in Hr as (rs' & _ & Hr).
  apply bind_Some in Hr as (jp & Hjp & Hr).
  apply bind_Some in Hr as (jv & Hjv & Hr).
  injection Hr as <- _. cbn [joint_pos joint_vel set_joints _left_dof_idx].
  destruct (gather_Some _ _ _ Hjpos) as (Hl1 & _ & Hg1).
  destruct (gather_Some _ _ _ Hjvel) as (Hl2 & _ & Hg2).
  pose proof (mapM_length _ _ _ Hjpos') as Hl3. rw length_zip in Hl3.
  destruct (index_put_spec ids jpos' (joint_pos self) jp) as (Hlp & Hfp & Hip); [lia|done|].
  destruct (index_put_spec ids jvel (joint_vel self) jv) as (Hlv & Hfv & Hiv); [lia|done|].
  split; [done|]. split; [done|]. split.
  { intros i Hi. split; [by apply Hfp|by apply Hfv]. }
  intros i Hi. split.
  - destruct (Hiv i Hi) as (k & r & Hk & Hrk & ->). by rw -Hrk (Hg2 k i Hk).
  - destruct (Hip i Hi) as (k & row & Hk & Hrk & Hrow).
    apply mapM_Some_1 in Hjpos'.
    destruct (Forall2_lookup_r _ _ _ _ _ Hjpos' Hrk) as ([drow nz] & Hz & Hadd).
    cbn [fst snd] in Hadd.
    apply lookup_zip_with_Some in Hz as (d' & n' & Heq & Hd & Hn). simplify_eq.
    destruct (add_at_frame _ _ _ _ Hadd) as [Hlen Hframe].
    exists row, d'. split; [done|]. split; [by rw -(Hg1 k i Hk)|]. done.
Qed.

(** X22.  An index out of range makes the reset raise: when some reset
    index is not a row of the stored joint state or of one of the default
    tensors, [_reset_idx] raises and no state is returned. *)
Theorem reset_idx_out_of_range_raises self sim cd env_ids noise :
  length noise = length (default (_ALL_INDICES cd) env_ids) →
  Exists (λ i, ¬ id_in_range self cd i) (default (_ALL_INDICES cd) env_ids) →
  _reset_idx super_reset_idx write_root_pose_to_sim write_root_velocity_to_sim
    write_joint_state_to_sim self sim cd env_ids noise = None.
Proof.
  intros Hnoise Hex. unfold _reset_idx.
  set (ids := default (_ALL_INDICES cd) env_ids) in *.
  destruct (mapM (λ i, default_joint_pos cd !! i) ids) as [jpos|] eqn:Hjpos; [|done].
  rw bind_Some_eq.
  destruct (mapM _ (zip jpos noise)) as [jpos'|] eqn:Hjpos'; [|done]. rw bind_Some_eq.
  destruct (mapM (λ i, default_joint_vel cd !! i) ids) as [jvel|] eqn:Hjvel; [|done].
  rw bind_Some_eq.
  destruct (mapM (λ i, default_root_state cd !! i) ids) as [rs|] eqn:Hrs; [|done].
  rw bind_Some_eq.
  destruct (mapM (λ i, env_origins cd !! i) ids) as [orig|] eqn:Horig; [|done].
  rw bind_Some_eq.
  destruct (mapM _ (zip rs orig)) as [rs'|] eqn:Hrs'; [|done]. rw bind_Some_eq.
  destruct (gather_Some _ _ _ Hjpos) as (Hl1 & Hr1 & _).
  destruct (gather_Some _ _ _ Hjvel) as (Hl2 & Hr2 & _).
  destruct (gather_Some _ _ _ Hrs) as (_ & Hr3 & _).
  destruct (gather_Some _ _ _ Horig) as (_ & Hr4 & _).
  pose proof (mapM_length _ _ _ Hjpos') as Hl3. rw length_zip in Hl3.
  apply Exists_exists in Hex as (i & Hin & Hbad).
  rewrite ->Forall_forall in Hr1, Hr2, Hr3, Hr4.
  pose proof (Hr1 i Hin). pose proof (Hr2 i Hin). pose proof (Hr3 i Hin).
  pose proof (Hr4 i Hin).
  destruct (decide (i < length (joint_pos self))%nat) as [Hp|Hp].
  - destruct (index_put ids jpos' (joint_pos self)) as [jp|]; [|done]. rw bind_Some_eq.
    rw (index_put_None ids jvel (joint_vel self)); [done|lia|].
    apply Exists_exists. exists i. split; [done|].
    destruct (decide (length (joint_vel self) ≤ i)%nat) as [|Hv]; [done|].
    exfalso. apply Hbad. unfold id_in_range. repeat split; lia.
  - rw (index_put_None ids jpos' (joint_pos self)); [done|lia|].
    apply Exists_exists. exists i. split; [done|]. lia.
Qed.

End ResetJointFacts.

Lemma reset_idx_joint_state_witness :
  ∃ self' sim',
    _reset_idx (Sim:=unit) (λ _ s, s) (λ _ _ s, s) (λ _ _ s, s) (λ _ _ _ s, s)
      warm_env () zero_defaults (Some [0%nat]) [[0.1]] = Some (self', sim') ∧
    joint_pos self' !! 1%nat = joint_pos warm_env !! 1%nat.
Proof.
  destruct (reset_idx_joint_state (Sim:=unit) (λ _ s, s) (λ _ _ s, s) (λ _ _ s, s)
              (λ _ _ _ s, s) warm_env () zero_defaults (Some [0%nat]) [[0.1]])
    as (self' & sim' & Hr & _ & _ & Hframe & _).
  - unfold reset_ok. cbn [default from_option]. repeat split; repeat constructor.
  - reflexivity.
  - exists self', sim'. split; [exact Hr|].
    apply (Hframe 1%nat). cbn [default from_option]. intros Hin.
    apply list_elem_of_singleton in Hin. discriminate.
Defined.

Lemma reset_idx_out_of_range_raises_witness :
  _reset_idx (Sim:=unit) (λ _ s, s) (λ _ _ s, s) (λ _ _ s, s) (λ _ _ _ s, s)
    warm_env () zero_defaults (Some [5%nat]) [[0.1]] = None.
Proof.
  apply (reset_idx_out_of_range_raises (Sim:=unit) (λ _ s, s) (λ _ _ s, s) (λ _ _ s, s)
           (λ _ _ _ s, s) warm_env () zero_defaults (Some [5%nat]) [[0.1]]).
  - reflexivity.
  - cbn [default from_option]. apply Exists_cons_hd. unfold id_in_range. simpl. lia.
Defined.

(** ** The IMU buffers *)

Lemma zero_rows_spec (ids : list nat) (t : list (list R)) :
  Forall (λ i, (i < length t)%nat) ids →
  ∃ t', zero_rows ids t = Some t' ∧ length t' = length t ∧
    ∀ i, t' !! i = if decide (i ∈ ids) then (λ row : list R, (λ _, 0) <$> row) <$> t !! i
                   else t !! i.
Proof.
  revert t. induction ids as [|i0 ids IH]; intros t Hids.
  - exists t. split; [done|]. split; [done|]. intros i.
    destruct (decide (i ∈ [])) as [Hin|_]; [by apply elem_of_nil in Hin|done].
  - inversion Hids as [|?? Hi0 Hrest]; subst. cbn [zero_rows].
    destruct (lookup_lt_is_Some_2 t i0 Hi0) as [row Hrow]. rw Hrow bind_Some_eq.
    destruct (IH (<[i0 := (λ _, 0) <$> row]> t)) as (t' & -> & Hlen & Hget).
    { eapply Forall_impl; [exact Hrest|]. intros k Hk. by rw length_insert. }
    exists t'. split; [done|]. split; [by rw Hlen length_insert|].
    intros i. rw Hget. destruct (decide (i = i0)) as [->|Hne].
    + rw list_lookup_insert_eq; [|done]. rw Hrow.
      destruct (decide (i0 ∈ i0 :: ids)) as [_|Hn]; [|exfalso; apply Hn; by left].
      destruct (decide (i0 ∈ ids)); [|done].
      cbn [fmap option_fmap option_map]. f_equal.
      rw -list_fmap_compose. by apply list_fmap_ext.
    + rw list_lookup_insert_ne; [|done].
      destruct (decide (i ∈ ids)) as [Hin|Hnin].
      * destruct (decide (i ∈ i0 :: ids)) as [_|Hn]; [done|]. exfalso. apply Hn. by right.
      * destruct (decide (i ∈ i0 :: ids)) as [Hin|_]; [|done].
        apply elem_of_cons in Hin as [?|?]; done.
Qed.

Section ImuFacts.

Context {Base : Type}.
Variable super_reset : option (list nat) → Base → Base.

(** X24.  A reset stores the zero quaternion, not the identity.  After
    [_initialize_buffers_impl] every orientation is (1, 0, 0, 0); a reset
    of sensors in range returns, leaves the sensors that are not reset at
    (1, 0, 0, 0), writes (0, 0, 0, 0) for those that are reset, zeroes their
    acceleration and angular velocity, and touches neither the positions
    nor the stored last velocity nor the offsets.  A reset without indices
    does this for all sensors. *)
Theorem imu_reset_after_initialize (count : nat) (offset_pos offset_rot : list R)
    (base : Base) (ids : list nat) :
  Forall (λ i, (i < count)%nat) ids →
  let imu := _initialize_buffers_impl count offset_pos offset_rot in
  quat_w (_data imu) = replicate count [1; 0; 0; 0] ∧
  (∃ imu',
     reset super_reset imu base (Some ids) = Some (imu', super_reset (Some ids) base) ∧
     (∀ i, (i < count)%nat →
        quat_w (_data imu') !! i
          = Some (if decide (i ∈ ids) then [0; 0; 0; 0] else [1; 0; 0; 0]) ∧
        ang_vel_b (_data imu') !! i = Some [0; 0; 0] ∧
        lin_acc_b (_data imu') !! i = Some [0; 0; 0]) ∧
     pos_w (_data imu') = pos_w (_data imu) ∧
     _last_lin_vel_w imu' = _last_lin_vel_w imu ∧
     _offset_pos_b imu' = _offset_pos_b imu ∧ _offset_quat_b imu' = _offset_quat_b imu) ∧
  (∃ imu',
     reset super_reset imu base None = Some (imu', super_reset None base) ∧
     quat_w (_data imu') = replicate count [0; 0; 0; 0] ∧
     pos_w (_data imu') = pos_w (_data imu)).
Proof.
  intros Hids imu.
  assert (quat_w (_data imu) = replicate count [1; 0; 0; 0]) as Hq.
  { cbn [imu _initialize_buffers_impl _data quat_w]. by rw fmap_replicate. }
  split; [exact Hq|]. split.
  - unfold reset. cbn [fill_zero].
    destruct (zero_rows_spec ids (quat_w (_data imu))) as (q & -> & Hlq & Hgq).
    { rw Hq length_replicate. done. }
    rw bind_Some_eq.
    destruct (zero_rows_spec ids (ang_vel_b (_data imu))) as (a & -> & Hla & Hga).
    { cbn [imu _initialize_buffers_impl _data ang_vel_b]. by rw length_replicate. }
    rw bind_Some_eq.
    destruct (zero_rows_spec ids (lin_acc_b (_data imu))) as (l & -> & Hll & Hgl).
    { cbn [imu _initialize_buffers_impl _data lin_acc_b]. by rw length_replicate. }
    rw bind_Some_eq. eexists. split; [reflexivity|].
    cbn [_data quat_w ang_vel_b lin_acc_b pos_w _last_lin_vel_w _offset_pos_b _offset_quat_b].
    split; [|done]. intros i Hi. rw Hgq Hga Hgl Hq.
    cbn [imu _initialize_buffers_impl _data ang_vel_b lin_acc_b].
    rw !lookup_replicate_2; [|done..].
    destruct (decide (i ∈ ids)); done.
  - unfold reset. cbn [fill_zero]. rw !bind_Some_eq. eexists. split; [reflexivity|].
    cbn [_data quat_w pos_w]. split; [|done]. rw Hq. by rw fmap_replicate.
Qed.

End ImuFacts.

Lemma imu_reset_after_initialize_witness :
  ∃ imu', reset (Base:=unit) (λ _ b, b) (_initialize_buffers_impl 2 [0; 0; 0] [1; 0; 0; 0]) ()
            (Some [0%nat]) = Some (imu', ()) ∧
    quat_w (_data imu') !! 0%nat = Some [0; 0; 0; 0] ∧
    quat_w (_data imu') !! 1%nat = Some [1; 0; 0; 0].
Proof.
  destruct (imu_reset_after_initialize (Base:=unit) (λ _ b, b) 2 [0; 0; 0] [1; 0; 0; 0] ()
              [0%nat]) as (_ & (imu' & Hr & Hrows & _) & _).
  - repeat constructor.
  - exists imu'. split; [exact Hr|].
    destruct (Hrows 0%nat) as (H0 & _); [lia|]. destruct (Hrows 1%nat) as (H1 & _); [lia|].
    split; [exact H0|exact H1].
Defined.

(** ** Readings of the wrong shape *)

(** X25.  The per-sensor preprocessing raises on a reading of the wrong
    shape: when some point has fewer than three coordinates, or when the
    points have three coordinates but the number of ranges differs from the
    number of points. *)
Theorem process_key_bad_shape_raises (fr : lidar_frame) :
  Exists (λ p : list R, (length p < 3)%nat) (data fr) ∨
  (Forall (λ p : list R, length p = 3%nat) (data fr) ∧
   length (distance fr) ≠ length (data fr)) →
  process_key fr = None.
Proof.
  intros [Hshort|[H3 Hlen]]; unfold process_key.
  - match goal with |- context [mapM ?f ?l] => assert (mapM f l = None) as -> end; [|done].
    apply mapM_None_2. eapply Exists_impl; [exact Hshort|].
    intros p Hp. cbv beta in Hp. apply lookup_ge_None_2. lia.
  - destruct (z_data_mask (data fr) H3) as (zs & -> & Hmask). rw bind_Some_eq.
    rw Hmask. rw masked_keep. rw fmap_Some_eq bind_Some_eq.
    assert (masked (distance fr) (keep <$> data fr) = None) as ->; [|done].
    unfold masked. rw length_fmap. by destruct (decide (length (distance fr) = length (data fr))).
Qed.

Lemma process_key_bad_shape_raises_witness :
  process_key (LidarFrame [[1; 0; 0]] []) = None.
Proof.
  apply (process_key_bad_shape_raises (LidarFrame [[1; 0; 0]] [])).
  right. split; [repeat constructor|]. simpl. lia.
Defined.

(** ** The length of the subgoal *)

Lemma goal_affine_half c : goal_affine c = c / 2.
Proof. unfold goal_affine. lra. Qed.

Lemma rot2_norm t x y :
  (rot2 t x y).1 * (rot2 t x y).1 + (rot2 t x y).2 * (rot2 t x y).2 = x * x + y * y.
Proof.
  unfold rot2. cbn [fst snd]. pose proof (sin2_cos2 t) as Hsc. unfold Rsqr in Hsc.
  transitivity ((x * x + y * y) * (sin t * sin t + cos t * cos t)); [ring|]. rw Hsc. ring.
Qed.

Lemma sqrt_quarter c : 0 <= c → sqrt (c / 4) = sqrt c / 2.
Proof.
  intros Hc. apply sqrt_lem_1; [lra| |].
  - pose proof (sqrt_pos c). lra.
  - replace (sqrt c / 2 * (sqrt c / 2)) with (sqrt c * sqrt c / 4) by lra.
    by rw sqrt_sqrt.
Qed.

(** X26.  The subgoal observation depends on the heading only through
    its direction: for every instance it is a vector of length
    [min (d, 2) / 2], where d is the distance from the robot to its goal in
    the plane; so it lies in the unit disc, on the unit circle exactly when
    the goal is at the lookahead distance 2 or farther. *)
Theorem relative_subgoal_length (goals quat pos : list (list R)) :
  goals ≠ [] → length quat = length goals → length pos = length goals →
  Forall (λ r : list R, length r = 2%nat) goals →
  Forall (λ q : list R, length q = 4%nat) quat →
  Forall (λ p : list R, length p = 3%nat) pos →
  ∃ sub, relative_subgoal goals quat pos = Some sub ∧ length sub = length goals ∧
    ∀ i gx gy px py pz,
      goals !! i = Some [gx; gy] → pos !! i = Some [px; py; pz] →
      ∃ sx sy, sub !! i = Some [sx; sy] ∧
        sqrt (sx * sx + sy * sy)
          = Rmin (sqrt ((gx - px) * (gx - px) + (gy - py) * (gy - py))) 2 / 2.
Proof.
  intros Hne Hlq Hlp Hg Hq Hp.
  destruct (relative_subgoal_rows goals quat pos Hne Hlq Hlp Hg Hq Hp)
    as (sub & Hsub & Hlen & _ & Hrow).
  exists sub. split; [done|]. split; [done|].
  intros i gx gy px py pz Hgi Hpi.
  destruct (lookup_lt_is_Some_2 quat i) as [q Hqi]; [apply lookup_lt_Some in Hgi; lia|].
  pose proof (Forall_lookup_1 _ _ _ _ Hq Hqi) as Hl4.
  destruct q as [|w [|x [|y [|z [|]]]]]; try done.
  rw (Hrow i gx gy px py pz w x y z Hgi Hpi Hqi). cbv zeta.
  set (t := wrap_angle _).
  pose proof (rot2_norm t (gx - px) (gy - py)) as Hrot.
  set (rx := (rot2 t (gx - px) (gy - py)).1) in *.
  set (ry := (rot2 t (gx - px) (gy - py)).2) in *.
  destruct (subgoal_get_body_spec rx ry []) as (cx & cy & -> & Hle & _ & Hin & Hout & _).
  exists (goal_affine cx), (goal_affine cy). split; [done|].
  rw !goal_affine_half.
  replace (cx / 2 * (cx / 2) + cy / 2 * (cy / 2)) with ((cx * cx + cy * cy) / 4) by lra.
  rw sqrt_quarter; [|nra]. f_equal. rw -Hrot.
  destruct (Rle_dec (sqrt (rx * rx + ry * ry)) 2) as [Hd|Hd].
  - destruct (Hin Hd) as [-> ->]. by rw Rmin_left.
  - rw Rmin_right; [|lra]. apply Hout. lra.
Qed.

Lemma relative_subgoal_length_witness :
  ∃ sub, relative_subgoal goal [[1; 0; 0; 0]; [1; 0; 0; 0]] [[0; 0; 0]; [5; 0; 0]] = Some sub ∧
    length sub = length goal.
Proof.
  destruct (relative_subgoal_length goal [[1; 0; 0; 0]; [1; 0; 0; 0]] [[0; 0; 0]; [5; 0; 0]])
    as (sub & Hsub & Hlen & _).
  - discriminate.
  - reflexivity.
  - reflexivity.
  - repeat constructor.
  - repeat constructor.
  - repeat constructor.
  - exists sub. split; [exact Hsub|exact Hlen].
Defined.

(** ** The marker points *)

Lemma norm_identity_quaternion : norm [1; 0; 0; 0] = 1.
Proof.
  unfold norm. cbn [fmap list_fmap Rsum foldr].
  replace (1 * 1 + (0 * 0 + (0 * 0 + (0 * 0 + 0)))) with 1 by lra. apply sqrt_1.
Qed.

Lemma mount_transform (p q : list R) a b c :
  p = [a; b; c] →
  bcast1 Rplus ((λ rk, dot p rk) <$> rot_of (1 / norm [1; 0; 0; 0]) (0 / norm [1; 0; 0; 0])
                   (0 / norm [1; 0; 0; 0]) (0 / norm [1; 0; 0; 0])) [0.026; 0; 0.418] = Some q →
  q = [a + 0.026; b; c + 0.418].
Proof.
  intros -> Hq. rw norm_identity_quaternion in Hq.
  unfold bcast1, rot_of in Hq. cbn [fmap list_fmap length] in Hq.
  destruct (decide (3 = 3)%nat); [|done].
  cbn [zip_with dot Rsum foldr] in Hq. injection Hq as <-.
  repeat (apply (f_equal2 cons); [lra|]). reflexivity.
Qed.

(** X27.  The marker points are the LIDAR points in the world frame.
    For at most two sensors with clouds of 720 points and root quaternions
    that have a non-zero entry, [visualize_lidar] returns one marker per
    point, sensor after sensor; the marker of the point (a, b, c) of sensor
    i is [R (a + 0.026, b, c + 0.418) + t], where R is the rotation matrix
    of the normalised root quaternion of robot i and t its root position:
    the sensor mount is a pure translation. *)
Theorem visualize_lidar_world_points (pts : list (list (list R)))
    (root_quat_w root_pos_w : list (list R)) :
  pts ≠ [] → (length pts ≤ 2)%nat →
  (length pts ≤ length root_quat_w)%nat → (length pts ≤ length root_pos_w)%nat →
  Forall cloud_ok pts →
  Forall (λ q : list R, length q = 4%nat ∧ Exists (λ a, a ≠ 0) q) root_quat_w →
  Forall (λ p : list R, length p = 3%nat) root_pos_w →
  ∃ markers, visualize_lidar (T3 pts) root_quat_w root_pos_w = Some (Some markers) ∧
    length markers = (length pts * 720)%nat ∧
    ∀ i k a b c w x y z t,
      pts !! i ≫= (.!! k) = Some [a; b; c] →
      root_quat_w !! i = Some [w; x; y; z] → root_pos_w !! i = Some t →
      let n := norm [w; x; y; z] in
      markers !! (i * 720 + k)%nat
        = Some (zip_with Rplus
                  ((λ rk, dot [a + 0.026; b; c + 0.418] rk)
                     <$> rot_of (w / n) (x / n) (y / n) (z / n)) t).
Proof.
  intros Hne Hl2 Hlq Hlp Hc Hq0 Hp. unfold visualize_lidar.
  assert (Forall (λ q : list R, length q = 4%nat) root_quat_w) as Hq.
  { eapply Forall_impl; [exact Hq0|]. by intros q [? _]. }
  destruct (decide (1 < dim (T3 pts))%nat) as [_|Hn]; [|simpl in Hn; lia].
  destruct pts as [|p0 rest] eqn:Hpts; [done|]. rw -Hpts. rw -Hpts in Hne Hl2 Hlq Hlp Hc.
  assert (size1 (T3 pts) = Some 720%nat) as ->.
  { rw Hpts /=. f_equal. rw Hpts in Hc. by inversion Hc as [|?? [? _] _]. }
  rw bind_Some_eq. destruct (decide (300 ≤ 720)%nat) as [_|Hn]; [|lia].
  destruct (quat_to_rot_matrix_ok lidar_to_robot_quat) as (rot & Hrot & Hlrot & Hrot3).
  { done. } { repeat constructor. }
  rw Hrot bind_Some_eq.
  destruct (transform_to_robot_ok pts rot lidar_to_robot_pos) as (d1 & Hd1 & Hld1 & Hcd1);
    [by rw Hpts|by rw Hlrot|done|done|done|repeat constructor|].
  rw Hd1 bind_Some_eq. cbv zeta.
  destruct (quat_to_rot_matrix_ok root_quat_w) as (rot2 & Hrot2 & Hlrot2 & Hrot23).
  { intros ->. rw Hpts /= in Hlq. lia. } { done. }
  rw Hrot2 bind_Some_eq.
  destruct (transform_to_robot_ok d1 rot2 root_pos_w) as (d2 & Hd2 & Hld2 & Hcd2);
    [|lia|lia|done|done|done|].
  { intros ->. rw Hpts /= in Hld1. done. }
  rw Hd2 bind_Some_eq. eexists. split; [reflexivity|].
  assert (Forall (λ o : list (list R), length o = 720%nat) d2) as H720.
  { eapply Forall_impl; [exact Hcd2|]. by intros o [? _]. }
  split; [rw (length_concat_uniform d2 720) //; lia|].
  intros i k a b c w x y z t Hpk Hqi Hti.
  apply bind_Some in Hpk as (d & Hdi & Hpk).
  assert (i < length pts)%nat as Hi by (by apply lookup_lt_Some in Hdi).
  pose proof (Forall_lookup_1 _ _ _ _ Hc Hdi) as [Hd720 _].
  assert (k < 720)%nat as Hk by (apply lookup_lt_Some in Hpk; lia).
  rw (lookup_concat_uniform d2 720 i k H720 Hk).
  destruct (lookup_lt_is_Some_2 d2 i) as [o2 Ho2]; [lia|].
  destruct (lookup_lt_is_Some_2 d1 i) as [o1 Ho1]; [lia|].
  pose proof (Forall_lookup_1 _ _ _ _ H720 Ho2) as Hlo2. cbv beta in Hlo2.
  destruct (lookup_lt_is_Some_2 o2 k) as [q2 Hq2]; [lia|].
  rw Ho2 bind_Some_eq Hq2.
  (* second transform *)
  destruct (transform_to_robot_rows _ _ _ _ Hd2 i o2 Ho2)
    as (d1' & r2 & t2 & Hd1' & Hr2 & Ht2 & Hpts2).
  assert (d1' = o1) as -> by congruence. assert (t2 = t) as -> by congruence.
  destruct (Hpts2 k q2 Hq2) as (q1 & Hq1 & Hlq1 & Hb2).
  destruct (quat_to_rot_matrix_rows _ _ Hrot2 i r2 Hr2) as (w' & x' & y' & z' & Hqi' & ->).
  assert ([w'; x'; y'; z'] = [w; x; y; z]) as Heq by congruence.
  injection Heq as -> -> -> ->.
  (* first transform *)
  destruct (transform_to_robot_rows _ _ _ _ Hd1 i o1 Ho1)
    as (d' & r1 & t1 & Hd' & Hr1 & Ht1 & Hpts1).
  assert (d' = d) as -> by congruence.
  destruct (Hpts1 k q1 Hq1) as (p & Hp' & Hlp' & Hb1).
  assert (p = [a; b; c]) as Hpabc by congruence.
  destruct (quat_to_rot_matrix_rows _ _ Hrot i r1 Hr1) as (w1 & x1 & y1 & z1 & Hq1i & ->).
  assert ([w1; x1; y1; z1] = [1; 0; 0; 0] ∧ t1 = [0.026; 0; 0.418]) as [Hquat Htr].
  { destruct i as [|[|i]]; [| |simpl in Hi; lia];
      cbn [lidar_to_robot_quat lidar_to_robot_pos lookup list_lookup] in Hq1i, Ht1;
      by simplify_eq. }
  injection Hquat as -> -> -> ->. subst t1.
  pose proof (mount_transform p q1 a b c Hpabc Hb1) as ->.
  pose proof (Forall_lookup_1 _ _ _ _ Hp Hti) as Hlt. cbv beta in Hlt.
  unfold bcast1 in Hb2. rw length_fmap in Hb2. cbn [rot_of length] in Hb2. rw Hlt in Hb2.
  destruct (decide (3 = 3)%nat); [|done]. by injection Hb2 as <-.
Qed.

Lemma visualize_lidar_world_points_witness :
  ∃ markers, visualize_lidar (T3 [flat_cloud]) [[1; 0; 0; 0]] [[0; 0; 0]] = Some (Some markers) ∧
    length markers = 720%nat.
Proof.
  destruct (visualize_lidar_world_points [flat_cloud] [[1; 0; 0; 0]] [[0; 0; 0]])
    as (markers & Hm & Hl & _).
  - discriminate.
  - simpl. lia.
  - simpl. lia.
  - simpl. lia.
  - repeat constructor.
  - constructor; [|constructor]. split; [reflexivity|]. apply Exists_cons_hd. lra.
  - repeat constructor.
  - exists markers. split; [exact Hm|exact Hl].
Defined.

(** ** Ticks on which no observation is returned *)

Lemma constructor_history_raises (rngs : list (list R)) (c : Z) :
  (2 ≤ length rngs)%nat → lidar_pooling (T2 [[]]) (T2 rngs) c = None.
Proof.
  intros Hl. unfold lidar_pooling.
  destruct (decide (dim (T2 rngs) ≤ 1)%nat) as [Hd|_]; [simpl in Hd; lia|].
  cbn [size0]. rw bind_Some_eq.
  match goal with |- context [mapM ?f ?l] => assert (mapM f l = None) as -> end; [|done].
  apply mapM_None_2, Exists_exists. exists 1%nat. split; [apply elem_of_seq; lia|].
  cbn [length]. rw bind_Some_eq. by destruct (decide (1 = 0)%nat).
Qed.

(** C6.  [_get_observations] does not return an observation on every
    tick; there are ticks the environment can meet on which it raises.
    (a) With four instances, the number of the shipped configuration, it
    raises from the constructor's state for every reading and every pose:
    the module-level goal has two rows.  (b) With two instances it raises
    from the constructor's state on a reading in which both sensors see a
    point inside the band: the constructor stores a history of one row.
    (c) With two instances and an empty history it raises on a reading
    whose points all lie outside the band (the defect of C3). *)
Theorem C6_tick_raises :
  (∀ left right jp jv lidar root_quat_w root_pos_w,
     _get_observations (__init__ 4 left right jp jv) lidar root_quat_w root_pos_w = None) ∧
  (Forall (λ kv : string * lidar_frame, frame_ok kv.2) small_reading ∧
   ∀ left right jp jv root_quat_w root_pos_w,
     _get_observations (__init__ 2 left right jp jv) small_reading root_quat_w root_pos_w
       = None) ∧
  (∀ root_quat_w root_pos_w,
     _get_observations fresh_env out_of_band_reading root_quat_w root_pos_w = None).
Proof.
  split; [|split; [split; [apply small_reading_ok|]|]].
  - intros left right jp jv lidar root_quat_w root_pos_w. unfold _get_observations.
    destruct (raw_lidar_process lidar) as [lidar_pair|]; [|done]. rw bind_Some_eq.
    destruct (pooling_step (__init__ 4 left right jp jv) lidar_pair.2)
      as [[[out flag] self']|] eqn:Hstep; [|done].
    rw bind_Some_eq. cbn [fst snd]. apply pooling_step_num_envs in Hstep.
    destruct (visualize_lidar lidar_pair.1 root_quat_w root_pos_w) as [marker|]; [|done].
    rw bind_Some_eq.
    destruct (relative_subgoal goal root_quat_w root_pos_w) as [subgoal|]; [|done].
    rw bind_Some_eq.
    assert (reshape2 (num_envs self') 3 (concat ((λ g : list R, g ++ [0]) <$> goal)) = None)
      as ->; [|done].
    unfold reshape2. case_decide as Hl; [|done]. exfalso. rw Hstep in Hl. simpl in Hl. lia.
  - intros left right jp jv root_quat_w root_pos_w. unfold _get_observations.
    destruct (raw_lidar_process_shapes small_reading)
      as (pts & rngs & -> & _ & _ & [Hl _]); [done|apply small_reading_ok|].
    rw bind_Some_eq. cbn [fst snd].
    assert (pooling_step (__init__ 2 left right jp jv) (T2 rngs) = None) as ->; [|done].
    unfold pooling_step. cbn [lidar_history_data pooling_tns __init__].
    rw constructor_history_raises; [done|]. rw Hl. simpl. lia.
  - intros root_quat_w root_pos_w. unfold _get_observations.
    assert (raw_lidar_process out_of_band_reading = None) as ->; [|done].
    unfold raw_lidar_process, out_of_band_reading.
    cbn [head mbind option_bind snd data length].
    destruct (decide (1%nat ≠ 0%nat)) as [_|Hn]; [|exfalso; apply Hn; lia]. cbn [mapM snd].
    rw process_key_no_survivor; [done|..].
    + repeat constructor.
    + done.
    + repeat constructor. apply keep_above.
Qed.
